(** * Gutendex book search: catalog client, result transformer, query controller

    A shallow embedding of the three iterations of the [GutenbergSearch]
    component of the repository:
    - [Part000]  : src/unnamed/part_000 (first iteration, no pagination),
    - [QueryJsx] : src/library_gutendex/src/Query.jsx (pagination added),
    - [Part001]  : src/unnamed/part_001 (final iteration).

    JavaScript arrays are references into a heap, so that [slice], the in-place
    [sort] and the identity of an array (React compares hook dependencies with
    [Object.is]) are visible.  Asynchronous functions are computations in a
    state-and-exception monad over the world (heap, network, request log,
    console, pending component state); a rejected promise is a thrown value. *)

From Stdlib Require Import ZArith QArith Lia Ascii String.
From stdpp Require Import base decidable option list sorting strings pretty.

Local Open Scope string_scope.
Local Open Scope Z_scope.
Local Open Scope list_scope.

(** ** Data model *)

Record Author := {
  name : string;
  birth_year : option Z;   (* [null] in the catalog's JSON is [None] *)
  death_year : option Z
}.

Record Book := {
  id : Z;
  title : string;
  authors : option (list Author);   (* [None]: the field is null or undefined *)
  languages : list string;
  subjects : list string;
  bookshelves : list string;
  download_count : Z;
  release_date : option Z   (* time value of [new Date(release_date)]; [None]: Invalid Date *)
}.

(** An array of books is a location of the heap. *)
Definition loc := nat.

(** The decoded response object [{count, next, previous, results}]. *)
Module Page.
Record t := mk {
  count : Z;
  next : option string;
  previous : option string;
  results : loc
}.
End Page.
Abbreviation Page := Page.t.

(** What the catalog service sends, before [response.json()] allocates it. *)
Record PageData := {
  d_count : Z;
  d_next : option string;
  d_previous : option string;
  d_results : list Book
}.

Inductive Body :=
| Malformed                 (* the body is not JSON: [response.json()] rejects *)
| Json (p : PageData).

Inductive Reply :=
| Unreachable               (* transport failure: [fetch] rejects *)
| Responded (b : Body).

(** Thrown values and rejection reasons. *)
Inductive JSError :=
| TypeError (msg : string)
| SyntaxError (msg : string)
| Reason (msg : string).    (* [Promise.reject('...')] with a string *)

(** ** The world and the monad of effects *)

Record World (Σ : Type) := mkWorld {
  heap : list (list Book);
  network : string → Reply;    (* the catalog service, by request URL *)
  requests : list string;      (* URLs passed to [fetch], oldest first *)
  console : list string;       (* first argument of each [console.error] *)
  comp : Σ                     (* pending state of the component's hooks *)
}.
Arguments mkWorld {Σ}.
Arguments heap {Σ}.
Arguments network {Σ}.
Arguments requests {Σ}.
Arguments console {Σ}.
Arguments comp {Σ}.

Inductive Outcome (A : Type) :=
| Returned (a : A)
| Thrown (e : JSError).
Arguments Returned {A}.
Arguments Thrown {A}.

Definition M (Σ A : Type) : Type := World Σ → Outcome A * World Σ.

Definition ret {Σ A} (a : A) : M Σ A := λ w, (Returned a, w).

Definition bind {Σ A B} (m : M Σ A) (k : A → M Σ B) : M Σ B :=
  λ w, match m w with
       | (Returned a, w') => k a w'
       | (Thrown e, w') => (Thrown e, w')
       end.

Definition throw {Σ A} (e : JSError) : M Σ A := λ w, (Thrown e, w).

(** [try { body } catch (error) { handler }]: the effects of [body] up to the
    throw are kept. *)
Definition try_catch {Σ A} (body : M Σ A) (handler : JSError → M Σ A) : M Σ A :=
  λ w, match body w with
       | (Returned a, w') => (Returned a, w')
       | (Thrown e, w') => handler e w'
       end.

Declare Scope js_scope.
Delimit Scope js_scope with js.
Notation "x <- c1 ;; c2" := (bind c1 (λ x, c2))
  (at level 100, c1 at next level, right associativity) : js_scope.
Notation "c1 ;; c2" := (bind c1 (λ _, c2))
  (at level 100, right associativity) : js_scope.
Local Open Scope js_scope.

(** The world after a computation, and its outcome. *)
Definition exec {Σ A} (m : M Σ A) (w : World Σ) : World Σ := (m w).2.
Definition eval {Σ A} (m : M Σ A) (w : World Σ) : Outcome A := (m w).1.

Section Primitives.
Context {Σ : Type}.

Definition console_error (msg : string) : M Σ unit :=
  λ w, (Returned tt,
        mkWorld (heap w) (network w) (requests w) (console w ++ [msg]) (comp w)).

(** A new array object. *)
Definition new_array (l : list Book) : M Σ loc :=
  λ w, (Returned (length (heap w)),
        mkWorld (heap w ++ [l]) (network w) (requests w) (console w) (comp w)).

(** The elements of an array. *)
Definition elements (h : list (list Book)) (r : loc) : list Book :=
  default [] (h !! r).

Definition read_array (r : loc) : M Σ (list Book) :=
  λ w, (Returned (elements (heap w) r), w).

(** Overwrite the elements of the array at [r] (used by the in-place sort). *)
Definition write_array (r : loc) (l : list Book) : M Σ unit :=
  λ w, (Returned tt,
        mkWorld (<[r:=l]> (heap w)) (network w) (requests w) (console w) (comp w)).

(** [fetch(url)]: the request is issued, then the promise settles. *)
Definition fetch (url : string) : M Σ Body :=
  λ w, let w' := mkWorld (heap w) (network w) (requests w ++ [url])
                         (console w) (comp w) in
       match network w url with
       | Unreachable => (Thrown (TypeError "Failed to fetch"), w')
       | Responded b => (Returned b, w')
       end.

(** [fetch(url)] taken apart at its [await]: the request is issued at
    once, the promise settles when the reply [r] arrives. *)
Definition request (url : string) : M Σ unit :=
  λ w, (Returned tt,
        mkWorld (heap w) (network w) (requests w ++ [url]) (console w) (comp w)).

Definition respond (r : Reply) : M Σ Body :=
  match r with
  | Unreachable => throw (TypeError "Failed to fetch")
  | Responded b => ret b
  end.

(** [response.json()]: decoding allocates the [results] array. *)
Definition json (b : Body) : M Σ Page :=
  match b with
  | Malformed => throw (SyntaxError "Unexpected token")
  | Json p =>
      r <- new_array (d_results p) ;;
      ret (Page.mk (d_count p) (d_next p) (d_previous p) r)
  end.

(** Reading and writing the hooks' state. *)
Definition get_state : M Σ Σ := λ w, (Returned (comp w), w).

Definition set_state (f : Σ → Σ) : M Σ unit :=
  λ w, (Returned tt,
        mkWorld (heap w) (network w) (requests w) (console w) (f (comp w))).
End Primitives.

(** ** Built-ins of the JavaScript runtime *)

(** *** encodeURIComponent

    Strings are sequences of UTF-8 bytes.  Every byte outside the unreserved
    set [A-Z a-z 0-9 - _ . ! ~ * ' ( )] becomes [%XX] with upper-case
    hexadecimal digits. *)

Definition unreserved (c : ascii) : bool :=
  let n := N_of_ascii c in
  ((65 <=? n) && (n <=? 90) || (97 <=? n) && (n <=? 122)
   || (48 <=? n) && (n <=? 57)
   || bool_decide (c ∈ ["-"; "_"; "."; "!"; "~"; "*"; "'"; "("; ")"]%char))%N.

Definition hex_digit (n : N) : ascii :=
  (if n <? 10 then ascii_of_N (48 + n) else ascii_of_N (55 + n))%N.

Definition percent (c : ascii) (rest : string) : string :=
  let n := N_of_ascii c in
  String "%" (String (hex_digit (n / 16)) (String (hex_digit (n mod 16)) rest)).

Fixpoint encodeURIComponent (s : string) : string :=
  match s with
  | EmptyString => EmptyString
  | String c s' =>
      if unreserved c then String c (encodeURIComponent s')
      else percent c (encodeURIComponent s')
  end.

Definition hex_value (c : ascii) : option N :=
  let n := N_of_ascii c in
  (if (48 <=? n) && (n <=? 57) then Some (n - 48)
   else if (65 <=? n) && (n <=? 70) then Some (n - 55)
   else if (97 <=? n) && (n <=? 102) then Some (n - 87)
   else None)%N.

(** The inverse reading of an escaped string ([decodeURIComponent] on bytes). *)
Fixpoint percent_decode (s : string) : string :=
  match s with
  | EmptyString => EmptyString
  | String c s' =>
      match s' with
      | String h (String l rest) =>
          if Ascii.eqb c "%" then
            match hex_value h, hex_value l with
            | Some a, Some b => String (ascii_of_N (16 * a + b)) (percent_decode rest)
            | _, _ => String c (percent_decode s')
            end
          else String c (percent_decode s')
      | _ => String c (percent_decode s')
      end
  end.

(** The characters an escaped string can contain. *)
Definition escaped_char (c : ascii) : bool :=
  unreserved c || Ascii.eqb c "%".

Fixpoint string_forallb (p : ascii → bool) (s : string) : bool :=
  match s with
  | EmptyString => true
  | String c s' => p c && string_forallb p s'
  end.

(** *** Numbers

    A JavaScript number is NaN, an infinity or a finite value; every finite
    double is a rational.  Only comparisons are needed. *)

Inductive JSNum :=
| NaN
| NegInf
| Fin (q : Q)
| PosInf.

Definition Number_of_Z (z : Z) : JSNum := Fin (inject_Z z).

(** [a <= b] on numbers: false as soon as one side is NaN. *)
Definition js_le (a b : JSNum) : bool :=
  match a, b with
  | NaN, _ | _, NaN => false
  | NegInf, _ => true
  | _, PosInf => true
  | Fin x, Fin y => Qle_bool x y
  | _, _ => false
  end.

Definition js_min (a b : JSNum) : JSNum :=
  match a, b with
  | NaN, _ | _, NaN => NaN
  | _, _ => if js_le a b then a else b
  end.

Definition js_max (a b : JSNum) : JSNum :=
  match a, b with
  | NaN, _ | _, NaN => NaN
  | _, _ => if js_le a b then b else a
  end.

(** [Math.min(...l)] and [Math.max(...l)]: [Infinity] and [-Infinity] on no
    argument. *)
Definition Math_min (l : list JSNum) : JSNum := foldr js_min PosInf l.
Definition Math_max (l : list JSNum) : JSNum := foldr js_max NegInf l.

(** *** Arrays *)

(** [l.includes(v)] on an array of strings. *)
Definition includes (l : list string) (v : string) : bool := bool_decide (v ∈ l).

(** [Array.from(new Set(l))] on strings: a set keeps the order of insertion,
    so each value stays where it first occurs.  [seen] holds the values
    inserted so far. *)
Fixpoint distinct (seen l : list string) : list string :=
  match l with
  | [] => []
  | x :: l' =>
      if bool_decide (x ∈ seen) then distinct seen l'
      else x :: distinct (x :: seen) l'
  end.

(** [Array.prototype.sort] with a comparator: the element [x] goes after [y]
    when [cmp x y > 0].  The sort is stable (ECMAScript 2019); it is modelled
    by insertion from the right, which yields the stable sorted order whenever
    the comparator is consistent. *)
Section Sorting.
Context {A : Type} (cmp : A → A → Z).

Fixpoint insert_sorted (x : A) (l : list A) : list A :=
  match l with
  | [] => [x]
  | y :: l' => if (0 <? cmp x y)%Z then y :: insert_sorted x l' else x :: l
  end.

Definition sort_by (l : list A) : list A := foldr insert_sorted [] l.
End Sorting.

Section ArrayMethods.
Context {Σ : Type}.

(** [books.slice()] and [[...books]]: a fresh copy. *)
Definition slice (r : loc) : M Σ loc :=
  l <- read_array r ;; new_array l.

(** [arr.sort(cmp)]: sorts [arr] in place and returns [arr] itself. *)
Definition array_sort (r : loc) (cmp : Book → Book → Z) : M Σ loc :=
  l <- read_array r ;;
  write_array r (sort_by cmp l) ;;
  ret r.

(** The callback is run on each element in order; it may throw. *)
Fixpoint filter_with (f : Book → M Σ bool) (l : list Book) : M Σ (list Book) :=
  match l with
  | [] => ret []
  | b :: l' =>
      keep <- f b ;;
      rest <- filter_with f l' ;;
      ret (if keep then b :: rest else rest)
  end.

(** [books.filter(f)]: a new array. *)
Definition array_filter (r : loc) (f : Book → M Σ bool) : M Σ loc :=
  l <- read_array r ;;
  kept <- filter_with f l ;;
  new_array kept.

Fixpoint for_each {B} (f : Book → M Σ B) (l : list Book) : M Σ unit :=
  match l with
  | [] => ret tt
  | b :: l' => f b ;; for_each f l'
  end.
End ArrayMethods.

(** *** Coercions and collation supplied by the engine

    [ToNumber] is the coercion of a string operand of [<=] to a number
    (StringToNumber); [localeCompare] is [String.prototype.localeCompare] in
    the host's locale.  Both are parameters of the development. *)
Class Runtime := {
  ToNumber : string → JSNum;
  localeCompare : string → string → Z
}.

(** A string is falsy exactly when it is empty. *)
Definition falsy (s : string) : bool := bool_decide (s = "").

(** A cursor ([null] or a string) is truthy when it is a non-empty string. *)
Definition truthy (u : option string) : bool :=
  match u with
  | Some s => negb (falsy s)
  | None => false
  end.

(** A year operand of [<=]: [null] coerces to [+0]. *)
Definition year_number (y : option Z) : JSNum :=
  match y with
  | Some z => Number_of_Z z
  | None => Number_of_Z 0
  end.

(** ** src/library_gutendex/src/Query.jsx *)
Module QueryJsx.
Section Code.
Context {rt : Runtime} {Σ : Type}.

Definition API_BASE_URL : string := "https://gutendex.com".

Definition fetchPage (url : string) : M Σ Page :=
  try_catch
    (response <- fetch url ;;
     data <- json response ;;
     ret data)
    (λ error,
       console_error "Error fetching page:" ;;
       r <- new_array [] ;;
       ret (Page.mk 0 None None r)).

(** [fetchPage] from its first [await] on: what it does with the reply
    [r] to the request it has issued. *)
Definition fetchPage_resume (r : Reply) : M Σ Page :=
  try_catch
    (response <- respond r ;;
     data <- json response ;;
     ret data)
    (λ error,
       console_error "Error fetching page:" ;;
       r <- new_array [] ;;
       ret (Page.mk 0 None None r)).

(** The [url] of [getBookList]. *)
Definition listUrl (sortOrder : string) (page : Z) : string :=
  API_BASE_URL +:+ "/books?sort=" +:+ sortOrder +:+ "&page=" +:+ pretty page.

Definition getBookList (sortOrder : string) (page : Z) : M Σ Page :=
  let url := listUrl sortOrder page in
  fetchPage url.

Definition validSearchTypes : list string := ["topic"; "default"].

(** The [url] of [searchBooks]. *)
Definition searchUrl (query searchType sortOrder : string) (page : Z) : string :=
  if String.eqb searchType "topic" then
    (* Searching by topic requires a different query parameter *)
    API_BASE_URL +:+ "/books?topic=" +:+ encodeURIComponent query
    +:+ "&sort=" +:+ sortOrder +:+ "&page=" +:+ pretty page
  else
    API_BASE_URL +:+ "/books?search=" +:+ encodeURIComponent query
    +:+ "&sort=" +:+ sortOrder +:+ "&page=" +:+ pretty page.

Definition searchBooks (query searchType sortOrder : string) (page : Z) : M Σ Page :=
  if negb (includes validSearchTypes searchType) then
    console_error "Invalid search type." ;;
    throw (Reason "Invalid search type.")
  else
    let url := searchUrl query searchType sortOrder page in
    fetchPage url.

Definition sortBooks (books : loc) (sortOrder : string) : M Σ loc :=
  if String.eqb sortOrder "ascending_popular" then
    copy <- slice books ;;
    array_sort copy (λ a b, download_count a - download_count b)
  else if String.eqb sortOrder "descending_popular" then
    copy <- slice books ;;
    array_sort copy (λ a b, download_count b - download_count a)
  else if String.eqb sortOrder "alphabetical" then
    copy <- slice books ;;
    array_sort copy (λ a b, localeCompare (title a) (title b))
  else if String.eqb sortOrder "reverse_alphabetical" then
    copy <- slice books ;;
    array_sort copy (λ a b, localeCompare (title b) (title a))
  else
    console_error "Invalid sort order." ;;
    ret books.

(** [book.authors[0]]: indexing [null] throws, and so does reading a
    property of the [undefined] that indexing an empty array yields. *)
Definition first_author (book : Book) : M Σ Author :=
  match authors book with
  | None => throw (TypeError "Cannot read properties of null (reading '0')")
  | Some [] =>
      throw (TypeError "Cannot read properties of undefined (reading 'birth_year')")
  | Some (a :: _) => ret a
  end.

Definition filterBooks (books : loc) (filterType filterValue : string) : M Σ loc :=
  if falsy filterType || falsy filterValue then ret books
  else if String.eqb filterType "language" then
    (* [const languages = ...] is computed and not used *)
    array_filter books (λ book, ret (includes (languages book) filterValue))
  else if String.eqb filterType "author_year" then
    l <- read_array books ;;
    (* [authorYears]: the [flatMap] callback reads [authors[0]] of every book *)
    for_each (λ book, a <- first_author book ;;
                      ret [birth_year a; death_year a]) l ;;
    array_filter books (λ book,
      a <- first_author book ;;
      ret (js_le (year_number (birth_year a)) (ToNumber filterValue)
           && js_le (ToNumber filterValue) (year_number (death_year a))))
  else
    console_error "Invalid filter type." ;;
    ret books.
End Code.

(** The hooks of the component, in the order of their declaration. *)
Record State := mkState {
  searchTerm : string;
  results : loc;
  filteredResults : loc;
  sortedResults : loc;
  sortOrder : string;
  filterType : string;
  filterValue : string;
  selectedSearchType : string;
  isAuthorYearFilter : bool;
  nextPageUrl : option string;
  prevPageUrl : option string;
  currentPage : Z
}.

Global Instance State_eq_dec : EqDecision State.
Proof. solve_decision. Defined.

Section Component.
Context {rt : Runtime}.

(** The state with one hook replaced, for the hooks the handlers set. *)
Definition with_results (v : loc) (s : State) : State :=
  mkState (searchTerm s) v (filteredResults s) (sortedResults s)
    (sortOrder s) (filterType s) (filterValue s) (selectedSearchType s)
    (isAuthorYearFilter s) (nextPageUrl s) (prevPageUrl s) (currentPage s).
Definition with_filteredResults (v : loc) (s : State) : State :=
  mkState (searchTerm s) (results s) v (sortedResults s) (sortOrder s)
    (filterType s) (filterValue s) (selectedSearchType s)
    (isAuthorYearFilter s) (nextPageUrl s) (prevPageUrl s) (currentPage s).
Definition with_sortedResults (v : loc) (s : State) : State :=
  mkState (searchTerm s) (results s) (filteredResults s) v (sortOrder s)
    (filterType s) (filterValue s) (selectedSearchType s)
    (isAuthorYearFilter s) (nextPageUrl s) (prevPageUrl s) (currentPage s).
Definition with_nextPageUrl (v : option string) (s : State) : State :=
  mkState (searchTerm s) (results s) (filteredResults s) (sortedResults s)
    (sortOrder s) (filterType s) (filterValue s) (selectedSearchType s)
    (isAuthorYearFilter s) v (prevPageUrl s) (currentPage s).
Definition with_prevPageUrl (v : option string) (s : State) : State :=
  mkState (searchTerm s) (results s) (filteredResults s) (sortedResults s)
    (sortOrder s) (filterType s) (filterValue s) (selectedSearchType s)
    (isAuthorYearFilter s) (nextPageUrl s) v (currentPage s).
Definition with_currentPage (v : Z) (s : State) : State :=
  mkState (searchTerm s) (results s) (filteredResults s) (sortedResults s)
    (sortOrder s) (filterType s) (filterValue s) (selectedSearchType s)
    (isAuthorYearFilter s) (nextPageUrl s) (prevPageUrl s) v.

Definition setResults (v : loc) : M State unit :=
  set_state (with_results v).
Definition setFilteredResults (v : loc) : M State unit :=
  set_state (with_filteredResults v).
Definition setSortedResults (v : loc) : M State unit :=
  set_state (with_sortedResults v).
Definition setNextPageUrl (v : option string) : M State unit :=
  set_state (with_nextPageUrl v).
Definition setPrevPageUrl (v : option string) : M State unit :=
  set_state (with_prevPageUrl v).
Definition setCurrentPage (v : Z) : M State unit :=
  set_state (with_currentPage v).

Definition handleSearch (s : State) (page : Z) : M State unit :=
  try_catch
    (data <- searchBooks (searchTerm s) (selectedSearchType s) (sortOrder s) page ;;
     setResults (Page.results data) ;;
     setFilteredResults (Page.results data) ;;
     setSortedResults (Page.results data) ;;
     setNextPageUrl (Page.next data) ;;
     setPrevPageUrl (Page.previous data) ;;
     setCurrentPage page)
    (λ error, console_error "Error in search:").

Definition handleShowAllBooks (s : State) (page : Z) : M State unit :=
  try_catch
    (data <- getBookList (sortOrder s) page ;;
     setResults (Page.results data) ;;
     setFilteredResults (Page.results data) ;;
     setSortedResults (Page.results data) ;;
     setNextPageUrl (Page.next data) ;;
     setPrevPageUrl (Page.previous data) ;;
     setCurrentPage page)
    (λ error, console_error "Error getting all books:").

Definition handleNextPage (s : State) : M State unit :=
  if truthy (nextPageUrl s) then
    if negb (String.eqb (searchTerm s) "") then handleSearch s (currentPage s + 1)
    else handleShowAllBooks s (currentPage s + 1)
  else ret tt.

Definition handlePreviousPage (s : State) : M State unit :=
  if truthy (prevPageUrl s) then
    if negb (String.eqb (searchTerm s) "") then handleSearch s (currentPage s - 1)
    else handleShowAllBooks s (currentPage s - 1)
  else ret tt.

(** The list that is rendered: the filtered one only while the flag that
    the year input toggles is set. *)
Definition displayList (s : State) : loc :=
  if isAuthorYearFilter s then filteredResults s else sortedResults s.

(** The other hooks. *)
Definition with_searchTerm (v : string) (s : State) : State :=
  mkState v (results s) (filteredResults s) (sortedResults s) (sortOrder s)
    (filterType s) (filterValue s) (selectedSearchType s)
    (isAuthorYearFilter s) (nextPageUrl s) (prevPageUrl s) (currentPage s).
Definition with_sortOrder (v : string) (s : State) : State :=
  mkState (searchTerm s) (results s) (filteredResults s) (sortedResults s) v
    (filterType s) (filterValue s) (selectedSearchType s)
    (isAuthorYearFilter s) (nextPageUrl s) (prevPageUrl s) (currentPage s).
Definition with_filterType (v : string) (s : State) : State :=
  mkState (searchTerm s) (results s) (filteredResults s) (sortedResults s)
    (sortOrder s) v (filterValue s) (selectedSearchType s)
    (isAuthorYearFilter s) (nextPageUrl s) (prevPageUrl s) (currentPage s).
Definition with_filterValue (v : string) (s : State) : State :=
  mkState (searchTerm s) (results s) (filteredResults s) (sortedResults s)
    (sortOrder s) (filterType s) v (selectedSearchType s)
    (isAuthorYearFilter s) (nextPageUrl s) (prevPageUrl s) (currentPage s).
Definition with_selectedSearchType (v : string) (s : State) : State :=
  mkState (searchTerm s) (results s) (filteredResults s) (sortedResults s)
    (sortOrder s) (filterType s) (filterValue s) v
    (isAuthorYearFilter s) (nextPageUrl s) (prevPageUrl s) (currentPage s).
Definition with_isAuthorYearFilter (v : bool) (s : State) : State :=
  mkState (searchTerm s) (results s) (filteredResults s) (sortedResults s)
    (sortOrder s) (filterType s) (filterValue s) (selectedSearchType s)
    v (nextPageUrl s) (prevPageUrl s) (currentPage s).

Definition setSearchTerm (v : string) : M State unit :=
  set_state (with_searchTerm v).
Definition setSortOrder (v : string) : M State unit :=
  set_state (with_sortOrder v).
Definition setFilterType (v : string) : M State unit :=
  set_state (with_filterType v).
Definition setFilterValue (v : string) : M State unit :=
  set_state (with_filterValue v).
Definition setSelectedSearchType (v : string) : M State unit :=
  set_state (with_selectedSearchType v).
Definition setIsAuthorYearFilter (v : bool) : M State unit :=
  set_state (with_isAuthorYearFilter v).

(** Declared, and bound to no element of the page. *)
Definition handleApplyAuthorYearFilter (s : State) : M State unit :=
  setIsAuthorYearFilter (negb (isAuthorYearFilter s)).

(** *** Effects *)

(** [useEffect(..., [sortOrder, results])] *)
Definition effectSort (s : State) : M State unit :=
  try_catch
    (l <- read_array (results s) ;;
     if bool_decide (0 < length l)%nat then   (* results.length > 0 *)
       sorted <- sortBooks (results s) (sortOrder s) ;;
       setSortedResults sorted
     else ret tt)
    (λ error, console_error "Error sorting books:").

(** [useEffect(..., [sortedResults, filterType, filterValue])]: nothing
    catches what [filterBooks] throws. *)
Definition effectFilter (s : State) : M State unit :=
  filtered <- filterBooks (sortedResults s) (filterType s) (filterValue s) ;;
  setFilteredResults filtered.

Definition deps_sort (s : State) := (sortOrder s, results s).
Definition deps_filter (s : State) :=
  (sortedResults s, filterType s, filterValue s).

(** One round of effects, after a render with [cur] that follows a render
    with [prev]. *)
Definition commit (prev cur : State) : M State unit :=
  (if bool_decide (deps_sort prev ≠ deps_sort cur) then effectSort cur
   else ret tt) ;;
  (if bool_decide (deps_filter prev ≠ deps_filter cur) then effectFilter cur
   else ret tt).

(** Rendering until nothing changes.  An effect that throws unmounts the
    component, which has no error boundary: that is [None]. *)
Fixpoint settle (fuel : nat) (prev : State) (w : World State)
    : option (World State) :=
  if bool_decide (comp w = prev) then Some w
  else match fuel with
       | O => Some w
       | S n =>
           match commit prev (comp w) w with
           | (Returned _, w') => settle n (comp w) w'
           | (Thrown _, _) => None
           end
       end.

(** The first render: both effects run. *)
Definition mount (fuel : nat) (w : World State) : option (World State) :=
  let s := comp w in
  match (effectSort s ;; effectFilter s) w with
  | (Returned _, w') => settle fuel s w'
  | (Thrown _, _) => None
  end.

Definition initialState : State :=
  mkState "" 0%nat 1%nat 2%nat "descending_popular" "" "" "default" false
    None None 1.

Definition initialWorld (net : string → Reply) : World State :=
  mkWorld [[]; []; []] net [] [] initialState.

(** *** Events of the user interface *)
Inductive Event :=
| ChangeSearchTerm (v : string)      (* the text input *)
| ChangeSearchType (v : string)      (* the search-type select *)
| ClickSearch                        (* the 'Search' button *)
| ChangeFilterType (v : string)      (* the filter-type select *)
| ChangeLanguage (v : string)        (* the language select *)
| ChangeAuthorYear (v : string)      (* the year input *)
| ClickSort (v : string)             (* the four sort buttons *)
| ClickShowAllBooks
| ClickPrevious
| ClickNext.

(** The language select is rendered while the filter type is ['language'],
    the year input while it is ['author_year']; an element that is not
    rendered has no event. *)
Definition handle (ev : Event) (s : State) : M State unit :=
  match ev with
  | ChangeSearchTerm v => setSearchTerm v
  | ChangeSearchType v => setSelectedSearchType v
  | ClickSearch => handleSearch s 1
  | ChangeFilterType v => setFilterType v
  | ChangeLanguage v =>
      if String.eqb (filterType s) "language" then setFilterValue v else ret tt
  | ChangeAuthorYear v =>
      if String.eqb (filterType s) "author_year" then
        setFilterValue v ;;
        (* Toggle the state on each input change *)
        setIsAuthorYearFilter (negb (isAuthorYearFilter s))
      else ret tt
  | ClickSort v => setSortOrder v
  | ClickShowAllBooks => handleShowAllBooks s 1
  | ClickPrevious => handlePreviousPage s
  | ClickNext => handleNextPage s
  end.

(** An event is handled with the state of the last render; its request
    completes, then the component renders until nothing changes. *)
Definition react (fuel : nat) (ev : Event) (w : World State)
    : option (World State) :=
  let s := comp w in
  match handle ev s w with
  | (Returned _, w') => settle fuel s w'
  | (Thrown _, _) => None
  end.
End Component.
End QueryJsx.

(** ** src/unnamed/part_000 *)
Module Part000.
Record State := mkState {
  searchTerm : string;
  results : loc;
  filteredResults : loc;
  sortOrder : string;
  filterType : string;
  filterValue : string;
  selectedSearchType : string
}.

Section Code.
Context {rt : Runtime} {Σ : Type}.

Definition API_BASE_URL : string := "https://www.gutendex.com".

(** The [url] of [getBookList]. *)
Definition listUrl (sortOrder : string) : string :=
  API_BASE_URL +:+ "/books?sort=" +:+ sortOrder.

Definition getBookList (sortOrder : string) : M Σ loc :=
  let url := listUrl sortOrder in
  try_catch
    (response <- fetch url ;;
     data <- json response ;;
     ret (Page.results data))
    (λ error,
       console_error "Error getting the list of books:" ;;
       new_array []).

Definition validSearchTypes : list string :=
  ["title"; "topic"; "release_date"; "author"].

(** The [url] of [searchBooks]: the search type is not part of it. *)
Definition searchUrl (query sortOrder : string) : string :=
  API_BASE_URL +:+ "/books?search=" +:+ encodeURIComponent query
  +:+ "&sort=" +:+ sortOrder.

Definition searchBooks (query searchType sortOrder : string) : M Σ loc :=
  if negb (includes validSearchTypes searchType) then
    console_error "Invalid search type." ;;
    throw (Reason "Invalid search type.")
  else
    let url := searchUrl query sortOrder in
    try_catch
      (response <- fetch url ;;
       data <- json response ;;
       ret (Page.results data))
      (λ error,
         console_error "Error searching for books:" ;;
         new_array []).

(** The comparator of [sortBooks].  A difference of two dates of which one
    is invalid is NaN, which [sort] reads as [+0].  In the default case the
    comparator also logs ['Invalid sort type.'] at each call; how often
    [sort] calls it is left open by the language, and that output is not
    modelled. *)
Definition compareBooks (sortType : string) (a b : Book) : Z :=
  if String.eqb sortType "alphabetical" then localeCompare (title a) (title b)
  else if String.eqb sortType "reverse_alphabetical" then
    localeCompare (title b) (title a)
  else if String.eqb sortType "chronological" then
    match release_date a, release_date b with
    | Some ta, Some tb => ta - tb
    | _, _ => 0
    end
  else if String.eqb sortType "popularity" then
    download_count b - download_count a
  else 0.

Definition sortBooks (books : loc) (sortType : string) : M Σ loc :=
  if falsy sortType then ret books
  else
    copy <- slice books ;;
    array_sort copy (compareBooks sortType).

Definition filterBooks (books : loc) (filterType filterValue : string) : M Σ loc :=
  if falsy filterType || falsy filterValue then ret books
  else if String.eqb filterType "language" then
    array_filter books (λ book, ret (includes (languages book) filterValue))
  else if String.eqb filterType "topic" then
    array_filter books (λ book, ret (includes (subjects book) filterValue))
  else
    console_error "Invalid filter type." ;;
    ret books.
End Code.

Section Component.
Context {rt : Runtime}.

Definition setFilteredResults (v : loc) : M State unit :=
  set_state (λ s, mkState (searchTerm s) (results s) v (sortOrder s)
                          (filterType s) (filterValue s) (selectedSearchType s)).

(** The effect on [[results, filterType, filterValue, sortOrder]]. *)
Definition effectDerive (s : State) : M State unit :=
  filtered <- filterBooks (results s) (filterType s) (filterValue s) ;;
  sorted <- sortBooks filtered (sortOrder s) ;;
  setFilteredResults sorted.

Definition setResults (v : loc) : M State unit :=
  set_state (λ s, mkState (searchTerm s) v (filteredResults s) (sortOrder s)
                          (filterType s) (filterValue s) (selectedSearchType s)).

Definition setSortOrder (v : string) : M State unit :=
  set_state (λ s, mkState (searchTerm s) (results s) (filteredResults s) v
                          (filterType s) (filterValue s) (selectedSearchType s)).

(** The effect on [[sortOrder]]: the list of all books is fetched again. *)
Definition effectFetch (s : State) : M State unit :=
  data <- getBookList (sortOrder s) ;;
  setResults data.

(** [searchBooks(...).then(data => setResults(data)).catch(...)] *)
Definition handleSearch (s : State) : M State unit :=
  try_catch
    (data <- searchBooks (searchTerm s) (selectedSearchType s) (sortOrder s) ;;
     setResults data)
    (λ error, console_error "Error in search:").

(** One round of effects after a render with [cur] that follows a render
    with [prev], in the order of their declaration. *)
Definition deps_fetch (s : State) := sortOrder s.
Definition deps_derive (s : State) :=
  (results s, filterType s, filterValue s, sortOrder s).

Definition commit (prev cur : State) : M State unit :=
  (if bool_decide (deps_fetch prev ≠ deps_fetch cur) then effectFetch cur
   else ret tt) ;;
  (if bool_decide (deps_derive prev ≠ deps_derive cur) then effectDerive cur
   else ret tt).
End Component.
End Part000.

(** ** src/unnamed/part_001 *)
Module Part001.
(** The hooks of [GutenbergSearch], in the order of their declaration. *)
Record State := mkState {
  searchTerm : string;
  results : loc;
  filteredResults : loc;
  sortedResults : loc;
  sortOrder : string;
  filterType : string;
  filterValue : string;
  selectedSearchType : string;
  isAuthorYearFilter : bool;
  nextPageUrl : option string;
  prevPageUrl : option string;
  currentPage : Z;
  isLoading : bool;
  message : string;
  searchTrigger : bool
}.

Global Instance State_eq_dec : EqDecision State.
Proof. solve_decision. Defined.

Section Code.
Context {rt : Runtime} {Σ : Type}.

(** Lines 4 to 59 are the text of Query.jsx, lines 3 to 58. *)
Definition API_BASE_URL : string := QueryJsx.API_BASE_URL.
Definition fetchPage : string → M Σ Page := QueryJsx.fetchPage.
Definition getBookList : string → Z → M Σ Page := QueryJsx.getBookList.
Definition searchBooks : string → string → string → Z → M Σ Page :=
  QueryJsx.searchBooks.
Definition sortBooks : loc → string → M Σ loc := QueryJsx.sortBooks.

(** The callback of the [author_year] filter.  [year !== null] keeps the
    years that are present; a number is never [undefined]. *)
Definition authorYearCallback (filterValue : string) (book : Book) : bool :=
  let authors := default [] (authors book) in
  let birthYears :=
    filter (λ year, year ≠ None) (map birth_year authors) in
  let deathYears :=
    filter (λ year, year ≠ None) (map death_year authors) in
  let minBirthYear := Math_min (map year_number birthYears) in
  let maxDeathYear := Math_max (map year_number deathYears) in
  let not_undefined (_ : JSNum) := true in
  not_undefined minBirthYear
  && not_undefined maxDeathYear
  && js_le minBirthYear (ToNumber filterValue)
  && js_le (ToNumber filterValue) maxDeathYear.

Definition filterBooks (books : loc) (filterType filterValue : string) : M Σ loc :=
  if falsy filterType || falsy filterValue then ret books
  else if String.eqb filterType "language" then
    array_filter books (λ book, ret (includes (languages book) filterValue))
  else if String.eqb filterType "author_year" then
    array_filter books (λ book, ret (authorYearCallback filterValue book))
  else
    console_error "Invalid filter type." ;;
    ret books.
End Code.

Section Component.
Context {rt : Runtime}.

(** The state with one hook replaced. *)
Definition with_searchTerm (v : string) (s : State) : State :=
  mkState v (results s) (filteredResults s) (sortedResults s) (sortOrder s)
    (filterType s) (filterValue s) (selectedSearchType s)
    (isAuthorYearFilter s) (nextPageUrl s) (prevPageUrl s) (currentPage s)
    (isLoading s) (message s) (searchTrigger s).
Definition with_results (v : loc) (s : State) : State :=
  mkState (searchTerm s) v (filteredResults s) (sortedResults s)
    (sortOrder s) (filterType s) (filterValue s) (selectedSearchType s)
    (isAuthorYearFilter s) (nextPageUrl s) (prevPageUrl s) (currentPage s)
    (isLoading s) (message s) (searchTrigger s).
Definition with_filteredResults (v : loc) (s : State) : State :=
  mkState (searchTerm s) (results s) v (sortedResults s) (sortOrder s)
    (filterType s) (filterValue s) (selectedSearchType s)
    (isAuthorYearFilter s) (nextPageUrl s) (prevPageUrl s) (currentPage s)
    (isLoading s) (message s) (searchTrigger s).
Definition with_sortedResults (v : loc) (s : State) : State :=
  mkState (searchTerm s) (results s) (filteredResults s) v (sortOrder s)
    (filterType s) (filterValue s) (selectedSearchType s)
    (isAuthorYearFilter s) (nextPageUrl s) (prevPageUrl s) (currentPage s)
    (isLoading s) (message s) (searchTrigger s).
Definition with_sortOrder (v : string) (s : State) : State :=
  mkState (searchTerm s) (results s) (filteredResults s) (sortedResults s) v
    (filterType s) (filterValue s) (selectedSearchType s)
    (isAuthorYearFilter s) (nextPageUrl s) (prevPageUrl s) (currentPage s)
    (isLoading s) (message s) (searchTrigger s).
Definition with_filterType (v : string) (s : State) : State :=
  mkState (searchTerm s) (results s) (filteredResults s) (sortedResults s)
    (sortOrder s) v (filterValue s) (selectedSearchType s)
    (isAuthorYearFilter s) (nextPageUrl s) (prevPageUrl s) (currentPage s)
    (isLoading s) (message s) (searchTrigger s).
Definition with_filterValue (v : string) (s : State) : State :=
  mkState (searchTerm s) (results s) (filteredResults s) (sortedResults s)
    (sortOrder s) (filterType s) v (selectedSearchType s)
    (isAuthorYearFilter s) (nextPageUrl s) (prevPageUrl s) (currentPage s)
    (isLoading s) (message s) (searchTrigger s).
Definition with_selectedSearchType (v : string) (s : State) : State :=
  mkState (searchTerm s) (results s) (filteredResults s) (sortedResults s)
    (sortOrder s) (filterType s) (filterValue s) v (isAuthorYearFilter s)
    (nextPageUrl s) (prevPageUrl s) (currentPage s) (isLoading s)
    (message s) (searchTrigger s).
Definition with_nextPageUrl (v : option string) (s : State) : State :=
  mkState (searchTerm s) (results s) (filteredResults s) (sortedResults s)
    (sortOrder s) (filterType s) (filterValue s) (selectedSearchType s)
    (isAuthorYearFilter s) v (prevPageUrl s) (currentPage s) (isLoading s)
    (message s) (searchTrigger s).
Definition with_prevPageUrl (v : option string) (s : State) : State :=
  mkState (searchTerm s) (results s) (filteredResults s) (sortedResults s)
    (sortOrder s) (filterType s) (filterValue s) (selectedSearchType s)
    (isAuthorYearFilter s) (nextPageUrl s) v (currentPage s) (isLoading s)
    (message s) (searchTrigger s).
Definition with_currentPage (v : Z) (s : State) : State :=
  mkState (searchTerm s) (results s) (filteredResults s) (sortedResults s)
    (sortOrder s) (filterType s) (filterValue s) (selectedSearchType s)
    (isAuthorYearFilter s) (nextPageUrl s) (prevPageUrl s) v (isLoading s)
    (message s) (searchTrigger s).
Definition with_isLoading (v : bool) (s : State) : State :=
  mkState (searchTerm s) (results s) (filteredResults s) (sortedResults s)
    (sortOrder s) (filterType s) (filterValue s) (selectedSearchType s)
    (isAuthorYearFilter s) (nextPageUrl s) (prevPageUrl s) (currentPage s) v
    (message s) (searchTrigger s).
Definition with_message (v : string) (s : State) : State :=
  mkState (searchTerm s) (results s) (filteredResults s) (sortedResults s)
    (sortOrder s) (filterType s) (filterValue s) (selectedSearchType s)
    (isAuthorYearFilter s) (nextPageUrl s) (prevPageUrl s) (currentPage s)
    (isLoading s) v (searchTrigger s).
Definition with_searchTrigger (v : bool) (s : State) : State :=
  mkState (searchTerm s) (results s) (filteredResults s) (sortedResults s)
    (sortOrder s) (filterType s) (filterValue s) (selectedSearchType s)
    (isAuthorYearFilter s) (nextPageUrl s) (prevPageUrl s) (currentPage s)
    (isLoading s) (message s) v.

(** The setters returned by [useState]. *)
Definition setSearchTerm (v : string) : M State unit :=
  set_state (with_searchTerm v).
Definition setResults (v : loc) : M State unit :=
  set_state (with_results v).
Definition setFilteredResults (v : loc) : M State unit :=
  set_state (with_filteredResults v).
Definition setSortedResults (v : loc) : M State unit :=
  set_state (with_sortedResults v).
Definition setSortOrder (v : string) : M State unit :=
  set_state (with_sortOrder v).
Definition setFilterType (v : string) : M State unit :=
  set_state (with_filterType v).
Definition setFilterValue (v : string) : M State unit :=
  set_state (with_filterValue v).
Definition setSelectedSearchType (v : string) : M State unit :=
  set_state (with_selectedSearchType v).
Definition setNextPageUrl (v : option string) : M State unit :=
  set_state (with_nextPageUrl v).
Definition setPrevPageUrl (v : option string) : M State unit :=
  set_state (with_prevPageUrl v).
Definition setCurrentPage (v : Z) : M State unit :=
  set_state (with_currentPage v).
Definition setIsLoading (v : bool) : M State unit :=
  set_state (with_isLoading v).
Definition setMessage (v : string) : M State unit :=
  set_state (with_message v).
Definition setSearchTrigger (v : bool) : M State unit :=
  set_state (with_searchTrigger v).

(** [arr.length < 1] *)
Definition is_empty (r : loc) : M State bool :=
  l <- read_array r ;; ret (bool_decide (length l < 1)%nat).

(** The handlers are closures over the state [s] of the render that created
    them: they read [s] and write the pending state.  Here an [await] on
    the network completes at once; the handlers taken apart at their
    [await] follow below. *)
Definition handleSearch (s : State) (page : Z) : M State unit :=
  try_catch
    (setIsLoading true ;;
     data <- searchBooks (searchTerm s) (selectedSearchType s) (sortOrder s) page ;;
     setResults (Page.results data) ;;
     setFilteredResults (Page.results data) ;;
     setSortedResults (Page.results data) ;;
     setNextPageUrl (Page.next data) ;;
     setPrevPageUrl (Page.previous data) ;;
     setCurrentPage page ;;
     setIsLoading false ;;
     none <- is_empty (Page.results data) ;;
     if negb (isLoading s) && none && negb (String.eqb (searchTerm s) "")
     then setMessage "No results found"
     else setMessage "")
    (λ error,
       console_error "Error in search:" ;;
       setIsLoading false ;;
       setMessage "Error searching for books").

Definition handleShowAllBooks (s : State) (page : Z) : M State unit :=
  try_catch
    (setIsLoading true ;;
     data <- getBookList (sortOrder s) page ;;
     setResults (Page.results data) ;;
     setFilteredResults (Page.results data) ;;
     setSortedResults (Page.results data) ;;
     setNextPageUrl (Page.next data) ;;
     setPrevPageUrl (Page.previous data) ;;
     setCurrentPage page ;;
     setIsLoading false)
    (λ error,
       console_error "Error getting all books:" ;;
       setIsLoading false ;;
       setMessage "Error getting books").

Definition handleNextPage (s : State) : M State unit :=
  if truthy (nextPageUrl s) then
    if negb (String.eqb (searchTerm s) "") then handleSearch s (currentPage s + 1)
    else handleShowAllBooks s (currentPage s + 1)
  else ret tt.

Definition handlePreviousPage (s : State) : M State unit :=
  if truthy (prevPageUrl s) then
    if negb (String.eqb (searchTerm s) "") then handleSearch s (currentPage s - 1)
    else handleShowAllBooks s (currentPage s - 1)
  else ret tt.

Definition handleAuthorClick (authorName : string) : M State unit :=
  try_catch
    (setSearchTerm authorName ;;
     setSearchTrigger true)
    (λ error, console_error "Error handling author click:").

Definition handleBookshelfClick (bookshelf : string) : M State unit :=
  try_catch
    (setSearchTerm bookshelf ;;
     setSelectedSearchType "topic" ;;
     setSearchTrigger true)
    (λ error, console_error "Error handling bookshelf click:").

(** *** The handlers taken apart at their [await]

    An asynchronous handler runs up to its [await] when it is called: the
    request is issued.  What follows the [await] runs when the reply
    arrives, with the reply; other events and other replies may come
    before.  [handleSearch] and [handleShowAllBooks] above are these two
    halves run one after the other, the reply arriving at once. *)
Record Awaiting := mkAwaiting {
  awaited : string;                   (* the URL requested *)
  resume : Reply → M State unit       (* the handler after the [await] *)
}.

Definition handleSearch_resume (s : State) (page : Z) (r : Reply)
    : M State unit :=
  try_catch
    (data <- QueryJsx.fetchPage_resume r ;;
     setResults (Page.results data) ;;
     setFilteredResults (Page.results data) ;;
     setSortedResults (Page.results data) ;;
     setNextPageUrl (Page.next data) ;;
     setPrevPageUrl (Page.previous data) ;;
     setCurrentPage page ;;
     setIsLoading false ;;
     none <- is_empty (Page.results data) ;;
     if negb (isLoading s) && none && negb (String.eqb (searchTerm s) "")
     then setMessage "No results found"
     else setMessage "")
    (λ error,
       console_error "Error in search:" ;;
       setIsLoading false ;;
       setMessage "Error searching for books").

(** With a search type that is not accepted no request is issued: the
    promise of [searchBooks] is rejected, and the [catch] of the handler
    runs in a microtask, before any event, reply or render. *)
Definition handleSearch_begin (s : State) (page : Z)
    : M State (option Awaiting) :=
  setIsLoading true ;;
  if negb (includes QueryJsx.validSearchTypes (selectedSearchType s)) then
    console_error "Invalid search type." ;;
    console_error "Error in search:" ;;
    setIsLoading false ;;
    setMessage "Error searching for books" ;;
    ret None
  else
    let url := QueryJsx.searchUrl (searchTerm s) (selectedSearchType s)
                 (sortOrder s) page in
    request url ;;
    ret (Some (mkAwaiting url (handleSearch_resume s page))).

Definition handleShowAllBooks_resume (s : State) (page : Z) (r : Reply)
    : M State unit :=
  try_catch
    (data <- QueryJsx.fetchPage_resume r ;;
     setResults (Page.results data) ;;
     setFilteredResults (Page.results data) ;;
     setSortedResults (Page.results data) ;;
     setNextPageUrl (Page.next data) ;;
     setPrevPageUrl (Page.previous data) ;;
     setCurrentPage page ;;
     setIsLoading false)
    (λ error,
       console_error "Error getting all books:" ;;
       setIsLoading false ;;
       setMessage "Error getting books").

Definition handleShowAllBooks_begin (s : State) (page : Z)
    : M State (option Awaiting) :=
  setIsLoading true ;;
  let url := QueryJsx.listUrl (sortOrder s) page in
  request url ;;
  ret (Some (mkAwaiting url (handleShowAllBooks_resume s page))).

Definition handleNextPage_begin (s : State) : M State (option Awaiting) :=
  if truthy (nextPageUrl s) then
    if negb (String.eqb (searchTerm s) "") then
      handleSearch_begin s (currentPage s + 1)
    else handleShowAllBooks_begin s (currentPage s + 1)
  else ret None.

Definition handlePreviousPage_begin (s : State) : M State (option Awaiting) :=
  if truthy (prevPageUrl s) then
    if negb (String.eqb (searchTerm s) "") then
      handleSearch_begin s (currentPage s - 1)
    else handleShowAllBooks_begin s (currentPage s - 1)
  else ret None.

(** The reply to a request in flight arrives now. *)
Definition complete_now (k : option Awaiting) : M State unit :=
  match k with
  | Some k => λ w, resume k (network w (awaited k)) w
  | None => ret tt
  end.

(** *** Effects *)

(** [useEffect(..., [sortOrder, results])] *)
Definition effectSort (s : State) : M State unit :=
  try_catch
    (setIsLoading true ;;
     l <- read_array (results s) ;;
     (if bool_decide (0 < length l)%nat then   (* results.length > 0 *)
        sorted <- sortBooks (results s) (sortOrder s) ;;
        setSortedResults sorted
      else ret tt) ;;
     setIsLoading false)
    (λ error,
       console_error "Error sorting books:" ;;
       setIsLoading false).

(** [useEffect(..., [sortedResults, filterType, filterValue, searchTerm, message])] *)
Definition effectFilter (s : State) : M State unit :=
  filtered <- filterBooks (sortedResults s) (filterType s) (filterValue s) ;;
  setFilteredResults filtered ;;
  none <- is_empty filtered ;;
  if negb (isLoading s) && none && negb (String.eqb (searchTerm s) "")
  then setMessage "No results found"
  else setMessage "".

(** [useEffect(..., [searchTerm, searchTrigger])] *)
Definition effectTrigger (s : State) : M State unit :=
  if searchTrigger s then
    handleSearch s 1 ;;
    setSearchTrigger false
  else ret tt.

(** The list that is rendered. *)
Definition displayList (s : State) : loc :=
  if isAuthorYearFilter s then filteredResults s else sortedResults s.

(** The options of the language select, after 'Select Language':
    [Array.from(new Set(results.flatMap((book) => book.languages)))]. *)
Definition languageOptions (results : list Book) : list string :=
  distinct [] (results ≫= languages).

(** *** Rendering

    After a render with state [cur] that follows a render with state [prev],
    the effects whose dependencies differ ([Object.is]: arrays by identity)
    run in the order of their declaration; each reads [cur].  The updates
    they make are applied together, and a change of state renders again. *)
Definition when (b : bool) (m : M State unit) : M State unit :=
  if b then m else ret tt.

(** The dependency arrays of the three effects. *)
Definition deps_sort (s : State) := (sortOrder s, results s).
Definition deps_filter (s : State) :=
  (sortedResults s, filterType s, filterValue s, searchTerm s, message s).
Definition deps_trigger (s : State) := (searchTerm s, searchTrigger s).

Definition commit (prev cur : State) : M State unit :=
  when (bool_decide (deps_sort prev ≠ deps_sort cur)) (effectSort cur) ;;
  when (bool_decide (deps_filter prev ≠ deps_filter cur)) (effectFilter cur) ;;
  when (bool_decide (deps_trigger prev ≠ deps_trigger cur)) (effectTrigger cur).

Fixpoint settle (fuel : nat) (prev : State) (w : World State) : World State :=
  if bool_decide (comp w = prev) then w
  else match fuel with
       | O => w
       | S n => settle n (comp w) (exec (commit prev (comp w)) w)
       end.

(** [useEffect(..., [searchTerm, searchTrigger])] as it runs: the search is
    begun and the trigger is cleared at once. *)
Definition effectTrigger_begin (s : State) : M State (option Awaiting) :=
  if searchTrigger s then
    k <- handleSearch_begin s 1 ;;
    setSearchTrigger false ;;
    ret k
  else ret None.

(** The sort effect as it runs.  [fetchData()] runs up to its [await],
    which it reaches only when there are results; [sortBooks] has then
    returned its array.  What follows the [await] runs in a microtask:
    after the other effects of the render, before any event, reply or
    render. *)
Definition effectSort_begin (s : State) : M State (option loc) :=
  try_catch
    (setIsLoading true ;;
     l <- read_array (results s) ;;
     if bool_decide (0 < length l)%nat then   (* results.length > 0 *)
       sorted <- sortBooks (results s) (sortOrder s) ;;
       ret (Some sorted)
     else
       setIsLoading false ;;
       ret None)
    (λ error,
       console_error "Error sorting books:" ;;
       setIsLoading false ;;
       ret None).

Definition effectSort_resume (sorted : option loc) : M State unit :=
  match sorted with
  | Some sorted => setSortedResults sorted ;; setIsLoading false
  | None => ret tt
  end.

(** One round of effects as it runs: a search that the trigger effect
    begins is left in flight. *)
Definition commit_begin (prev cur : State) : M State (option Awaiting) :=
  sorted <- (if bool_decide (deps_sort prev ≠ deps_sort cur)
             then effectSort_begin cur else ret None) ;;
  when (bool_decide (deps_filter prev ≠ deps_filter cur)) (effectFilter cur) ;;
  k <- (if bool_decide (deps_trigger prev ≠ deps_trigger cur)
        then effectTrigger_begin cur else ret None) ;;
  effectSort_resume sorted ;;
  ret k.

(** The effects of the first render: all four run, in the order of their
    declaration.  [useEffect(..., [])] fetches all books when the
    component mounts: it begins [handleShowAllBooks()]. *)
Definition mount_begin (s : State) : M State (option Awaiting * option Awaiting) :=
  listing <- handleShowAllBooks_begin s 1 ;;
  sorted <- effectSort_begin s ;;
  effectFilter s ;;
  search <- effectTrigger_begin s ;;
  effectSort_resume sorted ;;
  ret (listing, search).

(** The first render when nothing else happens meanwhile: the effects
    run, the requests they have begun complete, and the component renders
    until nothing changes. *)
Definition mount (fuel : nat) (w : World State) : World State :=
  let s := comp w in
  settle fuel s
    (exec (ks <- mount_begin s ;; complete_now ks.1 ;; complete_now ks.2) w).

(** The state and the world before the first render: each [useState([])]
    makes an array of its own. *)
Definition initialState : State :=
  mkState "" 0%nat 1%nat 2%nat "" "" "" "default" true None None 1 false "" false.

Definition initialWorld (net : string → Reply) : World State :=
  mkWorld [[]; []; []] net [] [] initialState.

(** *** Events of the user interface *)
Inductive Event :=
| ChangeSearchTerm (v : string)      (* the text input *)
| ChangeSearchType (v : string)      (* the search-type select *)
| SubmitSearch                       (* the form's submit *)
| GetAllBooks                        (* the 'Get All Books' button *)
| ChangeLanguage (v : string)        (* the language select *)
| ChangeAuthorYear (v : string)      (* the number input *)
| ChangeSortOrder (v : string)       (* the sort select *)
| ClickAuthor (authorName : string)
| ClickBookshelf (bookshelf : string)
| ClickPrevious
| ClickNext.

Definition handle (ev : Event) (s : State) : M State unit :=
  match ev with
  | ChangeSearchTerm v => setSearchTerm v
  | ChangeSearchType v => setSelectedSearchType v
  | SubmitSearch => handleSearch s 1
  | GetAllBooks => handleShowAllBooks s 1
  | ChangeLanguage v => setFilterType "language" ;; setFilterValue v
  | ChangeAuthorYear v => setFilterType "author_year" ;; setFilterValue v
  | ChangeSortOrder v => setSortOrder v
  | ClickAuthor authorName => handleAuthorClick authorName
  | ClickBookshelf bookshelf => handleBookshelfClick bookshelf
  | ClickPrevious => handlePreviousPage s
  | ClickNext => handleNextPage s
  end.

(** An event when nothing else happens meanwhile: it is handled with the
    state of the last render, its request completes, then the component
    renders until nothing changes. *)
Definition react (fuel : nat) (ev : Event) (w : World State) : World State :=
  let s := comp w in
  settle fuel s (exec (handle ev s) w).

(** *** The component with requests in flight

    In general a reply may arrive at any time: after other events, after
    other replies, and between a render and the effects of that render,
    which React runs later (before the next render at the latest).  The
    state of the component is then the world, the state [rendered] last,
    the effects that are [due] and the requests [inflight].  An event may
    be handled at any of these points: where React runs the effects that
    are due before it handles an event, that is the run with [Effects]
    before [Do]. *)
Definition handle_begin (ev : Event) (s : State) : M State (option Awaiting) :=
  match ev with
  | SubmitSearch => handleSearch_begin s 1
  | GetAllBooks => handleShowAllBooks_begin s 1
  | ClickPrevious => handlePreviousPage_begin s
  | ClickNext => handleNextPage_begin s
  | _ => handle ev s ;; ret None
  end.

Inductive Due :=
| Nothing
| FirstRender                      (* the effects of the first render *)
| After (prev : State).            (* those of a render that followed [prev] *)

Record System := mkSystem {
  world : World State;
  rendered : State;
  due : Due;
  inflight : list Awaiting
}.

Inductive Step :=
| Do (ev : Event)                  (* the user does something *)
| Complete (i : nat)               (* the reply to a request in flight arrives *)
| Render                           (* the pending state is rendered *)
| Effects                          (* the effects that are due run *)
| Network (net : string → Reply).  (* the catalog service changes *)

Definition began (sys : System) (d : Due)
    (r : Outcome (list Awaiting) * World State) : option System :=
  match r with
  | (Returned ks, w') => Some (mkSystem w' (rendered sys) d (inflight sys ++ ks))
  | (Thrown _, _) => None
  end.

(** The handlers are those of the last render.  A render takes place when
    the pending state differs from the rendered one, after the effects
    that were due. *)
Definition step (st : Step) (sys : System) : option System :=
  match st with
  | Do ev =>
      began sys (due sys)
        ((k <- handle_begin ev (rendered sys) ;; ret (option_list k)) (world sys))
  | Complete i =>
      match inflight sys !! i with
      | Some k =>
          Some (mkSystem
                  (exec (resume k (network (world sys) (awaited k))) (world sys))
                  (rendered sys) (due sys) (delete i (inflight sys)))
      | None => None
      end
  | Render =>
      match due sys with
      | Nothing =>
          if bool_decide (comp (world sys) = rendered sys) then None
          else Some (mkSystem (world sys) (comp (world sys))
                       (After (rendered sys)) (inflight sys))
      | _ => None
      end
  | Effects =>
      match due sys with
      | Nothing => None
      | FirstRender =>
          began sys Nothing
            ((ks <- mount_begin (rendered sys) ;;
              ret (option_list ks.1 ++ option_list ks.2)) (world sys))
      | After prev =>
          began sys Nothing
            ((k <- commit_begin prev (rendered sys) ;; ret (option_list k))
               (world sys))
      end
  | Network net =>
      Some (mkSystem (mkWorld (heap (world sys)) net (requests (world sys))
                        (console (world sys)) (comp (world sys)))
              (rendered sys) (due sys) (inflight sys))
  end.

Fixpoint run (steps : list Step) (sys : System) : option System :=
  match steps with
  | [] => Some sys
  | st :: rest =>
      match step st sys with
      | Some sys' => run rest sys'
      | None => None
      end
  end.

Definition initialSystem (net : string → Reply) : System :=
  mkSystem (initialWorld net) initialState FirstRender [].

(** Nothing is left to happen without the user. *)
Definition quiescent (sys : System) : Prop :=
  due sys = Nothing ∧ inflight sys = [] ∧ comp (world sys) = rendered sys.
End Component.
End Part001.

(** A runtime for the examples.  [demo_ToNumber] reads the empty string and
    the decimal integer literals, with an optional sign, as StringToNumber
    does; the examples use no other string.  [demo_localeCompare] orders by
    code units. *)
Definition digit_value (c : ascii) : option Z :=
  let n := N_of_ascii c in
  (if (48 <=? n) && (n <=? 57) then Some (Z.of_N (n - 48)) else None)%N.

Fixpoint read_digits (acc : Z) (s : string) : option Z :=
  match s with
  | EmptyString => Some acc
  | String c s' =>
      match digit_value c with
      | Some d => read_digits (10 * acc + d) s'
      | None => None
      end
  end.

Definition demo_ToNumber (s : string) : JSNum :=
  match s with
  | EmptyString => Number_of_Z 0
  | String c s' =>
      if Ascii.eqb c "-" then
        match s' with
        | EmptyString => NaN
        | _ => match read_digits 0 s' with
               | Some z => Number_of_Z (- z)
               | None => NaN
               end
        end
      else if Ascii.eqb c "+" then
        match s' with
        | EmptyString => NaN
        | _ => match read_digits 0 s' with
               | Some z => Number_of_Z z
               | None => NaN
               end
        end
      else match read_digits 0 s with
           | Some z => Number_of_Z z
           | None => NaN
           end
  end.

Definition demo_localeCompare (a b : string) : Z :=
  match String.compare a b with
  | Lt => -1
  | Eq => 0
  | Gt => 1
  end.

Definition demo_runtime : Runtime :=
  {| ToNumber := demo_ToNumber; localeCompare := demo_localeCompare |}.

(** ** Notions used in the statements *)

(** A request to [url] fails: the transport fails or the body is not JSON. *)
Definition fails {Σ} (w : World Σ) (url : string) : Prop :=
  network w url = Unreachable ∨ network w url = Responded Malformed.

(** A world with no array, no request made and an empty console. *)
Definition blank {Σ} (net : string → Reply) (s : Σ) : World Σ :=
  mkWorld [] net [] [] s.

(** A consistent comparator (ECMAScript, Array.prototype.sort): swapping the
    arguments flips the sign, and "not after" is transitive. *)
Record consistent {A} (cmp : A → A → Z) : Prop := {
  cmp_flip : ∀ x y, Z.sgn (cmp y x) = - Z.sgn (cmp x y);
  cmp_trans : ∀ x y z, cmp x y <= 0 → cmp y z <= 0 → cmp x z <= 0
}.

(** A list in which no element comes after a later one. *)
Definition ordered {A} (cmp : A → A → Z) (l : list A) : Prop :=
  StronglySorted (λ x y, cmp x y <= 0) l.

(** The records that [sortOrder] ranks with [a] in Query.jsx and part_001:
    those with the same download count, or with a title that compares equal. *)
Definition same_rank {rt : Runtime} (sortOrder : string) (a b : Book) : bool :=
  if String.eqb sortOrder "ascending_popular"
     || String.eqb sortOrder "descending_popular"
  then bool_decide (download_count a = download_count b)
  else bool_decide (localeCompare (title a) (title b) = 0).

(** The sort orders of Query.jsx and part_001. *)
Definition supportedSortOrders : list string :=
  ["ascending_popular"; "descending_popular"; "alphabetical"; "reverse_alphabetical"].

(** [a] may stand before [b] in the order [sortOrder] of Query.jsx and
    part_001. *)
Definition in_order {rt : Runtime} (sortOrder : string) (a b : Book) : Prop :=
  if String.eqb sortOrder "ascending_popular" then
    download_count a <= download_count b
  else if String.eqb sortOrder "descending_popular" then
    download_count b <= download_count a
  else if String.eqb sortOrder "alphabetical" then
    localeCompare (title a) (title b) <= 0
  else localeCompare (title b) (title a) <= 0.

(** *** The [author_year] filter as the specification words it

    The bounds are the least birth year and the greatest death year among
    the years that are present; a record is kept when both bounds exist and
    the year asked for lies between them. *)
Definition least (l : list Z) : option Z :=
  match l with
  | [] => None
  | x :: l' => Some (foldr Z.min x l')
  end.

Definition greatest (l : list Z) : option Z :=
  match l with
  | [] => None
  | x :: l' => Some (foldr Z.max x l')
  end.

Definition min_birth_year (book : Book) : option Z :=
  least (omap birth_year (default [] (authors book))).

Definition max_death_year (book : Book) : option Z :=
  greatest (omap death_year (default [] (authors book))).

(** [year] is a finite number in the interval from [lo] to [hi]. *)
Definition within (year : JSNum) (lo hi : Z) : bool :=
  match year with
  | Fin q => Qle_bool (inject_Z lo) q && Qle_bool q (inject_Z hi)
  | _ => false
  end.

Definition in_author_years (year : JSNum) (book : Book) : bool :=
  match min_birth_year book, max_death_year book with
  | Some lo, Some hi => within year lo hi
  | _, _ => false
  end.

(** The record has no author, or none of its authors has a year. *)
Definition no_author_year (book : Book) : Prop :=
  Forall (λ a, birth_year a = None ∧ death_year a = None)
         (default [] (authors book)).

(** *** The test of the [author_year] filter of Query.jsx, which reads the
    first author only. *)
Definition first_author_alive {rt : Runtime} (filterValue : string) (book : Book) : bool :=
  match authors book with
  | Some (a :: _) =>
      js_le (year_number (birth_year a)) (ToNumber filterValue)
      && js_le (ToNumber filterValue) (year_number (death_year a))
  | _ => false
  end.

(** [book.authors[0]] does not exist. *)
Definition no_first_author (book : Book) : Prop :=
  authors book = None ∨ authors book = Some [].

(** *** Records of the examples *)
Definition author (n : string) (born died : option Z) : Author :=
  {| name := n; birth_year := born; death_year := died |}.

Definition book (i : Z) (t : string) (a : list Author) (langs : list string)
    (downloads : Z) : Book :=
  {| id := i; title := t; authors := Some a; languages := langs; subjects := [];
     bookshelves := []; download_count := downloads; release_date := None |}.

(** One author, born in 1800, dead in 1850. *)
Definition book_1800_1850 : Book :=
  book 1 "Poems" [author "A" (Some 1800) (Some 1850)] ["en"] 10.

(** No author. *)
Definition book_anonymous : Book := book 2 "Beowulf" [] ["en"] 20.

(** Two authors: 1900 to 1950, then 1800 to 1850. *)
Definition book_two_authors : Book :=
  book 3 "Letters" [author "B" (Some 1900) (Some 1950);
                    author "A" (Some 1800) (Some 1850)] ["en"; "fr"] 30.

(** *** The derived view of part_001 *)
Section DerivedView.
Context {rt : Runtime}.
Import Part001.

(** The elements of the array [sortBooks] returns, from those of its
    argument. *)
Definition sorted_list (sortOrder : string) (l : list Book) : list Book :=
  if String.eqb sortOrder "ascending_popular" then
    sort_by (λ a b, download_count a - download_count b) l
  else if String.eqb sortOrder "descending_popular" then
    sort_by (λ a b, download_count b - download_count a) l
  else if String.eqb sortOrder "alphabetical" then
    sort_by (λ a b, localeCompare (title a) (title b)) l
  else if String.eqb sortOrder "reverse_alphabetical" then
    sort_by (λ a b, localeCompare (title b) (title a)) l
  else l.

(** The elements of the array [filterBooks] returns. *)
Definition filtered_list (filterType filterValue : string) (l : list Book)
    : list Book :=
  if falsy filterType || falsy filterValue then l
  else if String.eqb filterType "language" then
    filter (λ book, includes (languages book) filterValue) l
  else if String.eqb filterType "author_year" then
    filter (authorYearCallback filterValue) l
  else l.

(** The message the filter effect sets. *)
Definition message_for (c : State) (l : list Book) : string :=
  if negb (isLoading c) && bool_decide (length l < 1)%nat
     && negb (String.eqb (searchTerm c) "")
  then "No results found" else "".

(** The updates of a completed search or listing. *)
Definition loaded (r : loc) (nx pv : option string) (page : Z) (c : State) : State :=
  with_isLoading false
    (with_currentPage page
       (with_prevPageUrl pv
          (with_nextPageUrl nx
             (with_sortedResults r (with_filteredResults r (with_results r c)))))).

(** [w'] has the arrays of [w], unchanged, and possibly more. *)
Definition extends (w w' : World State) : Prop :=
  (∃ k, heap w' = heap w ++ k) ∧ network w' = network w.

(** The three arrays of the state exist. *)
Definition well_formed (w : World State) (c : State) : Prop :=
  (results c < length (heap w))%nat
  ∧ (sortedResults c < length (heap w))%nat
  ∧ (filteredResults c < length (heap w))%nat.

Definition sorted_ok (w : World State) (c : State) : Prop :=
  elements (heap w) (sortedResults c)
  = sorted_list (sortOrder c) (elements (heap w) (results c)).

Definition filtered_ok (w : World State) (c : State) : Prop :=
  elements (heap w) (filteredResults c)
  = filtered_list (filterType c) (filterValue c)
      (elements (heap w) (sortedResults c)).

(** The published list is what sorting the results and then filtering
    gives, as the code computes it in the current world. *)
Definition publishes_sorted_then_filtered (w : World State) : Prop :=
  let s := comp w in
  eval (sorted <- sortBooks (results s) (sortOrder s) ;;
        filtered <- filterBooks sorted (filterType s) (filterValue s) ;;
        read_array filtered) w
  = Returned (elements (heap w) (filteredResults s)).

(** Rounds of rendering that suffice after an event. *)
Definition enough : nat := 4.

(** The state of a world at rest: the arrays exist, nothing is loading and
    the two derived arrays are up to date. *)
Definition at_rest (w : World State) : Prop :=
  let c := comp w in
  well_formed w c ∧ isLoading c = false ∧ sorted_ok w c ∧ filtered_ok w c.

(** What is known of the pending state [comp w] when it is about to be
    rendered after a render with [prev]: a derived array may be stale only
    if the dependencies of its effect differ. *)
Definition pending (prev : State) (w : World State) : Prop :=
  let c := comp w in
  well_formed w c ∧ isLoading c = false
  ∧ (elements (heap w) (results c) = [] →
     elements (heap w) (sortedResults c) = [])
  ∧ (deps_sort prev = deps_sort c → sorted_ok w c)
  ∧ (deps_filter prev = deps_filter c → filtered_ok w c).

(** The array [r] exists in [w] and holds the elements [l]. *)
Definition holds (w : World State) (r : loc) (l : list Book) : Prop :=
  (r < length (heap w))%nat ∧ elements (heap w) r = l.

(** The three stages of [commit prev c], from world to world. *)
Definition sort_stage (prev c : State) (w wa : World State) : Prop :=
  if decide (deps_sort prev = deps_sort c) then wa = w
  else ∃ sr,
    extends w wa
    ∧ comp wa = with_isLoading false (with_sortedResults sr (comp w))
    ∧ (elements (heap w) (results c) = [] ∧ sr = sortedResults (comp w)
       ∨ holds wa sr (sorted_list (sortOrder c) (elements (heap w) (results c)))).

Definition filter_stage (prev c : State) (wa wb : World State) : Prop :=
  if decide (deps_filter prev = deps_filter c) then wb = wa
  else ∃ f,
    extends wa wb
    ∧ comp wb
      = with_message
          (message_for c (filtered_list (filterType c) (filterValue c)
                            (elements (heap wa) (sortedResults c))))
          (with_filteredResults f (comp wa))
    ∧ holds wb f (filtered_list (filterType c) (filterValue c)
                    (elements (heap wa) (sortedResults c))).

Definition trigger_stage (prev c : State) (wb wc : World State) : Prop :=
  if decide (deps_trigger prev = deps_trigger c) then wc = wb
  else if searchTrigger c then
    extends wb wc
    ∧ ((∃ nx pv m,
          comp wc = with_searchTrigger false
                      (with_message m (loaded (length (heap wb)) nx pv 1 (comp wb)))
          ∧ (length (heap wb) < length (heap wc))%nat)
       ∨ (heap wc = heap wb
          ∧ comp wc = with_searchTrigger false
                        (with_message "Error searching for books"
                           (with_isLoading false (comp wb)))))
  else wc = wb.

(** [settle] comes to rest within [k] rounds, in a world at rest. *)
Definition settles_in (k : nat) (prev : State) (w : World State) : Prop :=
  ∃ wf, at_rest wf ∧ extends w wf
    ∧ isAuthorYearFilter (comp wf) = isAuthorYearFilter (comp w)
    ∧ ∀ n, settle (k + n) prev w = wf.

(** The trigger effect will not search. *)
Definition quiet (prev c : State) : Prop :=
  deps_trigger prev = deps_trigger c ∨ searchTrigger c = false.

(** The message is the one the filter effect would set. *)
Definition message_stable (w : World State) (c : State) : Prop :=
  message c
  = message_for c (filtered_list (filterType c) (filterValue c)
                     (elements (heap w) (sortedResults c))).

Definition with_network (net : string → Reply) (w : World State) : World State :=
  mkWorld (heap w) net (requests w) (console w) (comp w).

(** The worlds the component is in between two events when nothing
    overlaps: it mounts, then reacts to one event after the other, each
    reply arriving and the effects of each render running before the next
    event; the catalog service may change. *)
Inductive serial : World State → Prop :=
| serial_mount net : serial (mount enough (initialWorld net))
| serial_react w ev : serial w → serial (react enough ev w)
| serial_network w net : serial w → serial (with_network net w).

(** The states the component can be in, in general. *)
Definition asynchronous (sys : System) : Prop :=
  ∃ net steps, run steps (initialSystem net) = Some sys.
End DerivedView.

(** *** The derived view of Query.jsx *)
Section QueryJsxView.
Context {rt : Runtime}.
Import QueryJsx.

(** [book.authors[0]] exists. *)
Definition has_first_author (book : Book) : bool :=
  match authors book with
  | Some (_ :: _) => true
  | _ => false
  end.

(** The elements of the array [filterBooks] of Query.jsx returns, when
    it returns: with the [author_year] filter it throws as soon as one
    record has no first author. *)
Definition q_filtered_list (filterType filterValue : string) (l : list Book)
    : option (list Book) :=
  if falsy filterType || falsy filterValue then Some l
  else if String.eqb filterType "language" then
    Some (filter (λ book, includes (languages book) filterValue) l)
  else if String.eqb filterType "author_year" then
    if forallb has_first_author l
    then Some (filter (first_author_alive filterValue) l)
    else None
  else Some l.

Definition q_extends (w w' : World State) : Prop :=
  (∃ k, heap w' = heap w ++ k) ∧ network w' = network w.

Definition q_well_formed (w : World State) (c : State) : Prop :=
  (results c < length (heap w))%nat
  ∧ (sortedResults c < length (heap w))%nat
  ∧ (filteredResults c < length (heap w))%nat.

Definition q_holds (w : World State) (r : loc) (l : list Book) : Prop :=
  (r < length (heap w))%nat ∧ elements (heap w) r = l.

Definition q_sorted_ok (w : World State) (c : State) : Prop :=
  elements (heap w) (sortedResults c)
  = sorted_list (sortOrder c) (elements (heap w) (results c)).

Definition q_filtered_ok (w : World State) (c : State) : Prop :=
  q_filtered_list (filterType c) (filterValue c)
    (elements (heap w) (sortedResults c))
  = Some (elements (heap w) (filteredResults c)).

(** The state of a world at rest: the arrays exist and the two derived
    arrays are up to date. *)
Definition q_at_rest (w : World State) : Prop :=
  let c := comp w in
  q_well_formed w c ∧ q_sorted_ok w c ∧ q_filtered_ok w c.

(** What is known of the pending state when it is about to be rendered
    after a render with [prev]. *)
Definition q_pending (prev : State) (w : World State) : Prop :=
  let c := comp w in
  q_well_formed w c
  ∧ (elements (heap w) (results c) = [] →
     elements (heap w) (sortedResults c) = [])
  ∧ (deps_sort prev = deps_sort c → q_sorted_ok w c)
  ∧ (deps_filter prev = deps_filter c → q_filtered_ok w c).



(** Rendering comes to rest within [k] rounds, or an effect throws. *)
Definition q_settles_in (k : nat) (prev : State) (w : World State) : Prop :=
  ∃ r, (∀ n, settle (k + n) prev w = r)
    ∧ ∀ wf, r = Some wf →
        q_at_rest wf ∧ q_extends w wf
        ∧ isAuthorYearFilter (comp wf) = isAuthorYearFilter (comp w).

(** The worlds Query.jsx is in between two events when nothing overlaps
    and no effect has thrown. *)
Inductive q_serial : World State → Prop :=
| q_serial_mount net w :
    mount enough (initialWorld net) = Some w → q_serial w
| q_serial_react w ev w' :
    q_serial w → react enough ev w = Some w' → q_serial w'
| q_serial_network w net :
    q_serial w →
    q_serial (mkWorld (heap w) net (requests w) (console w) (comp w)).
End QueryJsxView.

(** *** Paging and editing in part_001 *)
Section PagingView.
Import Part001.

(** What a page of the catalog leaves in the state. *)
Definition paging (c : State) :=
  (results c, nextPageUrl c, prevPageUrl c, currentPage c).

(** What the user has entered. *)
Definition inputs (c : State) :=
  (searchTerm c, selectedSearchType c, sortOrder c, filterType c, filterValue c).

(** The events that edit an input of the form. *)
Definition edits (ev : Event) : bool :=
  match ev with
  | ChangeSearchTerm _ | ChangeSearchType _ | ChangeLanguage _
  | ChangeAuthorYear _ | ChangeSortOrder _ => true
  | _ => false
  end.

(** The URL that the page handlers request for [page]: the search when a
    search term is set, the listing otherwise. *)
Definition page_url (c : State) (page : Z) : string :=
  if negb (String.eqb (searchTerm c) "") then
    QueryJsx.searchUrl (searchTerm c) (selectedSearchType c) (sortOrder c) page
  else QueryJsx.listUrl (sortOrder c) page.

(** The page handlers will not be rejected: there is no search term, or
    the search type is an accepted one. *)
Definition can_page (c : State) : Prop :=
  searchTerm c = "" ∨ selectedSearchType c ∈ QueryJsx.validSearchTypes.

(** [w'] differs from [w] in what is derived only: the hooks
    [sortedResults], [filteredResults], [isLoading] and [message], arrays
    that were added and lines of the console.  No request was made, and
    the inputs, the page and the search trigger are as they were. *)
Definition derived_only (w w' : World State) : Prop :=
  requests w' = requests w
  ∧ network w' = network w
  ∧ (∃ k, heap w' = heap w ++ k)
  ∧ inputs (comp w') = inputs (comp w)
  ∧ paging (comp w') = paging (comp w)
  ∧ isAuthorYearFilter (comp w') = isAuthorYearFilter (comp w)
  ∧ searchTrigger (comp w') = searchTrigger (comp w).

(** The world a page request leaves: one more request, one more array
    [l] with the results of the page, the cursors [nx] and [pv] of the
    page, lines [log] on the console and the message [m]. *)
Definition fetched (url : string) (page : Z) (w : World State)
    (nx pv : option string) (l : list Book) (log : list string) (m : string)
    : World State :=
  mkWorld (heap w ++ [l]) (network w) (requests w ++ [url]) (console w ++ log)
    (with_message m (loaded (length (heap w)) nx pv page (comp w))).

(** The page is the one the catalog service sent, or the empty fallback
    when the request failed. *)
Definition page_of (w : World State) (url : string)
    (nx pv : option string) (l : list Book) : Prop :=
  match network w url with
  | Responded (Json d) => nx = d_next d ∧ pv = d_previous d ∧ l = d_results d
  | _ => nx = None ∧ pv = None ∧ l = []
  end.
End PagingView.

(** *** Pagination, as the specification words it

    Without a cursor the action does nothing; with one it runs the search,
    when a search term is set, or the listing, for [currentPage + step]. *)
Definition pages_by_cursor {S} (cursor : S → option string)
    (searchTerm selectedSearchType sortOrder : S → string) (currentPage : S → Z)
    (step : Z) (handlePage : S → M S unit)
    (handleSearch handleShowAllBooks : S → Z → M S unit)
    (s : S) (w : World S) : Prop :=
  (cursor s = None → handlePage s w = (Returned tt, w))
  ∧ (∀ u, cursor s = Some u → u ≠ "" →
       (searchTerm s ≠ "" →
          handlePage s w = handleSearch s (currentPage s + step) w
          ∧ (selectedSearchType s ∈ QueryJsx.validSearchTypes →
             requests (exec (handlePage s) w)
             = requests w
               ++ [QueryJsx.searchUrl (searchTerm s) (selectedSearchType s)
                     (sortOrder s) (currentPage s + step)]
             ∧ currentPage (comp (exec (handlePage s) w)) = currentPage s + step))
       ∧ (searchTerm s = "" →
          handlePage s w = handleShowAllBooks s (currentPage s + step) w
          ∧ requests (exec (handlePage s) w)
            = requests w ++ [QueryJsx.listUrl (sortOrder s) (currentPage s + step)]
          ∧ currentPage (comp (exec (handlePage s) w)) = currentPage s + step)).

(** *** Worlds of the examples *)

(** Some arrays, an unreachable catalog service, no component. *)
Definition shelf (arrays : list (list Book)) : World unit :=
  mkWorld arrays (λ _, Unreachable) [] [] tt.

(** One French book, less downloaded than the others. *)
Definition book_french : Book :=
  book 4 "Contes" [author "C" (Some 1700) (Some 1760)] ["fr"] 5.

(** A catalog service that answers every request with the same page. *)
Definition demo_catalog : string → Reply := λ _,
  Responded (Json {| d_count := 3;
                     d_next := Some "https://gutendex.com/books?page=2";
                     d_previous := None;
                     d_results := [book_1800_1850; book_anonymous; book_two_authors] |}).

(** part_001 mounted on that service; then a search term is typed and the
    most popular books are asked first. *)
Definition demo_mounted : World Part001.State :=
  Part001.mount (rt := demo_runtime) enough (Part001.initialWorld demo_catalog).

Definition demo_ready : World Part001.State :=
  Part001.react (rt := demo_runtime) enough
    (Part001.ChangeSortOrder "descending_popular")
    (Part001.react (rt := demo_runtime) enough
       (Part001.ChangeSearchTerm "poems") demo_mounted).


(** part_000 with three results, the language filter on English and the sort
    by popularity. *)
Definition demo_part000 : World Part000.State :=
  mkWorld [[book_1800_1850; book_french; book_two_authors]; []]
          (λ _, Unreachable) [] []
          (Part000.mkState "" 0%nat 1%nat "popularity" "language" "en" "title").

(** The record [b] with a release date. *)
Definition released (t : option Z) (b : Book) : Book :=
  {| id := id b; title := title b; authors := authors b;
     languages := languages b; subjects := subjects b;
     bookshelves := bookshelves b; download_count := download_count b;
     release_date := t |}.

(** part_000 sorting by date: a French book without a valid date between two
    English books, the later one first. *)
Definition demo_part000_dates : World Part000.State :=
  mkWorld [[released (Some 2) book_1800_1850; released None book_french;
            released (Some 1) book_two_authors]; []]
          (λ _, Unreachable) [] []
          (Part000.mkState "" 0%nat 1%nat "chronological" "language" "en" "title").

(** A record whose author is alive: no year of death. *)
Definition book_living : Book :=
  book 5 "Essays" [author "L" (Some 1950) None] ["en"] 40.

(** part_001 at rest as in [demo_ready], the catalog service out of reach. *)
Definition demo_offline : World Part001.State :=
  with_network (λ _, Unreachable) demo_ready.

(** A catalog service that answers every request with a page that has a
    cursor back and a cursor forward. *)
Definition demo_catalog_paged : string → Reply := λ _,
  Responded (Json {| d_count := 3;
                     d_next := Some "https://gutendex.com/books?page=3";
                     d_previous := Some "https://gutendex.com/books?page=1";
                     d_results := [book_french; book_living] |}).

Definition demo_paged : World Part001.State :=
  with_network demo_catalog_paged demo_ready.



(** A catalog service that answers every request with an empty page. *)
Definition demo_catalog_empty : string → Reply := λ _,
  Responded (Json {| d_count := 0; d_next := None; d_previous := None;
                     d_results := [] |}).

(** part_001 with two listings in flight.  The component mounts and the
    most popular books are asked first.  'Get all books' is clicked twice.
    The reply to the first click, a page of two books, is rendered; the
    reply to the second click, an empty page, arrives before the effects of
    that render run.  Then rendering goes on until nothing changes. *)
Definition overlap_steps : list Part001.Step :=
  [Part001.Effects; Part001.Complete 0; Part001.Render; Part001.Effects;
   Part001.Do (Part001.ChangeSortOrder "descending_popular");
   Part001.Render; Part001.Effects; Part001.Render; Part001.Effects;
   Part001.Render; Part001.Effects;
   Part001.Do Part001.GetAllBooks; Part001.Do Part001.GetAllBooks;
   Part001.Network demo_catalog_paged; Part001.Complete 0; Part001.Render;
   Part001.Network demo_catalog_empty; Part001.Complete 0; Part001.Effects;
   Part001.Render; Part001.Effects; Part001.Render; Part001.Effects].

Definition overlapped : option Part001.System :=
  Part001.run (rt := demo_runtime) overlap_steps
    (Part001.initialSystem demo_catalog).

(** Query.jsx mounted on the service with the page of two books: all books
    are listed, the filter type is set to the language, then the language to
    English.  Had an effect thrown, the world would be the one before. *)
Definition demo_q_mounted : World QueryJsx.State :=
  default (QueryJsx.initialWorld demo_catalog_paged)
    (QueryJsx.mount (rt := demo_runtime) enough
       (QueryJsx.initialWorld demo_catalog_paged)).

Definition demo_q_listed : World QueryJsx.State :=
  default demo_q_mounted
    (QueryJsx.react (rt := demo_runtime) enough QueryJsx.ClickShowAllBooks
       demo_q_mounted).

Definition demo_q_language : World QueryJsx.State :=
  default demo_q_listed
    (QueryJsx.react (rt := demo_runtime) enough
       (QueryJsx.ChangeFilterType "language") demo_q_listed).

Definition demo_q_english : World QueryJsx.State :=
  default demo_q_language
    (QueryJsx.react (rt := demo_runtime) enough (QueryJsx.ChangeLanguage "en")
       demo_q_language).

(** Query.jsx with the three books of [demo_catalog] listed, one of them
    without author, and the filter type set to the year. *)
Definition demo_q_shelf : World QueryJsx.State :=
  default (QueryJsx.initialWorld demo_catalog)
    (QueryJsx.mount (rt := demo_runtime) enough
       (QueryJsx.initialWorld demo_catalog)).

Definition demo_q_shelf_listed : World QueryJsx.State :=
  default demo_q_shelf
    (QueryJsx.react (rt := demo_runtime) enough QueryJsx.ClickShowAllBooks
       demo_q_shelf).

Definition demo_q_years : World QueryJsx.State :=
  default demo_q_shelf_listed
    (QueryJsx.react (rt := demo_runtime) enough
       (QueryJsx.ChangeFilterType "author_year") demo_q_shelf_listed).

(** Query.jsx on the second page of a search, with a cursor back and none
    forward. *)
Definition demo_queryjsx : World QueryJsx.State :=
  mkWorld [[]; []; []] demo_catalog [] []
    (QueryJsx.mkState "poems" 0%nat 1%nat 2%nat "descending_popular" "" ""
       "default" false None (Some "https://gutendex.com/books?page=1") 2).

(** * Properties *)

(** ** The monad *)

Ltac run :=
  repeat (progress
    (cbv beta delta [bind ret throw try_catch exec eval console_error
                     new_array read_array write_array fetch json get_state
                     set_state slice array_sort array_filter];
     cbn [fst snd heap network requests console comp])).

(** ** CatalogClient *)

Section CatalogClient.
Context {rt : Runtime} {Σ : Type}.
Implicit Types w : World Σ.

Lemma fetchPage_total w url :
  ∃ p, eval (QueryJsx.fetchPage url) w = Returned p.
Proof.
  unfold QueryJsx.fetchPage. run.
  destruct (network w url) as [|[|d]]; run; eauto.
Qed.

Lemma fetchPage_requests w url :
  requests (exec (QueryJsx.fetchPage url) w) = requests w ++ [url].
Proof.
  unfold QueryJsx.fetchPage. run.
  destruct (network w url) as [|[|d]]; run; reflexivity.
Qed.

Lemma fetchPage_fallback w url :
  fails w url →
  ∃ r, eval (QueryJsx.fetchPage url) w = Returned (Page.mk 0 None None r)
       ∧ elements (heap (exec (QueryJsx.fetchPage url) w)) r = [].
Proof.
  unfold QueryJsx.fetchPage.
  intros [H|H]; run; rewrite H; run;
    (eexists; split; [reflexivity|]);
    unfold elements; by rewrite lookup_app_r, Nat.sub_diag.
Qed.
End CatalogClient.

Section CatalogClientClaims.
Context {rt : Runtime} {Σ : Type}.
Implicit Types w : World Σ.

Lemma includes_true (l : list string) v : includes l v = true ↔ v ∈ l.
Proof. unfold includes. by rewrite bool_decide_eq_true. Qed.

Lemma includes_false (l : list string) v : includes l v = false ↔ v ∉ l.
Proof. unfold includes. by rewrite bool_decide_eq_false. Qed.

Lemma searchBooks_valid w query searchType sortOrder page :
  searchType ∈ QueryJsx.validSearchTypes →
  QueryJsx.searchBooks query searchType sortOrder page w
  = QueryJsx.fetchPage (QueryJsx.searchUrl query searchType sortOrder page) w.
Proof.
  intros H. unfold QueryJsx.searchBooks.
  apply includes_true in H. by rewrite H.
Qed.

Lemma part000_chain_total w url (msg : string) :
  ∃ r, eval (try_catch (response <- fetch url ;;
                        data <- json response ;;
                        ret (Page.results data))
               (λ _, console_error msg ;; new_array [])) w = Returned r.
Proof. run. destruct (network w url) as [|[|d]]; run; eauto. Qed.

Lemma part000_chain_fallback w url (msg : string) :
  fails w url →
  ∃ r, eval (try_catch (response <- fetch url ;;
                        data <- json response ;;
                        ret (Page.results data))
               (λ _, console_error msg ;; new_array [])) w = Returned r
       ∧ elements (heap (exec (try_catch (response <- fetch url ;;
                        data <- json response ;;
                        ret (Page.results data))
               (λ _, console_error msg ;; new_array [])) w)) r = [].
Proof.
  intros [H|H]; run; rewrite H; run;
    (eexists; split; [reflexivity|]);
    unfold elements; by rewrite lookup_app_r, Nat.sub_diag.
Qed.

(** C4: a listing, and a search with a valid search type, never reject;
    when the transport fails or the body does not decode they resolve to
    the page [{count: 0, next: null, previous: null, results: []}].  The
    first iteration (part_000) resolves to the results array alone, and to
    an empty one on failure. *)
Theorem failure_yields_empty_page w query searchType sortOrder page :
  (∃ p, eval (QueryJsx.getBookList sortOrder page) w = Returned p)
  ∧ (fails w (QueryJsx.listUrl sortOrder page) →
     ∃ r, eval (QueryJsx.getBookList sortOrder page) w
          = Returned (Page.mk 0 None None r)
          ∧ elements (heap (exec (QueryJsx.getBookList sortOrder page) w)) r = [])
  ∧ (searchType ∈ QueryJsx.validSearchTypes →
     (∃ p, eval (QueryJsx.searchBooks query searchType sortOrder page) w = Returned p)
     ∧ (fails w (QueryJsx.searchUrl query searchType sortOrder page) →
        ∃ r, eval (QueryJsx.searchBooks query searchType sortOrder page) w
             = Returned (Page.mk 0 None None r)
             ∧ elements
                 (heap (exec (QueryJsx.searchBooks query searchType sortOrder page) w))
                 r = []))
  ∧ (∃ r, eval (Part000.getBookList sortOrder) w = Returned r)
  ∧ (fails w (Part000.listUrl sortOrder) →
     ∃ r, eval (Part000.getBookList sortOrder) w = Returned r
          ∧ elements (heap (exec (Part000.getBookList sortOrder) w)) r = [])
  ∧ (searchType ∈ Part000.validSearchTypes →
     (∃ r, eval (Part000.searchBooks query searchType sortOrder) w = Returned r)
     ∧ (fails w (Part000.searchUrl query sortOrder) →
        ∃ r, eval (Part000.searchBooks query searchType sortOrder) w = Returned r
             ∧ elements
                 (heap (exec (Part000.searchBooks query searchType sortOrder) w))
                 r = [])).
Proof.
  split; [apply fetchPage_total|].
  split; [apply fetchPage_fallback|].
  split.
  { intros Hv. unfold eval, exec. rewrite (searchBooks_valid _ _ _ _ _ Hv).
    split; [apply fetchPage_total | apply fetchPage_fallback]. }
  split; [apply part000_chain_total|].
  split; [apply part000_chain_fallback|].
  intros Hv. apply includes_true in Hv.
  unfold Part000.searchBooks. rewrite Hv. cbn [negb].
  split; [apply part000_chain_total | apply part000_chain_fallback].
Qed.

(** C5: a search type outside the accepted ones is rejected with the reason
    ['Invalid search type.']; the only effect is the line on the console, so
    nothing is requested.  An accepted search type passes the validation:
    the request is issued. *)
Theorem invalid_search_type_rejected w query searchType sortOrder page :
  (searchType ∉ QueryJsx.validSearchTypes →
   QueryJsx.searchBooks query searchType sortOrder page w
   = (Thrown (Reason "Invalid search type."),
      exec (console_error "Invalid search type.") w)
   ∧ requests (exec (QueryJsx.searchBooks query searchType sortOrder page) w)
     = requests w)
  ∧ (searchType ∈ QueryJsx.validSearchTypes →
     requests (exec (QueryJsx.searchBooks query searchType sortOrder page) w)
     = requests w ++ [QueryJsx.searchUrl query searchType sortOrder page])
  ∧ (searchType ∉ Part000.validSearchTypes →
     Part000.searchBooks query searchType sortOrder w
     = (Thrown (Reason "Invalid search type."),
        exec (console_error "Invalid search type.") w)
     ∧ requests (exec (Part000.searchBooks query searchType sortOrder) w)
       = requests w)
  ∧ (searchType ∈ Part000.validSearchTypes →
     requests (exec (Part000.searchBooks query searchType sortOrder) w)
     = requests w ++ [Part000.searchUrl query sortOrder]).
Proof.
  split.
  { intros H. apply includes_false in H.
    unfold QueryJsx.searchBooks. rewrite H. cbn [negb]. by run. }
  split.
  { intros H. unfold exec. rewrite (searchBooks_valid _ _ _ _ _ H).
    apply fetchPage_requests. }
  split.
  { intros H. apply includes_false in H.
    unfold Part000.searchBooks. rewrite H. cbn [negb]. by run. }
  intros H. apply includes_true in H.
  unfold Part000.searchBooks. rewrite H. cbn [negb]. run.
  destruct (network w _) as [|[|d]]; run; reflexivity.
Qed.
End CatalogClientClaims.

(** ** Percent-encoding *)

Lemma percent_decode_unreserved c s :
  unreserved c = true → percent_decode (String c s) = String c (percent_decode s).
Proof.
  intros H. destruct s as [|h [|l rest]]; try reflexivity.
  cbn [percent_decode].
  destruct (Ascii.eqb c "%") eqn:E; [|reflexivity].
  apply Ascii.eqb_eq in E. subst c. discriminate H.
Qed.

Lemma percent_decode_percent c s :
  percent_decode (percent c s) = String c (percent_decode s).
Proof.
  destruct c as [[] [] [] [] [] [] [] []]; reflexivity.
Qed.

Lemma encodeURIComponent_decode s :
  percent_decode (encodeURIComponent s) = s.
Proof.
  induction s as [|c s IH]; [reflexivity|].
  cbn [encodeURIComponent]. destruct (unreserved c) eqn:E.
  - rewrite (percent_decode_unreserved _ _ E). by rewrite IH.
  - rewrite percent_decode_percent. by rewrite IH.
Qed.

Lemma percent_escaped c s :
  string_forallb escaped_char s = true →
  string_forallb escaped_char (percent c s) = true.
Proof.
  intros H. destruct c as [[] [] [] [] [] [] [] []]; exact H.
Qed.

Lemma encodeURIComponent_escaped s :
  string_forallb escaped_char (encodeURIComponent s) = true.
Proof.
  induction s as [|c s IH]; [reflexivity|].
  cbn [encodeURIComponent]. destruct (unreserved c) eqn:E.
  - cbn [string_forallb]. unfold escaped_char at 1. by rewrite E, IH.
  - by apply percent_escaped.
Qed.

Section SearchUrl.
Context {rt : Runtime} {Σ : Type}.
Implicit Types w : World Σ.

(** In Query.jsx and part_001 the query parameter of the request is [topic]
    for the search type ['topic'] and [search] for the other accepted one;
    the query is percent-encoded, so it can be read back and contains no
    reserved character. *)
Lemma search_url_parameter w query searchType sortOrder page :
  searchType ∈ QueryJsx.validSearchTypes →
  requests (exec (QueryJsx.searchBooks query searchType sortOrder page) w)
  = requests w
    ++ [QueryJsx.API_BASE_URL +:+ "/books?"
        +:+ (if String.eqb searchType "topic" then "topic" else "search")
        +:+ "=" +:+ encodeURIComponent query
        +:+ "&sort=" +:+ sortOrder +:+ "&page=" +:+ pretty page]
  ∧ percent_decode (encodeURIComponent query) = query
  ∧ string_forallb escaped_char (encodeURIComponent query) = true.
Proof.
  intros H. split; [|split].
  - unfold exec. rewrite (searchBooks_valid _ _ _ _ _ H).
    etrans; [apply fetchPage_requests|]. unfold QueryJsx.searchUrl.
    by destruct (String.eqb searchType "topic").
  - apply encodeURIComponent_decode.
  - apply encodeURIComponent_escaped.
Qed.
End SearchUrl.

(** C6: in part_000 the accepted search type ['topic'] is sent under the
    parameter [search]; Query.jsx and part_001 send it under [topic]. *)
Theorem part000_topic_sent_as_search :
  "topic" ∈ Part000.validSearchTypes
  ∧ requests (exec (Part000.searchBooks
                      "fairy tales" "topic" "popular")
                (blank (λ _, Unreachable) tt))
    = ["https://www.gutendex.com/books?search=fairy%20tales&sort=popular"]
  ∧ requests (exec (QueryJsx.searchBooks
                      "fairy tales" "topic" "popular" 1)
                (blank (λ _, Unreachable) tt))
    = ["https://gutendex.com/books?topic=fairy%20tales&sort=popular&page=1"].
Proof.
  split; [by apply includes_true|]. split; reflexivity.
Qed.

(** ** The stable sort *)

Section SortFacts.
Context {A : Type} (cmp : A → A → Z).

Lemma insert_sorted_perm x l : insert_sorted cmp x l ≡ₚ x :: l.
Proof.
  induction l as [|y l IH]; cbn [insert_sorted]; [done|].
  destruct (0 <? cmp x y); [|done].
  rewrite IH. apply Permutation_swap.
Qed.

Lemma sort_by_perm l : sort_by cmp l ≡ₚ l.
Proof.
  induction l as [|x l IH]; [done|].
  cbn [sort_by foldr]. fold (sort_by cmp l).
  by rewrite insert_sorted_perm, IH.
Qed.

Lemma sort_by_length l : length (sort_by cmp l) = length l.
Proof. by rewrite sort_by_perm. Qed.

(** On a list that is already in order nothing moves. *)
Lemma insert_sorted_head x l :
  Forall (λ y, cmp x y <= 0) l → insert_sorted cmp x l = x :: l.
Proof.
  intros H. destruct l as [|y l]; [done|].
  cbn [insert_sorted]. inversion_clear H as [|? ? Hy _].
  destruct (Z.ltb_spec 0 (cmp x y)); [lia|done].
Qed.

Lemma sort_by_ordered_id l : ordered cmp l → sort_by cmp l = l.
Proof.
  induction 1 as [|x l Hl IH Hx]; [done|].
  cbn [sort_by foldr]. fold (sort_by cmp l).
  rewrite IH. by apply insert_sorted_head.
Qed.

Context (Hc : consistent cmp).

Lemma cmp_after_before x y : 0 < cmp x y → cmp y x <= 0.
Proof. intros H. pose proof (cmp_flip _ Hc x y). lia. Qed.

Lemma cmp_tie_sym x y : cmp x y = 0 → cmp y x = 0.
Proof. intros H. pose proof (cmp_flip _ Hc x y). lia. Qed.

Lemma insert_sorted_ordered x l :
  ordered cmp l → ordered cmp (insert_sorted cmp x l).
Proof.
  induction 1 as [|y l Hl IH Hy]; cbn [insert_sorted].
  - repeat constructor.
  - destruct (Z.ltb_spec 0 (cmp x y)) as [Hlt|Hle].
    + constructor; [done|].
      rewrite insert_sorted_perm. constructor; [|done].
      by apply cmp_after_before.
    + constructor; [by constructor|].
      constructor; [done|].
      eapply Forall_impl; [exact Hy|].
      intros z Hz. cbn beta in Hz. by eapply (cmp_trans _ Hc).
Qed.

Lemma sort_by_ordered l : ordered cmp (sort_by cmp l).
Proof.
  induction l as [|x l IH]; [constructor|].
  cbn [sort_by foldr]. by apply insert_sorted_ordered.
Qed.

(** Filtering commutes with the insertion into an ordered list. *)
Lemma filter_insert_sorted (p : A → bool) x l :
  ordered cmp l →
  filter p (insert_sorted cmp x l)
  = if p x then insert_sorted cmp x (filter p l) else filter p l.
Proof.
  induction 1 as [|y l Hl IH Hy]; cbn [insert_sorted].
  - rewrite filter_cons, filter_nil. by destruct (p x).
  - destruct (Z.ltb_spec 0 (cmp x y)) as [Hlt|Hle].
    + rewrite !(filter_cons _ y), IH.
      destruct (decide (p y)) as [Hp|Hp]; [|done].
      destruct (p x); [|done].
      cbn [insert_sorted]. by destruct (Z.ltb_spec 0 (cmp x y)); [|lia].
    + rewrite (filter_cons _ x).
      destruct (decide (p x)) as [Hp|Hp].
      * apply Is_true_true in Hp. rewrite Hp.
        symmetry. apply insert_sorted_head.
        apply Forall_forall. intros z Hz.
        apply list_elem_of_filter in Hz as [_ Hz].
        apply elem_of_cons in Hz as [->|Hz]; [done|].
        rewrite Forall_forall in Hy.
        eapply (cmp_trans _ Hc); [exact Hle|]. by apply Hy.
      * apply Is_true_false in Hp. by rewrite Hp.
Qed.

Lemma filter_sort_by (p : A → bool) l :
  filter p (sort_by cmp l) = sort_by cmp (filter p l).
Proof.
  induction l as [|x l IH]; [done|].
  cbn [sort_by foldr]. fold (sort_by cmp l).
  rewrite filter_insert_sorted by apply sort_by_ordered.
  rewrite filter_cons, IH.
  destruct (decide (p x)) as [Hp|Hp].
  - apply Is_true_true in Hp. by rewrite Hp.
  - apply Is_true_false in Hp. by rewrite Hp.
Qed.

(** Stability: the elements that tie with [a] keep their order. *)
Lemma sort_by_stable a l :
  filter (λ x, bool_decide (cmp a x = 0)) (sort_by cmp l)
  = filter (λ x, bool_decide (cmp a x = 0)) l.
Proof.
  rewrite filter_sort_by. apply sort_by_ordered_id.
  induction l as [|x l IH]; [constructor|].
  rewrite filter_cons. destruct (decide _) as [Hx|Hx]; [|done].
  apply Is_true_true, bool_decide_eq_true in Hx.
  constructor; [done|].
  apply Forall_forall. intros y Hy.
  apply list_elem_of_filter in Hy as [Hy _].
  apply Is_true_true, bool_decide_eq_true in Hy.
  apply (cmp_trans _ Hc _ a); [|lia].
  apply cmp_tie_sym in Hx. lia.
Qed.
End SortFacts.

Section Comparators.
Context {A B : Type}.

Lemma consistent_key (cmp : B → B → Z) (f : A → B) :
  consistent cmp → consistent (λ a b, cmp (f a) (f b)).
Proof. intros [H1 H2]. split; intros; eauto. Qed.

Lemma consistent_swap (cmp : A → A → Z) :
  consistent cmp → consistent (λ a b, cmp b a).
Proof.
  intros [H1 H2]. split.
  - intros x y. apply H1.
  - intros x y z Hxy Hyz. by apply (H2 z y x).
Qed.

Lemma consistent_constant : consistent (λ _ _ : A, 0).
Proof. split; intros; lia. Qed.
End Comparators.

Lemma consistent_difference : consistent (λ a b : Z, a - b).
Proof. split; intros; lia. Qed.

Lemma consistent_popularity :
  consistent (λ a b : Book, download_count b - download_count a).
Proof.
  apply consistent_swap, (consistent_key _ download_count), consistent_difference.
Qed.

(** ** Arrays in the heap *)

Section HeapFacts.
Context {Σ : Type}.
Implicit Types (w : World Σ) (h : list (list Book)).

Lemma elements_alloc h l : elements (h ++ [l]) (length h) = l.
Proof. unfold elements. by rewrite lookup_app_r, Nat.sub_diag. Qed.

Lemma elements_alloc_old h l r :
  (r < length h)%nat → elements (h ++ [l]) r = elements h r.
Proof. intros H. unfold elements. by rewrite lookup_app_l. Qed.

Lemma overwrite_last h l l' : <[length h:=l']> (h ++ [l]) = h ++ [l'].
Proof.
  replace (length h) with (length h + 0)%nat by lia.
  by rewrite insert_app_r.
Qed.

(** [books.slice().sort(cmp)] allocates the sorted copy and touches nothing
    else. *)
Lemma sorted_copy w books cmp :
  (copy <- slice books ;; array_sort copy cmp) w
  = (Returned (length (heap w)),
     mkWorld (heap w ++ [sort_by cmp (elements (heap w) books)])
             (network w) (requests w) (console w) (comp w)).
Proof. run. by rewrite elements_alloc, overwrite_last. Qed.

Lemma filter_with_pure (f : Book → M Σ bool) (p : Book → bool) l w :
  (∀ b w', b ∈ l → f b w' = (Returned (p b), w')) →
  filter_with f l w = (Returned (filter p l), w).
Proof.
  intros Hf. induction l as [|b l IH]; [done|].
  cbn [filter_with]. unfold bind.
  rewrite Hf by apply list_elem_of_here.
  rewrite IH by (intros; apply Hf; by apply list_elem_of_further).
  rewrite filter_cons. by destruct (p b).
Qed.

(** [books.filter(b => p(b))] with a callback that cannot throw. *)
Lemma array_filter_pure w books (p : Book → bool) :
  array_filter books (λ b, ret (p b)) w
  = (Returned (length (heap w)),
     mkWorld (heap w ++ [filter p (elements (heap w) books)])
             (network w) (requests w) (console w) (comp w)).
Proof.
  unfold array_filter, bind at 1, read_array.
  unfold bind. by rewrite (filter_with_pure _ p).
Qed.

Lemma array_filter_returns w books (f : Book → M Σ bool) (p : Book → bool) :
  (∀ b w', b ∈ elements (heap w) books → f b w' = (Returned (p b), w')) →
  array_filter books f w
  = (Returned (length (heap w)),
     mkWorld (heap w ++ [filter p (elements (heap w) books)])
             (network w) (requests w) (console w) (comp w)).
Proof.
  intros Hf. unfold array_filter, bind at 1, read_array.
  unfold bind. by rewrite (filter_with_pure _ p).
Qed.
End HeapFacts.

(** ** ResultTransformer: sorting *)

Lemma StronglySorted_weaken {A} (R R' : A → A → Prop) l :
  (∀ a b, R a b → R' a b) → StronglySorted R l → StronglySorted R' l.
Proof.
  intros HR. induction 1 as [|x l Hl IH Hx]; constructor; [done|].
  eapply Forall_impl; [exact Hx|]. intros y. apply HR.
Qed.

Section SortBooks.
Context {rt : Runtime} {Σ : Type}.
Implicit Types w : World Σ.

(** What [sortBooks] does for a supported order, in one equation. *)
Lemma sortBooks_supported w books sortOrder :
  consistent localeCompare →
  sortOrder ∈ supportedSortOrders →
  ∃ cmp, consistent cmp
    ∧ (∀ a b, cmp a b <= 0 ↔ in_order sortOrder a b)
    ∧ (∀ a b, cmp a b = 0 ↔ same_rank sortOrder a b)
    ∧ QueryJsx.sortBooks books sortOrder w
      = (Returned (length (heap w)),
         mkWorld (heap w ++ [sort_by cmp (elements (heap w) books)])
                 (network w) (requests w) (console w) (comp w)).
Proof.
  intros Hc H. unfold supportedSortOrders in H.
  repeat (apply elem_of_cons in H as [->|H]); [| | | |by apply elem_of_nil in H].
  - exists (λ a b, download_count a - download_count b). split; [|split; [|split]].
    + apply (consistent_key _ download_count), consistent_difference.
    + intros a b. unfold in_order. cbn. lia.
    + intros a b. unfold same_rank. cbn. rewrite bool_decide_spec. lia.
    + apply sorted_copy.
  - exists (λ a b, download_count b - download_count a). split; [|split; [|split]].
    + apply consistent_popularity.
    + intros a b. unfold in_order. cbn. lia.
    + intros a b. unfold same_rank. cbn. rewrite bool_decide_spec. lia.
    + apply sorted_copy.
  - exists (λ a b, localeCompare (title a) (title b)). split; [|split; [|split]].
    + by apply (consistent_key _ title).
    + intros a b. unfold in_order. by cbn.
    + intros a b. unfold same_rank. cbn. by rewrite bool_decide_spec.
    + apply sorted_copy.
  - exists (λ a b, localeCompare (title b) (title a)). split; [|split; [|split]].
    + by apply consistent_swap, (consistent_key _ title).
    + intros a b. unfold in_order. by cbn.
    + intros a b. unfold same_rank. cbn. rewrite bool_decide_spec.
      split; apply (cmp_tie_sym _ Hc).
    + apply sorted_copy.
Qed.

(** The comparator of part_000 is consistent for every sort type but
    ['chronological'], where an invalid date ties with every date. *)
Lemma compareBooks_consistent sortType :
  consistent localeCompare →
  sortType ≠ "chronological" →
  consistent (Part000.compareBooks sortType).
Proof.
  intros Hc Hs. unfold Part000.compareBooks.
  destruct (String.eqb sortType "alphabetical");
    [by apply (consistent_key _ title)|].
  destruct (String.eqb sortType "reverse_alphabetical");
    [by apply consistent_swap, (consistent_key _ title)|].
  destruct (String.eqb_spec sortType "chronological"); [done|].
  destruct (String.eqb sortType "popularity");
    [apply consistent_popularity | apply consistent_constant].
Qed.

(** C7: for each supported sort order [sortBooks] returns an array that did
    not exist before, leaves every existing array (its argument among them)
    as it was, and the new array holds the records of the argument in the
    order asked for, records of equal rank in their input order.  In
    part_000 the same holds for every non-empty sort type but
    ['chronological'], ties being those of its comparator. *)
Theorem sortBooks_new_array_stable w books sortOrder :
  consistent localeCompare →
  is_Some (heap w !! books) →
  (sortOrder ∈ supportedSortOrders →
   ∃ sorted,
     eval (QueryJsx.sortBooks books sortOrder) w = Returned sorted
     ∧ sorted ≠ books
     ∧ heap w !! sorted = None
     ∧ (∀ r l, heap w !! r = Some l →
               heap (exec (QueryJsx.sortBooks books sortOrder) w) !! r = Some l)
     ∧ elements (heap (exec (QueryJsx.sortBooks books sortOrder) w)) sorted
       ≡ₚ elements (heap w) books
     ∧ StronglySorted (in_order sortOrder)
         (elements (heap (exec (QueryJsx.sortBooks books sortOrder) w)) sorted)
     ∧ ∀ a, filter (same_rank sortOrder a)
              (elements (heap (exec (QueryJsx.sortBooks books sortOrder) w)) sorted)
            = filter (same_rank sortOrder a) (elements (heap w) books))
  ∧ (sortOrder ≠ "" → sortOrder ≠ "chronological" →
     ∃ sorted,
       eval (Part000.sortBooks books sortOrder) w = Returned sorted
       ∧ sorted ≠ books
       ∧ heap w !! sorted = None
       ∧ (∀ r l, heap w !! r = Some l →
                 heap (exec (Part000.sortBooks books sortOrder) w) !! r = Some l)
       ∧ elements (heap (exec (Part000.sortBooks books sortOrder) w)) sorted
         ≡ₚ elements (heap w) books
       ∧ ∀ a, filter (λ x, Part000.compareBooks sortOrder a x = 0)
                (elements (heap (exec (Part000.sortBooks books sortOrder) w)) sorted)
              = filter (λ x, Part000.compareBooks sortOrder a x = 0)
                  (elements (heap w) books)).
Proof.
  intros Hc Hb. split.
  - intros Hs.
    destruct (sortBooks_supported w books sortOrder Hc Hs)
      as (cmp & Hcmp & Hord & Htie & Heq).
    unfold eval, exec. rewrite Heq. cbn [fst snd heap].
    exists (length (heap w)).
    split; [done|]. split.
    { apply lookup_lt_is_Some in Hb. lia. }
    split; [by apply lookup_ge_None|]. split.
    { intros r l Hr. rewrite lookup_app_l; [done|]. by eapply lookup_lt_Some. }
    rewrite elements_alloc. split; [apply sort_by_perm|]. split.
    { eapply StronglySorted_weaken; [|apply (sort_by_ordered cmp Hcmp)].
      intros a b. cbn beta. apply Hord. }
    intros a.
    assert (Hf : ∀ l : list Book,
               filter (same_rank sortOrder a) l
               = filter (λ x, bool_decide (cmp a x = 0)) l).
    { intros l. apply list_filter_iff. intros x.
      rewrite bool_decide_spec. symmetry. apply Htie. }
    rewrite !Hf. by apply sort_by_stable.
  - intros Hne Hchr.
    unfold Part000.sortBooks, falsy. rewrite bool_decide_eq_false_2 by done.
    unfold eval, exec. rewrite sorted_copy. cbn [fst snd heap].
    exists (length (heap w)).
    split; [done|]. split.
    { apply lookup_lt_is_Some in Hb. lia. }
    split; [by apply lookup_ge_None|]. split.
    { intros r l Hr. rewrite lookup_app_l; [done|]. by eapply lookup_lt_Some. }
    rewrite elements_alloc. split; [apply sort_by_perm|].
    intros a.
    assert (Hf : ∀ l : list Book,
               filter (λ x, Part000.compareBooks sortOrder a x = 0) l
               = filter (λ x, bool_decide (Part000.compareBooks sortOrder a x = 0)) l).
    { intros l. apply list_filter_iff. intros x. by rewrite bool_decide_spec. }
    rewrite !Hf. apply sort_by_stable. by apply compareBooks_consistent.
Qed.
End SortBooks.

Lemma string_compare_trans a b c :
  String.compare a b ≠ Gt → String.compare b c ≠ Gt → String.compare a c ≠ Gt.
Proof.
  revert b c. induction a as [|x a IH]; intros [|y b] [|z c]; cbn; try done.
  unfold Ascii.compare.
  destruct (N.compare_spec (N_of_ascii x) (N_of_ascii y)) as [Hxy|Hxy|Hxy];
    destruct (N.compare_spec (N_of_ascii y) (N_of_ascii z)) as [Hyz|Hyz|Hyz];
    try done;
    destruct (N.compare_spec (N_of_ascii x) (N_of_ascii z)) as [Hxz|Hxz|Hxz];
    try done; try lia; eauto.
Qed.

(** The runtime of the examples collates consistently. *)
Lemma demo_localeCompare_consistent : consistent demo_localeCompare.
Proof.
  split.
  - intros x y. unfold demo_localeCompare.
    rewrite (String.compare_antisym y x).
    by destruct (String.compare x y).
  - intros x y z. unfold demo_localeCompare.
    pose proof (string_compare_trans x y z).
    destruct (String.compare x y), (String.compare y z), (String.compare x z);
      try lia; intros _ _; exfalso; by apply H.
Qed.

(** ** ResultTransformer: filtering *)

Lemma Qle_bool_inject_Z a b : Qle_bool (inject_Z a) (inject_Z b) = (a <=? b).
Proof. unfold Qle_bool, inject_Z. cbn. by rewrite !Z.mul_1_r. Qed.

Lemma js_le_years a b : js_le (Number_of_Z a) (Number_of_Z b) = (a <=? b).
Proof. apply Qle_bool_inject_Z. Qed.

Lemma present_years (l : list (option Z)) :
  map year_number (filter (λ year, year ≠ None) l)
  = map Number_of_Z (omap (λ y, y) l).
Proof.
  induction l as [|[y|] l IH]; [done| |].
  - rewrite filter_cons_True by done. cbn. by rewrite IH.
  - rewrite filter_cons_False by (intros H; by apply H). done.
Qed.

Lemma omap_map_id {A B} (f : A → option B) (l : list A) :
  omap (λ y, y) (map f l) = omap f l.
Proof. induction l as [|x l IH]; [done|]. cbn. by rewrite IH. Qed.

Lemma foldr_min_swap l x y :
  Z.min y (foldr Z.min x l) = Z.min x (foldr Z.min y l).
Proof.
  induction l as [|z l IH]; cbn [foldr]; [lia|].
  pose proof IH. lia.
Qed.

Lemma foldr_max_swap l x y :
  Z.max y (foldr Z.max x l) = Z.max x (foldr Z.max y l).
Proof.
  induction l as [|z l IH]; cbn [foldr]; [lia|].
  pose proof IH. lia.
Qed.

Lemma Math_min_years x l :
  Math_min (map Number_of_Z (x :: l)) = Number_of_Z (foldr Z.min x l).
Proof.
  revert x. induction l as [|y l IH]; intros x; [done|].
  change (Math_min (map Number_of_Z (x :: y :: l)))
    with (js_min (Number_of_Z x) (Math_min (map Number_of_Z (y :: l)))).
  rewrite IH. cbn [foldr]. rewrite foldr_min_swap.
  unfold js_min. cbn [Number_of_Z]. fold (Number_of_Z x).
  fold (Number_of_Z (foldr Z.min y l)). rewrite js_le_years.
  destruct (Z.leb_spec x (foldr Z.min y l)); f_equal; lia.
Qed.

Lemma Math_max_years x l :
  Math_max (map Number_of_Z (x :: l)) = Number_of_Z (foldr Z.max x l).
Proof.
  revert x. induction l as [|y l IH]; intros x; [done|].
  change (Math_max (map Number_of_Z (x :: y :: l)))
    with (js_max (Number_of_Z x) (Math_max (map Number_of_Z (y :: l)))).
  rewrite IH. cbn [foldr]. rewrite foldr_max_swap.
  unfold js_max. cbn [Number_of_Z]. fold (Number_of_Z x).
  fold (Number_of_Z (foldr Z.max y l)). rewrite js_le_years.
  destruct (Z.leb_spec x (foldr Z.max y l)); f_equal; lia.
Qed.

Lemma falsy_nonempty s : s ≠ "" → falsy s = false.
Proof. intros H. unfold falsy. by rewrite bool_decide_eq_false_2. Qed.

Lemma falsy_empty : falsy "" = true.
Proof. reflexivity. Qed.

Section FilterBooks.
Context {rt : Runtime} {Σ : Type}.
Implicit Types w : World Σ.

(** The callback of part_001 computes the test of the specification. *)
Lemma authorYearCallback_spec filterValue b :
  Part001.authorYearCallback filterValue b
  = in_author_years (ToNumber filterValue) b.
Proof.
  unfold Part001.authorYearCallback, in_author_years,
    min_birth_year, max_death_year.
  rewrite !present_years, !omap_map_id. cbn [andb].
  destruct (omap birth_year (default [] (authors b))) as [|x bs];
    destruct (omap death_year (default [] (authors b))) as [|y ds];
    cbn [least greatest];
    rewrite ?Math_min_years, ?Math_max_years.
  - destruct (ToNumber filterValue); reflexivity.
  - cbn [map Math_min foldr].
    unfold Number_of_Z. destruct (ToNumber filterValue); reflexivity.
  - cbn [map Math_max foldr].
    unfold Number_of_Z.
    destruct (ToNumber filterValue); cbn [js_le];
      rewrite ?andb_false_r; reflexivity.
  - unfold Number_of_Z, within. destruct (ToNumber filterValue); reflexivity.
Qed.

Lemma no_author_year_excluded year b :
  no_author_year b → in_author_years year b = false.
Proof.
  unfold no_author_year, in_author_years, min_birth_year.
  intros H.
  assert (omap birth_year (default [] (authors b)) = []) as ->; [|done].
  induction H as [|a l [Ha _] _ IH]; [done|].
  cbn. by rewrite Ha.
Qed.

(** C1, as amended: for a non-empty filter value, the [author_year] filter
    of part_001 returns a new array with exactly the records whose interval
    from the least birth year to the greatest death year (over the years
    that are present) contains the value; a record without author, or
    whose authors have no year, is not in it. *)
Theorem author_year_filter_in_range w books filterValue :
  filterValue ≠ "" →
  Part001.filterBooks books "author_year" filterValue w
  = (Returned (length (heap w)),
     mkWorld (heap w ++ [filter (in_author_years (ToNumber filterValue))
                                (elements (heap w) books)])
             (network w) (requests w) (console w) (comp w))
  ∧ ∀ b, no_author_year b →
         b ∉ filter (in_author_years (ToNumber filterValue))
                    (elements (heap w) books).
Proof.
  intros Hv. split.
  - unfold Part001.filterBooks.
    rewrite !falsy_nonempty by done.
    change (String.eqb "author_year" "language") with false.
    change (String.eqb "author_year" "author_year") with true.
    cbn [orb]. rewrite array_filter_pure. do 4 f_equal.
    apply list_filter_iff. intros b. by rewrite authorYearCallback_spec.
  - intros b Hb Hin. apply list_elem_of_filter in Hin as [Hin _].
    by rewrite no_author_year_excluded in Hin.
Qed.

Lemma bind_ret_r {A} (m : M Σ A) (k : A → M Σ A) w :
  (∀ a w', k a w' = (Returned a, w')) → bind m k w = m w.
Proof. intros Hk. unfold bind. destruct (m w) as [[a|e] w']; [apply Hk|done]. Qed.

(** C8: with an empty filter type or an empty filter value [filterBooks]
    returns the array it was given and does nothing else, in each of the
    three files; after [sortBooks] such a filter gives what [sortBooks]
    gave. *)
Theorem absent_filter_is_identity w books filterType filterValue sortOrder :
  Part001.filterBooks books "" filterValue w = (Returned books, w)
  ∧ Part001.filterBooks books filterType "" w = (Returned books, w)
  ∧ QueryJsx.filterBooks books "" filterValue w = (Returned books, w)
  ∧ QueryJsx.filterBooks books filterType "" w = (Returned books, w)
  ∧ Part000.filterBooks books "" filterValue w = (Returned books, w)
  ∧ Part000.filterBooks books filterType "" w = (Returned books, w)
  ∧ (sorted <- Part001.sortBooks books sortOrder ;;
     Part001.filterBooks sorted "" filterValue) w
    = Part001.sortBooks books sortOrder w
  ∧ (sorted <- Part001.sortBooks books sortOrder ;;
     Part001.filterBooks sorted filterType "") w
    = Part001.sortBooks books sortOrder w.
Proof.
  assert (∀ t, falsy t || falsy "" = true) as H2.
  { intros t. unfold falsy. by destruct (bool_decide (t = "")). }
  unfold Part001.filterBooks, QueryJsx.filterBooks, Part000.filterBooks.
  repeat split; rewrite ?H2; try done.
  - by apply bind_ret_r.
  - by apply bind_ret_r.
Qed.
End FilterBooks.

Section FirstAuthor.
Context {rt : Runtime} {Σ : Type}.
Implicit Types w : World Σ.

Lemma first_author_missing b w :
  no_first_author b →
  ∃ msg, QueryJsx.first_author b w = (Thrown (TypeError msg), w).
Proof.
  unfold QueryJsx.first_author. intros [H|H]; rewrite H; eauto.
Qed.

Lemma first_author_present b w :
  ¬ no_first_author b →
  ∃ a rest, authors b = Some (a :: rest)
            ∧ QueryJsx.first_author b w = (Returned a, w).
Proof.
  unfold QueryJsx.first_author, no_first_author. intros H.
  destruct (authors b) as [[|a rest]|]; [tauto| |tauto]. eauto.
Qed.

(** The [flatMap] over the books throws at the first book without a first
    author, and has no effect otherwise. *)
Lemma for_each_first_author_throws {B} (k : Author → M Σ B) l w :
  Exists no_first_author l →
  (∀ a w', ∃ v, k a w' = (Returned v, w')) →
  ∃ msg, for_each (λ b, a <- QueryJsx.first_author b ;; k a) l w
         = (Thrown (TypeError msg), w).
Proof.
  intros H Hk. induction l as [|b l IH]; [by apply Exists_nil in H|].
  cbn [for_each]. unfold bind at 1 2.
  destruct (authors b) as [[|a rest]|] eqn:Hb.
  - destruct (first_author_missing b w) as [msg ->]; [by right|]. eauto.
  - destruct (first_author_present b w) as (a' & rest' & _ & ->).
    { unfold no_first_author. rewrite Hb. by intros [?|?]. }
    destruct (Hk a' w) as [v ->].
    apply Exists_cons in H as [[H|H]|H]; [congruence|congruence|].
    by apply IH.
  - destruct (first_author_missing b w) as [msg ->]; [by left|]. eauto.
Qed.

Lemma for_each_first_author_returns {B} (k : Author → M Σ B) l w :
  Forall (λ b, ¬ no_first_author b) l →
  (∀ a w', ∃ v, k a w' = (Returned v, w')) →
  for_each (λ b, a <- QueryJsx.first_author b ;; k a) l w = (Returned tt, w).
Proof.
  intros H Hk. induction H as [|b l Hb _ IH]; [done|].
  cbn [for_each]. unfold bind at 1 2.
  destruct (first_author_present b w Hb) as (a & rest & _ & ->).
  by destruct (Hk a w) as [v ->].
Qed.

(** C10: in Query.jsx the [author_year] filter with a non-empty value
    throws a TypeError, whatever the other records are, as soon as one
    record has no first author, and changes nothing; when every record has
    one, the new array holds the records whose first author's years
    enclose the value, and two records with the same first author are
    treated alike. *)
Theorem author_year_reads_first_author w books filterValue :
  filterValue ≠ "" →
  (Exists no_first_author (elements (heap w) books) →
   ∃ msg, QueryJsx.filterBooks books "author_year" filterValue w
          = (Thrown (TypeError msg), w))
  ∧ (Forall (λ b, ¬ no_first_author b) (elements (heap w) books) →
     QueryJsx.filterBooks books "author_year" filterValue w
     = (Returned (length (heap w)),
        mkWorld (heap w ++ [filter (first_author_alive filterValue)
                                   (elements (heap w) books)])
                (network w) (requests w) (console w) (comp w)))
  ∧ (∀ b b' a rest rest',
       authors b = Some (a :: rest) → authors b' = Some (a :: rest') →
       first_author_alive filterValue b = first_author_alive filterValue b').
Proof.
  intros Hv.
  assert (∀ m : M Σ loc,
            QueryJsx.filterBooks books "author_year" filterValue w
            = (l <- read_array books ;;
               for_each (λ book, a <- QueryJsx.first_author book ;;
                                 ret [birth_year a; death_year a]) l ;;
               array_filter books (λ book,
                 a <- QueryJsx.first_author book ;;
                 ret (js_le (year_number (birth_year a)) (ToNumber filterValue)
                      && js_le (ToNumber filterValue)
                               (year_number (death_year a))))) w) as Heq.
  { intros _. unfold QueryJsx.filterBooks.
    rewrite !falsy_nonempty by done. reflexivity. }
  specialize (Heq (ret books)). rewrite Heq. clear Heq.
  split; [|split].
  - intros H. unfold bind at 1, read_array. unfold bind at 1.
    destruct (for_each_first_author_throws
                (λ a, ret [birth_year a; death_year a])
                (elements (heap w) books) w H) as [msg ->]; [|eauto].
    intros a w'. by eexists.
  - intros H. unfold bind at 1, read_array. unfold bind at 1.
    rewrite for_each_first_author_returns; [|done|intros a w'; by eexists].
    apply array_filter_returns. intros b w' Hb.
    rewrite Forall_forall in H.
    destruct (first_author_present b w' (H b Hb)) as (a & rest & Ha & Hf).
    unfold bind. rewrite Hf. unfold first_author_alive. by rewrite Ha.
  - intros b b' a rest rest' Hb Hb'. unfold first_author_alive.
    by rewrite Hb, Hb'.
Qed.
End FirstAuthor.

(** ** QueryController (part_001) *)

Section Controller.
Context {rt : Runtime}.
Import Part001.
Implicit Types (w : World State) (c s : State).

Lemma extends_refl w : extends w w.
Proof. split; [exists []; by rewrite app_nil_r|done]. Qed.

Lemma extends_same w w' :
  heap w' = heap w → network w' = network w → extends w w'.
Proof. intros H N. split; [exists []; by rewrite app_nil_r|done]. Qed.

Lemma extends_trans w1 w2 w3 : extends w1 w2 → extends w2 w3 → extends w1 w3.
Proof.
  intros [[k1 H1] N1] [[k2 H2] N2]. split.
  - exists (k1 ++ k2). by rewrite H2, H1, app_assoc.
  - by rewrite N2.
Qed.

Lemma extends_length w w' : extends w w' → (length (heap w) ≤ length (heap w'))%nat.
Proof. intros [[k ->] _]. rewrite length_app. lia. Qed.

Lemma extends_elements w w' r :
  extends w w' → (r < length (heap w))%nat →
  elements (heap w') r = elements (heap w) r.
Proof. intros [[k ->] _] Hr. unfold elements. by rewrite lookup_app_l. Qed.

Lemma sorted_list_nil sortOrder : sorted_list sortOrder [] = [].
Proof. unfold sorted_list. by repeat case_match. Qed.

Lemma sorted_list_length sortOrder l :
  length (sorted_list sortOrder l) = length l.
Proof. unfold sorted_list. repeat case_match; by rewrite ?sort_by_length. Qed.

(** [sortBooks]: the returned array holds the sorted elements; it is the
    argument itself or a new array. *)
Lemma sortBooks_spec r sortOrder w :
  (r < length (heap w))%nat →
  ∃ r' w', sortBooks r sortOrder w = (Returned r', w')
    ∧ extends w w' ∧ comp w' = comp w
    ∧ (r' < length (heap w'))%nat
    ∧ elements (heap w') r' = sorted_list sortOrder (elements (heap w) r).
Proof.
  intros Hr. unfold sortBooks, QueryJsx.sortBooks, sorted_list.
  repeat case_match; rewrite ?sorted_copy;
    (eexists _, _; split; [reflexivity|]); cbn [heap comp network].
  1-4: split; [split; [by eexists|done]|]; split; [done|];
       rewrite length_app, elements_alloc; cbn; split; [lia|done].
  run. split; [by apply extends_same|]. done.
Qed.

Lemma filterBooks_spec r filterType filterValue w :
  (r < length (heap w))%nat →
  ∃ r' w', filterBooks r filterType filterValue w = (Returned r', w')
    ∧ extends w w' ∧ comp w' = comp w
    ∧ (r' < length (heap w'))%nat
    ∧ elements (heap w') r'
      = filtered_list filterType filterValue (elements (heap w) r).
Proof.
  intros Hr. unfold filterBooks, filtered_list.
  repeat case_match; rewrite ?array_filter_pure;
    (eexists _, _; split; [reflexivity|]); cbn [heap comp network].
  2-3: split; [split; [by eexists|done]|]; split; [done|];
       rewrite length_app, elements_alloc; cbn; split; [lia|done].
  - split; [apply extends_refl|]. done.
  - run. split; [by apply extends_same|]. done.
Qed.
Ltac run_state :=
  repeat (progress
    (cbv beta delta [bind ret throw try_catch exec eval console_error
                     new_array read_array write_array fetch json get_state
                     set_state request is_empty when
                     setSearchTerm setResults setFilteredResults
                     setSortedResults setSortOrder setFilterType
                     setFilterValue setSelectedSearchType setNextPageUrl
                     setPrevPageUrl setCurrentPage setIsLoading setMessage
                     setSearchTrigger];
     cbn [fst snd heap network requests console comp
          Page.results Page.next Page.previous Page.count])).

Ltac fields :=
  cbn [loaded with_searchTerm with_results with_filteredResults with_sortedResults with_sortOrder with_filterType with_filterValue
       with_selectedSearchType with_nextPageUrl with_prevPageUrl with_currentPage with_isLoading with_message with_searchTrigger
       searchTerm results filteredResults sortedResults sortOrder filterType filterValue selectedSearchType
       isAuthorYearFilter nextPageUrl prevPageUrl currentPage isLoading message searchTrigger] in *.

(** [fetchPage] always resolves to a page whose results are a new array. *)
Lemma fetchPage_spec url w :
  ∃ n p w', fetchPage url w = (Returned (Page.mk n.1 n.2 p (length (heap w))), w')
    ∧ extends w w' ∧ comp w' = comp w
    ∧ (length (heap w) < length (heap w'))%nat.
Proof.
  unfold fetchPage, QueryJsx.fetchPage. run.
  destruct (network w url) as [|[|d]]; run.
  - exists (0, None), None. eexists. split; [reflexivity|].
    cbn [heap network comp]. rewrite length_app. cbn.
    split; [split; [by eexists|done]|]. split; [done|lia].
  - exists (0, None), None. eexists. split; [reflexivity|].
    cbn [heap network comp]. rewrite length_app. cbn.
    split; [split; [by eexists|done]|]. split; [done|lia].
  - exists (d_count d, d_next d), (d_previous d). eexists. split; [reflexivity|].
    cbn [heap network comp]. rewrite length_app. cbn.
    split; [split; [by eexists|done]|]. split; [done|lia].
Qed.

Lemma handleShowAllBooks_spec s page w :
  ∃ nx pv w', handleShowAllBooks s page w = (Returned tt, w')
    ∧ extends w w'
    ∧ comp w' = loaded (length (heap w)) nx pv page (comp w)
    ∧ (length (heap w) < length (heap w'))%nat.
Proof.
  unfold handleShowAllBooks, getBookList, QueryJsx.getBookList.
  destruct (fetchPage_spec (QueryJsx.listUrl (sortOrder s) page)
              (exec (setIsLoading true) w))
    as (n & pv & w' & Hf & Hext & Hc & Hlen).
  unfold fetchPage in Hf.
  exists n.2, pv. eexists. split.
  { unfold try_catch, bind at 1. unfold setIsLoading at 1, set_state at 1.
    unfold bind at 1. unfold exec, setIsLoading, set_state in Hf. cbn [snd] in Hf.
    rewrite Hf. run_state. reflexivity. }
  cbn [heap network comp].
  destruct Hext as [[k Hk] Hn]. run_state. cbn [heap network comp] in *.
  split; [split; [by eexists|done]|].
  split; [by rewrite Hc|done].
Qed.
Lemma searchBooks_spec query searchType sortOrder page w :
  (∃ n p w', searchBooks query searchType sortOrder page w
             = (Returned (Page.mk n.1 n.2 p (length (heap w))), w')
     ∧ extends w w' ∧ comp w' = comp w
     ∧ (length (heap w) < length (heap w'))%nat)
  ∨ (∃ w', searchBooks query searchType sortOrder page w
           = (Thrown (Reason "Invalid search type."), w')
     ∧ heap w' = heap w ∧ network w' = network w ∧ comp w' = comp w).
Proof.
  unfold searchBooks, QueryJsx.searchBooks.
  destruct (includes QueryJsx.validSearchTypes searchType); cbn [negb].
  - left. apply fetchPage_spec.
  - right. run. by eexists.
Qed.

Lemma handleSearch_spec s page w :
  ∃ w', handleSearch s page w = (Returned tt, w')
    ∧ extends w w'
    ∧ ((∃ nx pv m,
          comp w' = with_message m (loaded (length (heap w)) nx pv page (comp w))
          ∧ (length (heap w) < length (heap w'))%nat)
       ∨ (heap w' = heap w
          ∧ comp w' = with_message "Error searching for books"
                        (with_isLoading false (comp w)))).
Proof.
  unfold handleSearch.
  destruct (searchBooks_spec (searchTerm s) (selectedSearchType s)
              (sortOrder s) page (exec (setIsLoading true) w))
    as [(n & pv & w' & Hf & Hext & Hc & Hlen)|(w' & Hf & Hh & Hn & Hc)].
  - unfold try_catch, bind at 1. unfold setIsLoading at 1, set_state at 1.
    unfold bind at 1. unfold exec, setIsLoading, set_state in Hf. cbn [snd] in Hf.
    rewrite Hf. run_state.
    destruct Hext as [[k Hk] Hn]. cbn [heap network comp] in *.
    match goal with |- context [if ?b then _ else _] => destruct b end;
      (eexists; split; [reflexivity|]); cbn [heap network comp];
      (split; [split; [by eexists|done]|]); left;
      eexists n.2, pv, _; rewrite Hc; (split; [reflexivity|done]).
  - unfold try_catch, bind at 1. unfold setIsLoading at 1, set_state at 1.
    unfold bind at 1. unfold exec, setIsLoading, set_state in Hf. cbn [snd] in Hf.
    rewrite Hf. run_state. cbn [heap network comp] in *.
    eexists; split; [reflexivity|]. cbn [heap network comp].
    split; [by apply extends_same|]. right. by rewrite Hc.
Qed.

(** The sort effect: when there are results, [sortedResults] becomes the
    array [sortBooks] returns. *)
Lemma effectSort_spec c w :
  (results c < length (heap w))%nat →
  ∃ sr w', effectSort c w = (Returned tt, w')
    ∧ extends w w'
    ∧ comp w' = with_isLoading false (with_sortedResults sr (comp w))
    ∧ (elements (heap w) (results c) = [] ∧ sr = sortedResults (comp w)
       ∨ (sr < length (heap w'))%nat
         ∧ elements (heap w') sr
           = sorted_list (sortOrder c) (elements (heap w) (results c))).
Proof.
  intros Hr. unfold effectSort.
  unfold try_catch, bind at 1. unfold setIsLoading at 1, set_state at 1.
  unfold bind at 1, read_array at 1. cbn [heap].
  case_bool_decide as Hlen.
  - destruct (sortBooks_spec (results c) (sortOrder c)
                (mkWorld (heap w) (network w) (requests w) (console w)
                         (with_isLoading true (comp w))))
      as (r' & w' & Heq & Hext & Hc & Hv & Hel); [done|].
    unfold bind at 1 2. rewrite Heq. run_state.
    exists r'. eexists. split; [reflexivity|]. cbn [heap network comp] in *.
    split; [done|]. split; [by rewrite Hc|]. by right.
  - run_state. exists (sortedResults (comp w)). eexists.
    split; [reflexivity|]. cbn [heap network comp].
    split; [by apply extends_same|]. split; [done|]. left.
    split; [|done]. destruct (elements (heap w) (results c)); [done|].
    cbn in Hlen. lia.
Qed.

(** The filter effect. *)
Lemma effectFilter_spec c w :
  (sortedResults c < length (heap w))%nat →
  ∃ f w', effectFilter c w = (Returned tt, w')
    ∧ extends w w'
    ∧ comp w'
      = with_message
          (message_for c (filtered_list (filterType c) (filterValue c)
                            (elements (heap w) (sortedResults c))))
          (with_filteredResults f (comp w))
    ∧ (f < length (heap w'))%nat
    ∧ elements (heap w') f
      = filtered_list (filterType c) (filterValue c)
          (elements (heap w) (sortedResults c)).
Proof.
  intros Hr. unfold effectFilter.
  destruct (filterBooks_spec (sortedResults c) (filterType c) (filterValue c) w)
    as (f & w' & Heq & Hext & Hc & Hv & Hel); [done|].
  unfold bind at 1. rewrite Heq. run_state. rewrite Hel, Hc.
  exists f. unfold message_for.
  match goal with |- context [if ?b then _ else _] => destruct b end;
    (eexists; split; [reflexivity|]); cbn [heap network comp];
    (split; [by apply (extends_trans _ w'), extends_same|]); done.
Qed.
Lemma effectTrigger_spec c w :
  ∃ w', effectTrigger c w = (Returned tt, w')
    ∧ if searchTrigger c then
        extends w w'
        ∧ ((∃ nx pv m,
              comp w' = with_searchTrigger false
                          (with_message m (loaded (length (heap w)) nx pv 1 (comp w)))
              ∧ (length (heap w) < length (heap w'))%nat)
           ∨ (heap w' = heap w
              ∧ comp w' = with_searchTrigger false
                            (with_message "Error searching for books"
                               (with_isLoading false (comp w)))))
      else w' = w.
Proof.
  unfold effectTrigger. destruct (searchTrigger c); [|by eexists].
  destruct (handleSearch_spec c 1 w) as (w' & Heq & Hext & Hcases).
  unfold bind. rewrite Heq. run_state.
  eexists. split; [reflexivity|]. cbn [heap network comp].
  split; [by apply (extends_trans _ w'), extends_same|].
  destruct Hcases as [(nx & pv & m & Hc & Hl)|[Hh Hc]].
  - left. exists nx, pv, m. by rewrite Hc.
  - right. by rewrite Hc.
Qed.

(** One round of effects, stage by stage. *)
Lemma commit_spec prev w :
  well_formed w (comp w) →
  ∃ wa wb wc,
    commit prev (comp w) w = (Returned tt, wc)
    ∧ sort_stage prev (comp w) w wa
    ∧ filter_stage prev (comp w) wa wb
    ∧ trigger_stage prev (comp w) wb wc.
Proof.
  intros (Hr & Hs & Hf). unfold commit.
  set (c := comp w) in *.
  assert (∃ wa, when (bool_decide (deps_sort prev ≠ deps_sort c)) (effectSort c) w
                = (Returned tt, wa) ∧ sort_stage prev c w wa) as (wa & Ha & Sa).
  { unfold sort_stage, when. destruct (decide (deps_sort prev = deps_sort c)) as [E|E].
    - rewrite bool_decide_eq_false_2 by tauto. by eexists.
    - rewrite bool_decide_eq_true_2 by done.
      destruct (effectSort_spec c w Hr) as (sr & wa & Heq & Hext & Hc & Hcases).
      exists wa. split; [done|]. exists sr. split; [done|]. split; [done|].
      destruct Hcases as [?|?]; [by left|by right]. }
  assert (extends w wa) as Hwa.
  { unfold sort_stage in Sa. destruct (decide _); [subst; apply extends_refl|].
    by destruct Sa as (? & ? & _). }
  assert (∃ wb, when (bool_decide (deps_filter prev ≠ deps_filter c))
                  (effectFilter c) wa
                = (Returned tt, wb) ∧ filter_stage prev c wa wb) as (wb & Hb & Sb).
  { unfold filter_stage, when.
    destruct (decide (deps_filter prev = deps_filter c)) as [E|E].
    - rewrite bool_decide_eq_false_2 by tauto. by eexists.
    - rewrite bool_decide_eq_true_2 by done.
      destruct (effectFilter_spec c wa) as (f & wb & Heq & Hext & Hc & Hv & Hel).
      { apply extends_length in Hwa. lia. }
      exists wb. split; [done|]. exists f. by split; [|split]. }
  assert (∃ wc, when (bool_decide (deps_trigger prev ≠ deps_trigger c))
                  (effectTrigger c) wb
                = (Returned tt, wc) ∧ trigger_stage prev c wb wc) as (wc & Hc & Sc).
  { unfold trigger_stage, when.
    destruct (decide (deps_trigger prev = deps_trigger c)) as [E|E].
    - rewrite bool_decide_eq_false_2 by tauto. by eexists.
    - rewrite bool_decide_eq_true_2 by done.
      destruct (effectTrigger_spec c wb) as (wc & Heq & Hcases).
      by exists wc. }
  exists wa, wb, wc. unfold bind. by rewrite Ha, Hb, Hc.
Qed.
Lemma holds_extends w w' r l : holds w r l → extends w w' → holds w' r l.
Proof.
  intros [Hr Hl] Hext. split.
  - apply extends_length in Hext. lia.
  - by rewrite (extends_elements w w').
Qed.

Lemma holds_same_heap w w' r l : heap w' = heap w → holds w r l → holds w' r l.
Proof. unfold holds. by intros ->. Qed.

Lemma holds_here w r : (r < length (heap w))%nat → holds w r (elements (heap w) r).
Proof. by split. Qed.

(** After the sort stage [sortedResults] holds the sorted results. *)
Lemma sort_stage_sorted prev w wa :
  pending prev w →
  sort_stage prev (comp w) w wa →
  extends w wa
  ∧ ∃ sr, comp wa = with_sortedResults sr (comp w)
      ∧ holds wa sr (sorted_list (sortOrder (comp w))
                       (elements (heap w) (results (comp w))))
      ∧ (deps_sort prev = deps_sort (comp w) → sr = sortedResults (comp w)).
Proof.
  intros (Hwf & Hload & Hempty & Hsort & _) Sa. unfold sort_stage in Sa.
  destruct Hwf as (Hr & Hs & Hf).
  destruct (decide (deps_sort prev = deps_sort (comp w))) as [E|E].
  - subst wa. split; [apply extends_refl|].
    exists (sortedResults (comp w)). split; [by destruct (comp w)|].
    split; [|done]. split; [done|]. by apply Hsort.
  - destruct Sa as (sr & Hext & Hc & Hcases). split; [done|].
    exists sr. split.
    { rewrite Hc. destruct (comp w). cbn in *. by subst. }
    split; [|done].
    destruct Hcases as [[He ->]|H]; [|done].
    eapply holds_extends; [|done]. split; [done|].
    rewrite He, sorted_list_nil. by apply Hempty.
Qed.

(** After the filter stage [filteredResults] holds the filtered elements
    of the [sortedResults] that was rendered. *)
Lemma filter_stage_filtered prev c wa wb :
  (sortedResults c < length (heap wa))%nat →
  (filteredResults c < length (heap wa))%nat →
  filteredResults (comp wa) = filteredResults c →
  message (comp wa) = message c →
  (deps_filter prev = deps_filter c →
   elements (heap wa) (filteredResults c)
   = filtered_list (filterType c) (filterValue c)
       (elements (heap wa) (sortedResults c))) →
  filter_stage prev c wa wb →
  extends wa wb
  ∧ ∃ f m, comp wb = with_message m (with_filteredResults f (comp wa))
      ∧ holds wb f (filtered_list (filterType c) (filterValue c)
                      (elements (heap wa) (sortedResults c)))
      ∧ (deps_filter prev = deps_filter c ∧ wb = wa
         ∨ deps_filter prev ≠ deps_filter c
           ∧ m = message_for c (filtered_list (filterType c) (filterValue c)
                                  (elements (heap wa) (sortedResults c)))).
Proof.
  intros Hs Hf Hfc Hmc Hfilt Sb. unfold filter_stage in Sb.
  destruct (decide (deps_filter prev = deps_filter c)) as [E|E].
  - subst wb. split; [apply extends_refl|].
    exists (filteredResults c), (message c). split.
    { rewrite <- Hfc, <- Hmc. by destruct (comp wa). }
    split; [|by left]. split; [done|]. by apply Hfilt.
  - destruct Sb as (f & Hext & Hc & Hh). split; [done|].
    exists f, (message_for c (filtered_list (filterType c) (filterValue c)
                                (elements (heap wa) (sortedResults c)))).
    split; [done|]. split; [done|]. by right.
Qed.
Lemma trigger_stage_quiet prev c wb wc :
  quiet prev c → trigger_stage prev c wb wc → wc = wb.
Proof.
  unfold trigger_stage. intros [Hq|Hq] Sc.
  - by rewrite decide_True in Sc.
  - rewrite Hq in Sc. by destruct (decide _).
Qed.

Lemma pending_no_fetch c w wc :
  well_formed w c →
  extends w wc →
  holds wc (sortedResults (comp wc))
    (sorted_list (sortOrder c) (elements (heap w) (results c))) →
  holds wc (filteredResults (comp wc))
    (filtered_list (filterType c) (filterValue c)
       (elements (heap w) (sortedResults c))) →
  results (comp wc) = results c →
  sortOrder (comp wc) = sortOrder c →
  filterType (comp wc) = filterType c →
  filterValue (comp wc) = filterValue c →
  isLoading (comp wc) = false →
  pending c wc.
Proof.
  intros (Hr & Hs & Hf) Hext [Hsv Hse] [Hfv Hfe] Er Eo Et Ev El.
  assert (elements (heap wc) (results c) = elements (heap w) (results c)) as Hrc
    by by apply extends_elements.
  unfold pending, well_formed, sorted_ok, filtered_ok. cbn zeta.
  rewrite Er, Eo, Et, Ev, Hse, Hfe, Hrc.
  pose proof (extends_length _ _ Hext).
  split; [repeat split; (done || lia)|]. split; [done|].
  split; [intros ->; apply sorted_list_nil|]. split; [done|].
  intros E. unfold deps_filter in E.
  assert (sortedResults (comp wc) = sortedResults c) as <- by congruence.
  rewrite <- Hse. f_equal.
  rewrite <- (extends_elements w wc) by congruence. congruence.
Qed.

Lemma pending_fetched c w wc n :
  well_formed w c →
  extends w wc →
  (length (heap w) ≤ n < length (heap wc))%nat →
  results (comp wc) = n →
  sortedResults (comp wc) = n →
  filteredResults (comp wc) = n →
  isLoading (comp wc) = false →
  pending c wc.
Proof.
  intros (Hr & Hs & Hf) Hext Hn Er Es Ef El.
  unfold pending, well_formed, sorted_ok, filtered_ok, deps_sort, deps_filter.
  cbn zeta. rewrite Er, Es, Ef.
  split; [repeat split; lia|]. split; [done|]. split; [done|].
  split; intros E; exfalso; inversion E; lia.
Qed.

(** One round of rendering: what was pending is dealt with, and the trigger
    effect will not search in the next round. *)
Lemma round_pending prev w :
  pending prev w →
  extends w (exec (commit prev (comp w)) w)
  ∧ pending (comp w) (exec (commit prev (comp w)) w)
  ∧ quiet (comp w) (comp (exec (commit prev (comp w)) w))
  ∧ (quiet prev (comp w) →
     deps_sort (comp w) = deps_sort (comp (exec (commit prev (comp w)) w)))
  ∧ isAuthorYearFilter (comp (exec (commit prev (comp w)) w))
    = isAuthorYearFilter (comp w).
Proof.
  intros Hp.
  pose proof Hp as (Hwf & Hload & Hempty & Hsort & Hfilt).
  destruct (commit_spec prev w Hwf) as (wa & wb & wc & Heq & Sa & Sb & Sc).
  unfold exec. rewrite Heq. cbn [snd].
  destruct (sort_stage_sorted prev w wa Hp Sa) as (Hwa & sr & Hca & Hsr & Hsame).
  pose proof Hwf as (Hr & Hs & Hf).
  destruct (filter_stage_filtered prev (comp w) wa wb)
    as (Hwb & f & m & Hcb & Hfb & Hran); [| | | | |done|].
  { apply extends_length in Hwa. lia. }
  { apply extends_length in Hwa. lia. }
  { rewrite Hca. by destruct (comp w). }
  { rewrite Hca. by destruct (comp w). }
  { intros E. rewrite !(extends_elements w wa) by done. by apply Hfilt. }
  rewrite !(extends_elements w wa) in Hfb by done.
  rewrite Hca in Hcb.
  assert (extends w wb) as Hwwb by by eapply extends_trans.
  assert (pending (comp w) wb ∧ deps_trigger (comp w) = deps_trigger (comp wb)
          ∧ deps_sort (comp w) = deps_sort (comp wb)) as (Hpb & Htb & Hsb).
  { split; [|by rewrite Hcb].
    apply (pending_no_fetch _ w); try done; rewrite Hcb; fields; try done.
    by eapply holds_extends. }
  destruct Hpb as (Hwfb & _).
  unfold trigger_stage in Sc.
  destruct (decide (deps_trigger prev = deps_trigger (comp w))) as [Et|Et];
    [subst wc|destruct (searchTrigger (comp w)) eqn:Etr; [|subst wc]].
  - split; [done|]. split; [|split; [by left|split; [done|by rewrite Hcb]]].
    apply (pending_no_fetch _ w); try done; rewrite Hcb; fields; try done.
    by eapply holds_extends.
  - destruct Sc as (Hwc & [(nx & pv & m' & Hcc & Hlen)|(Hh & Hcc)]).
    + split; [by eapply extends_trans|]. split; [|split].
      * apply (pending_fetched _ w _ (length (heap wb)));
          try done; try (by rewrite Hcc).
        -- by eapply extends_trans.
        -- split; [by apply extends_length|done].
      * right. by rewrite Hcc.
      * split; [intros [Hq|Hq]; [done|congruence]|by rewrite Hcc, Hcb].
    + split; [by eapply extends_trans|]. split; [|split].
      * apply (pending_no_fetch _ w); try done;
          try (rewrite Hcc, Hcb; by fields).
        -- by eapply extends_trans.
        -- rewrite Hcc, Hcb. fields. apply (holds_same_heap wb); [done|].
           by eapply holds_extends.
        -- rewrite Hcc, Hcb. fields. by apply (holds_same_heap wb).
      * right. by rewrite Hcc.
      * split; [intros [Hq|Hq]; [done|congruence]|by rewrite Hcc, Hcb].
  - split; [done|]. split; [|split; [by left|split; [done|by rewrite Hcb]]].
    apply (pending_no_fetch _ w); try done; rewrite Hcb; fields; try done.
    by eapply holds_extends.
Qed.
Lemma message_for_fields c c' l :
  isLoading c' = isLoading c → searchTerm c' = searchTerm c →
  message_for c' l = message_for c l.
Proof. unfold message_for. by intros -> ->. Qed.

(** A round in which neither the sort effect nor a search runs. *)
Lemma round_quiet prev w :
  pending prev w →
  quiet prev (comp w) →
  deps_sort prev = deps_sort (comp w) →
  (deps_filter prev = deps_filter (comp w) →
   exec (commit prev (comp w)) w = w)
  ∧ (deps_filter (comp w) ≠ deps_filter (comp (exec (commit prev (comp w)) w)) →
     message_stable (exec (commit prev (comp w)) w)
                    (comp (exec (commit prev (comp w)) w)))
  ∧ ((deps_filter prev ≠ deps_filter (comp w) → message_stable w (comp w)) →
     deps_filter (comp w) = deps_filter (comp (exec (commit prev (comp w)) w))).
Proof.
  intros Hp Hq Es.
  pose proof Hp as (Hwf & Hload & Hempty & Hsort & Hfilt).
  destruct (commit_spec prev w Hwf) as (wa & wb & wc & Heq & Sa & Sb & Sc).
  unfold exec. rewrite Heq. cbn [snd].
  apply (trigger_stage_quiet _ _ _ _ Hq) in Sc. subst wc.
  unfold sort_stage in Sa. rewrite decide_True in Sa by done. subst wa.
  unfold filter_stage in Sb.
  destruct (decide (deps_filter prev = deps_filter (comp w))) as [Ef|Ef].
  { subst wb. by repeat split. }
  destruct Sb as (f & Hext & Hc & Hf).
  destruct Hwf as (_ & Hs & _).
  split; [done|]. split.
  - intros _. unfold message_stable. rewrite Hc. fields.
    rewrite (extends_elements w wb) by done.
    by apply message_for_fields.
  - intros Hm. specialize (Hm Ef). unfold message_stable in Hm.
    rewrite Hc. unfold deps_filter. fields. by rewrite <- Hm.
Qed.

Lemma settle_same n w : settle n (comp w) w = w.
Proof. destruct n; cbn; by rewrite ?bool_decide_eq_true_2. Qed.

Lemma pending_at_rest prev w :
  pending prev w → comp w = prev → at_rest w.
Proof.
  intros (Hwf & Hload & _ & Hsort & Hfilt) <-.
  split; [done|]. split; [done|]. split; [by apply Hsort|by apply Hfilt].
Qed.

Lemma settles_step k prev w :
  pending prev w →
  (comp w ≠ prev →
   settles_in k (comp w) (exec (commit prev (comp w)) w)) →
  settles_in (S k) prev w.
Proof.
  intros Hp Hnext. destruct (decide (comp w = prev)) as [E|E].
  - exists w. split; [by eapply pending_at_rest|].
    split; [apply extends_refl|]. split; [done|].
    intros n. cbn. by rewrite bool_decide_eq_true_2.
  - destruct (Hnext E) as (wf & Hrest & Hext & Hay & Hn).
    destruct (round_pending prev w Hp) as (Hext' & _ & _ & _ & Hay').
    exists wf. split; [done|]. split; [by eapply extends_trans|].
    split; [by rewrite Hay|].
    intros n. cbn [Nat.add settle]. by rewrite bool_decide_eq_false_2.
Qed.

Lemma settles_in_0 prev w :
  pending prev w → quiet prev (comp w) →
  deps_sort prev = deps_sort (comp w) →
  deps_filter prev = deps_filter (comp w) →
  settles_in 0 prev w.
Proof.
  intros Hp Hq Es Ef. exists w.
  pose proof Hp as (Hwf & Hload & _ & Hsort & Hfilt).
  split; [|split; [apply extends_refl|split; [done|]]].
  { split; [done|]. split; [done|]. split; [by apply Hsort|by apply Hfilt]. }
  intros n. cbn [Nat.add]. destruct n as [|n]; cbn [settle].
  - by destruct (bool_decide _).
  - case_bool_decide; [done|].
    destruct (round_quiet prev w Hp Hq Es) as (Hid & _).
    rewrite (Hid Ef). apply settle_same.
Qed.

Lemma settles_in_1 prev w :
  pending prev w → quiet prev (comp w) →
  deps_sort prev = deps_sort (comp w) →
  (deps_filter prev ≠ deps_filter (comp w) → message_stable w (comp w)) →
  settles_in 1 prev w.
Proof.
  intros Hp Hq Es Hm. apply settles_step; [done|]. intros _.
  destruct (round_pending prev w Hp) as (Hext & Hp' & Hq' & Hs' & _).
  destruct (round_quiet prev w Hp Hq Es) as (_ & _ & Hf').
  apply settles_in_0; auto.
Qed.

Lemma settles_in_2 prev w :
  pending prev w → quiet prev (comp w) →
  deps_sort prev = deps_sort (comp w) →
  settles_in 2 prev w.
Proof.
  intros Hp Hq Es. apply settles_step; [done|]. intros _.
  destruct (round_pending prev w Hp) as (Hext & Hp' & Hq' & Hs' & _).
  destruct (round_quiet prev w Hp Hq Es) as (_ & Hm' & _).
  apply settles_in_1; auto.
Qed.

Lemma settles_in_3 prev w :
  pending prev w → quiet prev (comp w) → settles_in 3 prev w.
Proof.
  intros Hp Hq. apply settles_step; [done|]. intros _.
  destruct (round_pending prev w Hp) as (Hext & Hp' & Hq' & Hs' & _).
  apply settles_in_2; auto.
Qed.

(** Whatever is pending, four rounds of rendering bring the component to
    rest. *)
Lemma settles_in_4 prev w : pending prev w → settles_in 4 prev w.
Proof.
  intros Hp. apply settles_step; [done|]. intros _.
  destruct (round_pending prev w Hp) as (Hext & Hp' & Hq' & Hs' & _).
  apply settles_in_3; auto.
Qed.
(** *** Events *)

Lemma pending_after_update w w1 :
  at_rest w →
  heap w1 = heap w →
  results (comp w1) = results (comp w) →
  sortedResults (comp w1) = sortedResults (comp w) →
  filteredResults (comp w1) = filteredResults (comp w) →
  isLoading (comp w1) = false →
  pending (comp w) w1.
Proof.
  intros (Hwf & _ & Hs & Hf) Hh Er Es Ef El.
  unfold pending, well_formed, sorted_ok, filtered_ok, deps_sort, deps_filter
    in *. cbn zeta. rewrite Hh, Er, Es, Ef.
  split; [done|]. split; [done|]. split.
  { intros E. rewrite Hs, E. apply sorted_list_nil. }
  split; intros E; inversion E; congruence.
Qed.

Lemma handleSearch_pending s page w :
  at_rest w →
  extends w (exec (handleSearch s page) w)
  ∧ pending (comp w) (exec (handleSearch s page) w)
  ∧ isAuthorYearFilter (comp (exec (handleSearch s page) w))
    = isAuthorYearFilter (comp w).
Proof.
  intros Hrest.
  destruct (handleSearch_spec s page w)
    as (w' & Heq & Hext & [(nx & pv & m & Hc & Hl)|(Hh & Hc)]);
    unfold exec; rewrite Heq; cbn [snd].
  - split; [done|]. split; [|by rewrite Hc].
    apply (pending_fetched _ w _ (length (heap w)));
      [apply Hrest|done|lia|by rewrite Hc..].
  - split; [done|]. split; [|by rewrite Hc].
    apply pending_after_update; try done; by rewrite Hc.
Qed.

Lemma handleShowAllBooks_pending s page w :
  at_rest w →
  extends w (exec (handleShowAllBooks s page) w)
  ∧ pending (comp w) (exec (handleShowAllBooks s page) w)
  ∧ isAuthorYearFilter (comp (exec (handleShowAllBooks s page) w))
    = isAuthorYearFilter (comp w).
Proof.
  intros Hrest.
  destruct (handleShowAllBooks_spec s page w) as (nx & pv & w' & Heq & Hext & Hc & Hl).
  unfold exec. rewrite Heq. cbn [snd].
  split; [done|]. split; [|by rewrite Hc].
  apply (pending_fetched _ w _ (length (heap w)));
    [apply Hrest|done|lia|by rewrite Hc..].
Qed.

Lemma pending_unchanged w : at_rest w → pending (comp w) w.
Proof. intros H. apply pending_after_update; try done. apply H. Qed.

(** After the handler of any event the world is [pending]: what the
    handler left stale is covered by the dependencies of the effects. *)
Lemma handle_pending ev w :
  at_rest w →
  extends w (exec (handle ev (comp w)) w)
  ∧ pending (comp w) (exec (handle ev (comp w)) w)
  ∧ isAuthorYearFilter (comp (exec (handle ev (comp w)) w))
    = isAuthorYearFilter (comp w).
Proof.
  intros Hrest. pose proof Hrest as (_ & Hl & _).
  destruct ev; cbn [handle];
    try (by apply handleSearch_pending);
    try (by apply handleShowAllBooks_pending).
  1-2, 5: run_state; (split; [by apply extends_same|]);
          (split; [by apply pending_after_update|done]).
  1-2: run_state; (split; [by apply extends_same|]);
       (split; [by apply pending_after_update|done]).
  1-2: unfold handleAuthorClick, handleBookshelfClick; run_state;
       (split; [by apply extends_same|]);
       (split; [by apply pending_after_update|done]).
  - unfold handlePreviousPage. repeat case_match;
      try (by apply handleSearch_pending);
      try (by apply handleShowAllBooks_pending).
    run_state. split; [apply extends_refl|]. by split; [apply pending_unchanged|].
  - unfold handleNextPage. repeat case_match;
      try (by apply handleSearch_pending);
      try (by apply handleShowAllBooks_pending).
    run_state. split; [apply extends_refl|]. by split; [apply pending_unchanged|].
Qed.

(** After any event the component comes to rest within [enough] rounds. *)
Lemma react_settles ev w :
  at_rest w →
  ∃ wf, at_rest wf ∧ extends w wf
    ∧ isAuthorYearFilter (comp wf) = isAuthorYearFilter (comp w)
    ∧ ∀ n, react (enough + n) ev w = wf.
Proof.
  intros Hrest.
  destruct (handle_pending ev w Hrest) as (Hext & Hp & Hay).
  destruct (settles_in_4 _ _ Hp) as (wf & Hwf & Hext' & Hay' & Hn).
  exists wf. split; [done|]. split; [by eapply extends_trans|].
  split; [by rewrite Hay'|]. intros n. apply Hn.
Qed.
(** *** Mounting *)

Lemma mount_pending net :
  pending initialState
    (exec (ks <- mount_begin initialState ;;
           complete_now ks.1 ;; complete_now ks.2)
       (initialWorld net))
  ∧ isAuthorYearFilter
      (comp (exec (ks <- mount_begin initialState ;;
                   complete_now ks.1 ;; complete_now ks.2)
               (initialWorld net))) = true.
Proof.
  unfold pending, well_formed, sorted_ok, filtered_ok, deps_sort, deps_filter.
  vm_compute.
  match goal with |- context [net ?u] => destruct (net u) as [|[|d]] end;
    vm_compute;
    (split; [|reflexivity]);
    (split; [repeat split; lia|]); (split; [done|]); (split; [done|]);
    split; intros E; inversion E.
Qed.

Lemma mount_settles net :
  ∃ wf, at_rest wf ∧ isAuthorYearFilter (comp wf) = true
    ∧ ∀ n, mount (enough + n) (initialWorld net) = wf.
Proof.
  destruct (mount_pending net) as [Hp Hay].
  destruct (settles_in_4 _ _ Hp) as (wf & Hwf & _ & Hay' & Hn).
  exists wf. split; [done|]. split; [by rewrite Hay'|].
  intros n. apply Hn.
Qed.

(** Every world the component can be in between two events is at rest, and
    the rendered list is [filteredResults]. *)
Lemma serial_at_rest w :
  serial w → at_rest w ∧ isAuthorYearFilter (comp w) = true.
Proof.
  induction 1 as [net|w ev _ [IH Hay]|w net _ [IH Hay]].
  - destruct (mount_settles net) as (wf & Hwf & Hay & Hn).
    specialize (Hn 0%nat). rewrite Nat.add_0_r in Hn. by rewrite Hn.
  - destruct (react_settles ev w IH) as (wf & Hwf & _ & Hay' & Hn).
    specialize (Hn 0%nat). rewrite Nat.add_0_r in Hn. rewrite Hn.
    split; [done|]. by rewrite Hay'.
  - split; [|done]. exact IH.
Qed.

End Controller.

(** ** part_000: the effect filters first and sorts after *)

Section Part000Derive.
Context {rt : Runtime}.
Import Part000.

Lemma filter_all {A} (l : list A) : filter (λ _, true) l = l.
Proof.
  induction l as [|x l IH]; [done|]. rewrite filter_cons_True by done.
  by rewrite IH.
Qed.

Lemma part000_comparator_consistent sortType :
  consistent localeCompare → sortType ≠ "chronological" →
  consistent (if falsy sortType then λ _ _, 0 else compareBooks sortType).
Proof.
  intros Hc Hs. destruct (falsy sortType);
    [apply consistent_constant|by apply compareBooks_consistent].
Qed.



End Part000Derive.

(** ** part_001 with requests in flight *)

Section TransformerRuns.
Context {rt : Runtime} {Σ : Type}.
Implicit Types w : World Σ.

(** [sortBooks] always returns; it may add an array and log, and touches
    nothing else. *)
Lemma sortBooks_run w books sortOrder :
  ∃ r' w', QueryJsx.sortBooks books sortOrder w = (Returned r', w')
    ∧ elements (heap w') r' = sorted_list sortOrder (elements (heap w) books)
    ∧ (∃ k, heap w' = heap w ++ k)
    ∧ network w' = network w ∧ requests w' = requests w ∧ comp w' = comp w.
Proof.
  unfold QueryJsx.sortBooks, sorted_list.
  repeat case_match; rewrite ?sorted_copy;
    (eexists _, _; split; [reflexivity|]); cbn [heap comp network requests].
  1-4: rewrite elements_alloc; split; [done|]; split; [by eexists|done].
  run. split; [done|]. split; [exists []; by rewrite app_nil_r|done].
Qed.

Lemma part001_filterBooks_run w books filterType filterValue :
  ∃ r' w', Part001.filterBooks books filterType filterValue w = (Returned r', w')
    ∧ elements (heap w') r'
      = filtered_list filterType filterValue (elements (heap w) books)
    ∧ (∃ k, heap w' = heap w ++ k)
    ∧ network w' = network w ∧ requests w' = requests w ∧ comp w' = comp w.
Proof.
  unfold Part001.filterBooks, filtered_list.
  repeat case_match; rewrite ?array_filter_pure;
    (eexists _, _; split; [reflexivity|]); cbn [heap comp network requests].
  2-3: rewrite elements_alloc; split; [done|]; split; [by eexists|done].
  - split; [done|]. split; [exists []; by rewrite app_nil_r|done].
  - run. split; [done|]. split; [exists []; by rewrite app_nil_r|done].
Qed.
End TransformerRuns.

Section Asynchrony.
Context {rt : Runtime}.
Import Part001.
Implicit Types (w : World State) (s c : State).

Ltac run_async :=
  repeat (progress
    (cbv beta delta [bind ret throw try_catch exec eval console_error
                     new_array read_array write_array fetch json get_state
                     set_state request respond is_empty when complete_now
                     setSearchTerm setResults setFilteredResults
                     setSortedResults setSortOrder setFilterType
                     setFilterValue setSelectedSearchType setNextPageUrl
                     setPrevPageUrl setCurrentPage setIsLoading setMessage
                     setSearchTrigger];
     cbn [fst snd heap network requests console comp resume awaited
          Page.results Page.next Page.previous Page.count])).




(** The trigger effect clears the trigger before the reply arrives; that
    makes no difference when the reply arrives at once. *)
Lemma effectTrigger_split c w :
  effectTrigger c w = (k <- effectTrigger_begin c ;; complete_now k) w.
Proof.
  unfold effectTrigger, effectTrigger_begin.
  destruct (searchTrigger c); [|reflexivity].
  unfold handleSearch, handleSearch_begin, searchBooks, QueryJsx.searchBooks,
    QueryJsx.fetchPage.
  destruct (includes QueryJsx.validSearchTypes (selectedSearchType c));
    cbn [negb]; run_async; [|reflexivity].
  unfold handleSearch_resume, QueryJsx.fetchPage_resume.
  run_async.
  destruct (network w _) as [|[|d]]; run_async;
    match goal with |- context [if ?b then _ else _] => destruct b end;
    by destruct (comp w).
Qed.

Ltac fields :=
  cbn [with_searchTerm with_results with_filteredResults with_sortedResults
       with_sortOrder with_filterType with_filterValue
       with_selectedSearchType with_nextPageUrl with_prevPageUrl
       with_currentPage with_isLoading with_message with_searchTrigger
       searchTerm results filteredResults sortedResults sortOrder filterType
       filterValue selectedSearchType isAuthorYearFilter nextPageUrl
       prevPageUrl currentPage isLoading message searchTrigger].









Implicit Types (sys : System).





Lemma effectSort_returns c w : ∃ w', effectSort c w = (Returned tt, w').
Proof.
  unfold effectSort.
  unfold try_catch, bind at 1. unfold setIsLoading at 1, set_state at 1.
  unfold bind at 1, read_array at 1. cbn [heap].
  case_bool_decide as Hlen.
  - destruct (sortBooks_run
                (mkWorld (heap w) (network w) (requests w) (console w)
                         (with_isLoading true (comp w)))
                (results c) (sortOrder c))
      as (r' & w' & Heq & _).
    unfold bind at 1 2. unfold sortBooks. rewrite Heq. run_async.
    by eexists.
  - run_async. by eexists.
Qed.







End Asynchrony.

(** ** The controller of Query.jsx *)

Lemma forallb_has_first_author l :
  forallb has_first_author l = true → Forall (λ b, ¬ no_first_author b) l.
Proof.
  induction l as [|b l IH]; cbn [forallb]; [constructor|].
  intros H. apply andb_prop in H as [Hb Hl]. constructor; [|by apply IH].
  unfold has_first_author in Hb. unfold no_first_author.
  destruct (authors b) as [[|a rest]|]; try done. by intros [?|?].
Qed.

Lemma exists_no_first_author l :
  forallb has_first_author l = false → Exists no_first_author l.
Proof.
  induction l as [|b l IH]; cbn [forallb]; [done|].
  intros H. apply andb_false_iff in H as [Hb|Hl]; [left|right; by apply IH].
  unfold has_first_author in Hb. unfold no_first_author.
  destruct (authors b) as [[|a rest]|]; try done; [by right|by left].
Qed.

Section QueryJsxFilter.
Context {rt : Runtime} {Σ : Type}.
Implicit Types w : World Σ.

(** [filterBooks] of Query.jsx returns the array that [q_filtered_list]
    describes, or throws and changes nothing. *)
Lemma q_filterBooks_run w books filterType filterValue :
  match q_filtered_list filterType filterValue (elements (heap w) books) with
  | Some l =>
      ∃ r' w',
        QueryJsx.filterBooks books filterType filterValue w = (Returned r', w')
        ∧ elements (heap w') r' = l
        ∧ (∃ k, heap w' = heap w ++ k)
        ∧ network w' = network w ∧ comp w' = comp w
        ∧ ((books < length (heap w))%nat → (r' < length (heap w'))%nat)
  | None =>
      ∃ e, QueryJsx.filterBooks books filterType filterValue w = (Thrown e, w)
  end.
Proof.
  unfold QueryJsx.filterBooks, q_filtered_list.
  destruct (falsy filterType || falsy filterValue).
  { exists books, w. split; [done|]. split; [done|].
    split; [exists []; by rewrite app_nil_r|done]. }
  destruct (String.eqb filterType "language").
  { rewrite array_filter_pure. eexists _, _. split; [reflexivity|].
    cbn [heap network comp]. rewrite elements_alloc, length_app.
    split; [done|]. split; [by eexists|]. split; [done|]. split; [done|].
    cbn. lia. }
  destruct (String.eqb filterType "author_year").
  - destruct (forallb has_first_author (elements (heap w) books)) eqn:Ha.
    + apply forallb_has_first_author in Ha.
      unfold bind at 1, read_array. unfold bind at 1.
      rewrite for_each_first_author_returns; [|done|intros a w'; by eexists].
      rewrite (array_filter_returns _ _ _ (first_author_alive filterValue)).
      * eexists _, _. split; [reflexivity|].
        cbn [heap network comp]. rewrite elements_alloc, length_app.
        split; [done|]. split; [by eexists|]. split; [done|]. split; [done|].
        cbn. lia.
      * intros b w' Hb. rewrite Forall_forall in Ha.
        destruct (first_author_present b w' (Ha b Hb)) as (a & rest & Hab & Hf).
        unfold bind. rewrite Hf. unfold first_author_alive. by rewrite Hab.
    + apply exists_no_first_author in Ha.
      destruct (for_each_first_author_throws
                  (λ a, ret [birth_year a; death_year a])
                  (elements (heap w) books) w Ha) as [msg E].
      { intros a w'. by eexists. }
      unfold bind at 1, read_array. unfold bind at 1. rewrite E. by eexists.
  - run. eexists _, _. split; [reflexivity|]. cbn [heap network comp].
    split; [done|]. split; [exists []; by rewrite app_nil_r|done].
Qed.

Lemma q_sortBooks_run w books sortOrder :
  (books < length (heap w))%nat →
  ∃ r' w', QueryJsx.sortBooks books sortOrder w = (Returned r', w')
    ∧ elements (heap w') r' = sorted_list sortOrder (elements (heap w) books)
    ∧ (∃ k, heap w' = heap w ++ k)
    ∧ network w' = network w ∧ comp w' = comp w
    ∧ (r' < length (heap w'))%nat.
Proof.
  intros Hr. unfold QueryJsx.sortBooks, sorted_list.
  repeat case_match; rewrite ?sorted_copy;
    (eexists _, _; split; [reflexivity|]); cbn [heap comp network].
  1-4: rewrite elements_alloc, length_app; split; [done|];
       split; [by eexists|]; split; [done|]; split; [done|]; cbn; lia.
  run. split; [done|]. split; [exists []; by rewrite app_nil_r|done].
Qed.
End QueryJsxFilter.

Section QueryJsxController.
Context {rt : Runtime}.
Import QueryJsx.
Implicit Types (w : World State) (c s : State).

Ltac q_run :=
  repeat (progress
    (cbv beta delta [bind ret throw try_catch exec eval console_error
                     new_array read_array write_array fetch json get_state
                     set_state setSearchTerm setResults setFilteredResults
                     setSortedResults setSortOrder setFilterType
                     setFilterValue setSelectedSearchType setNextPageUrl
                     setPrevPageUrl setCurrentPage setIsAuthorYearFilter];
     cbn [fst snd heap network requests console comp
          Page.results Page.next Page.previous Page.count])).

Ltac q_fields :=
  cbn [with_searchTerm with_results with_filteredResults with_sortedResults
       with_sortOrder with_filterType with_filterValue
       with_selectedSearchType with_isAuthorYearFilter with_nextPageUrl
       with_prevPageUrl with_currentPage
       searchTerm results filteredResults sortedResults sortOrder filterType
       filterValue selectedSearchType isAuthorYearFilter nextPageUrl
       prevPageUrl currentPage] in *.

Lemma q_extends_refl w : q_extends w w.
Proof. split; [exists []; by rewrite app_nil_r|done]. Qed.

Lemma q_extends_same w w' :
  heap w' = heap w → network w' = network w → q_extends w w'.
Proof. intros H N. split; [exists []; by rewrite app_nil_r|done]. Qed.

Lemma q_extends_trans w1 w2 w3 :
  q_extends w1 w2 → q_extends w2 w3 → q_extends w1 w3.
Proof.
  intros [[k1 H1] N1] [[k2 H2] N2]. split.
  - exists (k1 ++ k2). by rewrite H2, H1, app_assoc.
  - by rewrite N2.
Qed.

Lemma q_extends_length w w' :
  q_extends w w' → (length (heap w) ≤ length (heap w'))%nat.
Proof. intros [[k ->] _]. rewrite length_app. lia. Qed.

Lemma q_extends_elements w w' r :
  q_extends w w' → (r < length (heap w))%nat →
  elements (heap w') r = elements (heap w) r.
Proof. intros [[k ->] _] Hr. unfold elements. by rewrite lookup_app_l. Qed.

Lemma q_holds_extends w w' r l :
  q_holds w r l → q_extends w w' → q_holds w' r l.
Proof.
  intros [Hr Hl] Hext. split.
  - apply q_extends_length in Hext. lia.
  - by rewrite (q_extends_elements w w').
Qed.

(** [fetchPage] always resolves to a page whose results are a new array. *)
Lemma q_fetchPage_spec url w :
  ∃ n p w', fetchPage url w = (Returned (Page.mk n.1 n.2 p (length (heap w))), w')
    ∧ q_extends w w' ∧ comp w' = comp w
    ∧ (length (heap w) < length (heap w'))%nat.
Proof.
  unfold fetchPage. run.
  destruct (network w url) as [|[|d]]; run.
  - exists (0, None), None. eexists. split; [reflexivity|].
    cbn [heap network comp]. rewrite length_app. cbn.
    split; [split; [by eexists|done]|]. split; [done|lia].
  - exists (0, None), None. eexists. split; [reflexivity|].
    cbn [heap network comp]. rewrite length_app. cbn.
    split; [split; [by eexists|done]|]. split; [done|lia].
  - exists (d_count d, d_next d), (d_previous d). eexists. split; [reflexivity|].
    cbn [heap network comp]. rewrite length_app. cbn.
    split; [split; [by eexists|done]|]. split; [done|lia].
Qed.

(** A handler that asks for a page always returns: the three arrays
    become the new array of the page, or nothing changes but the
    console. *)
Lemma q_handleShowAllBooks_spec s page w :
  ∃ w', handleShowAllBooks s page w = (Returned tt, w')
    ∧ q_extends w w'
    ∧ isAuthorYearFilter (comp w') = isAuthorYearFilter (comp w)
    ∧ results (comp w') = length (heap w)
    ∧ sortedResults (comp w') = length (heap w)
    ∧ filteredResults (comp w') = length (heap w)
    ∧ (length (heap w) < length (heap w'))%nat.
Proof.
  unfold handleShowAllBooks, getBookList.
  destruct (q_fetchPage_spec (listUrl (sortOrder s) page) w)
    as (n & pv & w' & Hf & Hext & Hc & Hlen).
  unfold try_catch, bind at 1. rewrite Hf. q_run.
  eexists. split; [reflexivity|]. cbn [heap network comp]. q_fields.
  destruct Hext as [[k Hk] Hn].
  split; [split; [by eexists|done]|]. by rewrite Hc.
Qed.

Lemma q_handleSearch_spec s page w :
  ∃ w', handleSearch s page w = (Returned tt, w')
    ∧ q_extends w w'
    ∧ isAuthorYearFilter (comp w') = isAuthorYearFilter (comp w)
    ∧ (results (comp w') = length (heap w)
       ∧ sortedResults (comp w') = length (heap w)
       ∧ filteredResults (comp w') = length (heap w)
       ∧ (length (heap w) < length (heap w'))%nat
       ∨ heap w' = heap w ∧ comp w' = comp w).
Proof.
  unfold handleSearch, searchBooks.
  destruct (includes validSearchTypes (selectedSearchType s)); cbn [negb].
  - destruct (q_fetchPage_spec
                (searchUrl (searchTerm s) (selectedSearchType s) (sortOrder s)
                   page) w)
      as (n & pv & w' & Hf & Hext & Hc & Hlen).
    unfold try_catch, bind at 1. rewrite Hf. q_run.
    eexists. split; [reflexivity|]. cbn [heap network comp]. q_fields.
    destruct Hext as [[k Hk] Hn].
    split; [split; [by eexists|done]|]. rewrite Hc. split; [done|]. by left.
  - q_run. eexists. split; [reflexivity|]. cbn [heap network comp].
    split; [by apply q_extends_same|]. split; [done|]. by right.
Qed.

(** The sort effect always returns: when there are results,
    [sortedResults] becomes the array [sortBooks] returns. *)
Lemma q_effectSort_spec c w :
  (results c < length (heap w))%nat →
  ∃ sr w', effectSort c w = (Returned tt, w')
    ∧ q_extends w w'
    ∧ comp w' = with_sortedResults sr (comp w)
    ∧ (elements (heap w) (results c) = [] ∧ sr = sortedResults (comp w)
       ∨ (sr < length (heap w'))%nat
         ∧ elements (heap w') sr
           = sorted_list (sortOrder c) (elements (heap w) (results c))).
Proof.
  intros Hr. unfold effectSort.
  unfold try_catch, bind at 1, read_array at 1.
  case_bool_decide as Hlen.
  - destruct (q_sortBooks_run w (results c) (sortOrder c) Hr)
      as (r' & w' & Heq & Hel & Hk & Hn & Hc & Hv).
    unfold bind at 1. rewrite Heq. q_run.
    exists r'. eexists. split; [reflexivity|]. cbn [heap network comp].
    split; [done|]. split; [by rewrite Hc|]. by right.
  - q_run. exists (sortedResults (comp w)). eexists.
    split; [reflexivity|]. split; [apply q_extends_refl|].
    split; [by destruct (comp w)|]. left.
    split; [|done]. destruct (elements (heap w) (results c)); [done|].
    cbn in Hlen. lia.
Qed.

(** The filter effect returns with the filtered array in
    [filteredResults], or throws what [filterBooks] throws. *)
Lemma q_effectFilter_spec c w :
  (sortedResults c < length (heap w))%nat →
  match q_filtered_list (filterType c) (filterValue c)
          (elements (heap w) (sortedResults c)) with
  | Some l =>
      ∃ f w', effectFilter c w = (Returned tt, w')
        ∧ q_extends w w'
        ∧ comp w' = with_filteredResults f (comp w)
        ∧ q_holds w' f l
  | None => ∃ e, effectFilter c w = (Thrown e, w)
  end.
Proof.
  intros Hs. unfold effectFilter.
  pose proof (q_filterBooks_run w (sortedResults c) (filterType c)
                (filterValue c)) as H.
  destruct (q_filtered_list _ _ _) as [l|].
  - destruct H as (f & w' & Heq & Hel & Hk & Hn & Hc & Hv).
    unfold bind at 1. rewrite Heq. q_run.
    exists f. eexists. split; [reflexivity|]. cbn [heap network comp].
    split; [done|]. split; [by rewrite Hc|]. split; [by apply Hv|done].
  - destruct H as [e Heq]. unfold bind at 1. rewrite Heq. by eexists.
Qed.

(** One round of effects: an effect throws, or [sortedResults] holds the
    sorted results and [filteredResults] holds what the filter keeps of
    the [sortedResults] that was rendered. *)
Lemma q_commit_spec prev w :
  q_pending prev w →
  (∃ e w', commit prev (comp w) w = (Thrown e, w'))
  ∨ ∃ sr f lf w',
      commit prev (comp w) w = (Returned tt, w')
      ∧ q_extends w w'
      ∧ comp w' = with_filteredResults f (with_sortedResults sr (comp w))
      ∧ q_holds w' sr (sorted_list (sortOrder (comp w))
                         (elements (heap w) (results (comp w))))
      ∧ q_holds w' f lf
      ∧ (sr = sortedResults (comp w) →
         q_filtered_list (filterType (comp w)) (filterValue (comp w))
           (elements (heap w) (sortedResults (comp w))) = Some lf)
      ∧ (deps_sort prev = deps_sort (comp w) → sr = sortedResults (comp w)).
Proof.
  intros ((Hr & Hs & Hf) & Hempty & Hsort & Hfilt). unfold commit.
  set (c := comp w) in *.
  assert (∃ wa sr,
            (if bool_decide (deps_sort prev ≠ deps_sort c) then effectSort c
             else ret tt) w = (Returned tt, wa)
            ∧ q_extends w wa
            ∧ comp wa = with_sortedResults sr c
            ∧ q_holds wa sr (sorted_list (sortOrder c)
                               (elements (heap w) (results c)))
            ∧ (deps_sort prev = deps_sort c → sr = sortedResults c))
    as (wa & sr & Ha & Hwa & Hca & Hsr & Hsame).
  { destruct (decide (deps_sort prev = deps_sort c)) as [E|E].
    - rewrite bool_decide_eq_false_2 by tauto.
      exists w, (sortedResults c). split; [done|].
      split; [apply q_extends_refl|]. split; [by destruct (comp w)|].
      split; [|done]. split; [done|]. by apply Hsort.
    - rewrite bool_decide_eq_true_2 by done.
      destruct (q_effectSort_spec c w Hr) as (sr & wa & Heq & Hext & Hc & Hcases).
      exists wa, sr. split; [done|]. split; [done|]. split; [done|].
      split; [|done].
      destruct Hcases as [[He ->]|H]; [|done].
      apply (q_holds_extends w); [|done]. split; [done|].
      rewrite He, sorted_list_nil. by apply Hempty. }
  pose proof (q_extends_length _ _ Hwa) as Hlen.
  destruct (decide (deps_filter prev = deps_filter c)) as [E|E].
  - right.
    exists sr, (filteredResults c), (elements (heap w) (filteredResults c)), wa.
    split.
    { unfold bind. rewrite Ha. by rewrite bool_decide_eq_false_2 by tauto. }
    split; [done|].
    split; [rewrite Hca; by destruct c|]. split; [done|].
    split; [apply (q_holds_extends w); [by split|done]|].
    split; [|done]. intros _. by apply Hfilt.
  - pose proof (q_effectFilter_spec c wa) as H.
    rewrite (q_extends_elements w wa) in H by done.
    destruct (q_filtered_list _ _ _) as [lf|] eqn:Hlf.
    + destruct H as (f & wb & Heq & Hext & Hc & Hh); [lia|].
      right. exists sr, f, lf, wb. split.
      { unfold bind. rewrite Ha. by rewrite bool_decide_eq_true_2 by done. }
      split; [by eapply q_extends_trans|]. split; [by rewrite Hc, Hca|].
      split; [by eapply q_holds_extends|]. done.
    + destruct H as [e Heq]; [lia|]. left. exists e, wa.
      unfold bind. rewrite Ha. by rewrite bool_decide_eq_true_2 by done.
Qed.

Lemma q_pending_at_rest prev w :
  q_pending prev w → comp w = prev → q_at_rest w.
Proof.
  intros (Hwf & _ & Hsort & Hfilt) <-. split; [done|]. split; auto.
Qed.

(** What one round leaves is pending in the next; the sort order and the
    results are those of the render, and so is the flag. *)
Lemma q_round_pending prev w w' :
  q_pending prev w →
  commit prev (comp w) w = (Returned tt, w') →
  q_extends w w'
  ∧ q_pending (comp w) w'
  ∧ deps_sort (comp w) = deps_sort (comp w')
  ∧ isAuthorYearFilter (comp w') = isAuthorYearFilter (comp w)
  ∧ (deps_sort prev = deps_sort (comp w) →
     q_at_rest w' ∧ deps_filter (comp w) = deps_filter (comp w')).
Proof.
  intros Hp Hcommit.
  destruct (q_commit_spec prev w Hp)
    as [(e & w1 & E)|(sr & f & lf & w1 & E & Hext & Hc & Hsr & Hf & Hlf & Hsame)];
    [congruence|].
  assert (w1 = w') as -> by congruence.
  destruct Hp as ((Hr & Hs & Hfr) & Hempty & Hsort & Hfilt).
  set (c := comp w) in *.
  assert (elements (heap w') (results c) = elements (heap w) (results c)) as Hrc
    by by apply q_extends_elements.
  pose proof (q_extends_length _ _ Hext) as Hlen.
  destruct Hsr as [Hsv Hse]. destruct Hf as [Hfv Hfe].
  assert (q_well_formed w' (comp w')) as Hwf.
  { rewrite Hc. unfold q_well_formed. q_fields. repeat split; (done || lia). }
  assert (q_sorted_ok w' (comp w')) as Hso.
  { rewrite Hc. unfold q_sorted_ok. q_fields. by rewrite Hse, Hrc. }
  assert (sr = sortedResults c → q_filtered_ok w' (comp w')) as Hfo.
  { intros ->. rewrite Hc. unfold q_filtered_ok. q_fields.
    rewrite (q_extends_elements w w') by done. rewrite Hfe. by apply Hlf. }
  split; [done|]. split; [|split; [|split]].
  - split; [done|]. split; [|split].
    + rewrite Hc. q_fields. rewrite Hse, Hrc. intros ->. apply sorted_list_nil.
    + done.
    + intros Ed. apply Hfo. rewrite Hc in Ed. unfold deps_filter in Ed.
      q_fields. congruence.
  - rewrite Hc. unfold deps_sort. by q_fields.
  - rewrite Hc. by q_fields.
  - intros Ed. specialize (Hsame Ed). split.
    + split; [done|]. split; [done|]. by apply Hfo.
    + rewrite Hc. unfold deps_filter. q_fields. by rewrite Hsame.
Qed.

(** With the dependencies of both effects unchanged nothing happens. *)
Lemma q_settle_stable n prev w :
  deps_sort prev = deps_sort (comp w) →
  deps_filter prev = deps_filter (comp w) →
  settle n prev w = Some w.
Proof.
  intros Es Ef.
  assert (commit prev (comp w) w = (Returned tt, w)) as E.
  { unfold commit. by rewrite !bool_decide_eq_false_2 by tauto. }
  destruct n as [|n]; cbn [settle]; [by destruct (bool_decide _)|].
  destruct (bool_decide _); [done|]. rewrite E.
  destruct n; cbn [settle]; by rewrite bool_decide_eq_true_2.
Qed.

Lemma q_settles_in_1 prev w :
  q_pending prev w → deps_sort prev = deps_sort (comp w) →
  q_settles_in 1 prev w.
Proof.
  intros Hp Es. destruct (decide (comp w = prev)) as [E|E].
  { exists (Some w). split.
    - intros n. cbn [Nat.add settle]. by rewrite bool_decide_eq_true_2.
    - intros wf [= <-]. split; [by eapply q_pending_at_rest|].
      split; [apply q_extends_refl|done]. }
  destruct (commit prev (comp w) w) as [[[]|e] w'] eqn:Hcommit.
  - destruct (q_round_pending prev w w' Hp Hcommit)
      as (Hext & _ & Hds & Hay & Hrest).
    destruct (Hrest Es) as [Hat Hdf].
    exists (Some w'). split.
    + intros n. cbn [Nat.add settle]. rewrite bool_decide_eq_false_2 by done.
      rewrite Hcommit. by apply q_settle_stable.
    + by intros wf [= <-].
  - exists None. split; [|done].
    intros n. cbn [Nat.add settle]. rewrite bool_decide_eq_false_2 by done.
    by rewrite Hcommit.
Qed.

Lemma q_settles_in_2 prev w : q_pending prev w → q_settles_in 2 prev w.
Proof.
  intros Hp. destruct (decide (comp w = prev)) as [E|E].
  { exists (Some w). split.
    - intros n. cbn [Nat.add settle]. by rewrite bool_decide_eq_true_2.
    - intros wf [= <-]. split; [by eapply q_pending_at_rest|].
      split; [apply q_extends_refl|done]. }
  destruct (commit prev (comp w) w) as [[[]|e] w'] eqn:Hcommit.
  - destruct (q_round_pending prev w w' Hp Hcommit)
      as (Hext & Hp' & Hds & Hay & _).
    destruct (q_settles_in_1 _ _ Hp' Hds) as (r & Hr & Hwf).
    exists r. split.
    + intros n. rewrite <- (Hr n). cbn [Nat.add].
      change (settle (S (S n)) prev w)
        with (if bool_decide (comp w = prev) then Some w
              else match commit prev (comp w) w with
                   | (Returned _, w1) => settle (S n) (comp w) w1
                   | (Thrown _, _) => None
                   end).
      rewrite bool_decide_eq_false_2 by done. by rewrite Hcommit.
    + intros wf Hwfr. destruct (Hwf wf Hwfr) as (Hat & Hext' & Hay').
      split; [done|]. split; [by eapply q_extends_trans|]. by rewrite Hay'.
  - exists None. split; [|done].
    intros n. cbn [Nat.add settle]. rewrite bool_decide_eq_false_2 by done.
    by rewrite Hcommit.
Qed.

(** An edit of the form leaves the arrays as they are. *)
Lemma q_pending_edit w c' :
  q_at_rest w →
  results c' = results (comp w) →
  sortedResults c' = sortedResults (comp w) →
  filteredResults c' = filteredResults (comp w) →
  q_pending (comp w)
    (mkWorld (heap w) (network w) (requests w) (console w) c').
Proof.
  intros (Hwf & Hso & Hfo) Er Es Ef.
  unfold q_pending, q_well_formed, q_sorted_ok, q_filtered_ok, deps_sort,
    deps_filter in *. cbn [heap comp] in *. rewrite Er, Es, Ef.
  split; [done|]. split; [|split].
  - rewrite Hso. intros ->. apply sorted_list_nil.
  - intros E. assert (sortOrder c' = sortOrder (comp w)) as -> by congruence.
    done.
  - intros E. assert (filterType c' = filterType (comp w)) as -> by congruence.
    assert (filterValue c' = filterValue (comp w)) as -> by congruence.
    done.
Qed.

Lemma q_pending_same w : q_at_rest w → q_pending (comp w) w.
Proof.
  intros (Hwf & Hso & Hfo). split; [done|]. split; [|done].
  unfold q_sorted_ok in Hso. rewrite Hso. intros ->. apply sorted_list_nil.
Qed.

Lemma q_pending_fetched w w' :
  q_at_rest w → q_extends w w' →
  results (comp w') = length (heap w) →
  sortedResults (comp w') = length (heap w) →
  filteredResults (comp w') = length (heap w) →
  (length (heap w) < length (heap w'))%nat →
  q_pending (comp w) w'.
Proof.
  intros ((Hr & Hs & Hf) & _) Hext Er Es Ef Hlen.
  unfold q_pending, q_well_formed, q_sorted_ok, q_filtered_ok, deps_sort,
    deps_filter. cbn zeta. rewrite Er, Es, Ef.
  split; [done|]. split; [done|].
  split; intros E; exfalso; inversion E; lia.
Qed.

Lemma q_pending_console w w' :
  q_at_rest w → heap w' = heap w → comp w' = comp w → q_pending (comp w) w'.
Proof.
  intros Hrest Hh Hc. destruct (q_pending_same w Hrest) as (Hwf & He & Hs & Hf).
  unfold q_pending, q_well_formed, q_sorted_ok, q_filtered_ok in *.
  cbn zeta in *. by rewrite Hh, Hc.
Qed.

Lemma q_page_pending w w' :
  q_at_rest w → q_extends w w' →
  (results (comp w') = length (heap w)
   ∧ sortedResults (comp w') = length (heap w)
   ∧ filteredResults (comp w') = length (heap w)
   ∧ (length (heap w) < length (heap w'))%nat
   ∨ heap w' = heap w ∧ comp w' = comp w) →
  q_pending (comp w) w'.
Proof.
  intros Hrest Hext [(Er & Es & Ef & Hlen)|[Hh Hc]].
  - by apply q_pending_fetched.
  - by apply q_pending_console.
Qed.

(** Every handler returns, and what it leaves is pending. *)
Lemma q_handle_pending ev w :
  q_at_rest w →
  ∃ w', handle ev (comp w) w = (Returned tt, w')
    ∧ q_extends w w' ∧ q_pending (comp w) w'.
Proof.
  intros Hrest.
  assert (∀ s page, ∃ w', handleSearch s page w = (Returned tt, w')
            ∧ q_extends w w' ∧ q_pending (comp w) w') as Hsearch.
  { intros s page.
    destruct (q_handleSearch_spec s page w) as (w' & E & Hext & _ & Hcases).
    exists w'. split; [done|]. split; [done|]. by apply q_page_pending. }
  assert (∀ s page, ∃ w', handleShowAllBooks s page w = (Returned tt, w')
            ∧ q_extends w w' ∧ q_pending (comp w) w') as Hall.
  { intros s page.
    destruct (q_handleShowAllBooks_spec s page w)
      as (w' & E & Hext & _ & Er & Es & Ef & Hlen).
    exists w'. split; [done|]. split; [done|]. by apply q_pending_fetched. }
  assert (∃ w', ret tt w = (Returned tt, w')
            ∧ q_extends w w' ∧ q_pending (comp w) w') as Hnone.
  { exists w. split; [done|]. split; [apply q_extends_refl|].
    by apply q_pending_same. }
  assert (∀ f : State → State,
            results (f (comp w)) = results (comp w) →
            sortedResults (f (comp w)) = sortedResults (comp w) →
            filteredResults (f (comp w)) = filteredResults (comp w) →
            ∃ w', set_state f w = (Returned tt, w')
              ∧ q_extends w w' ∧ q_pending (comp w) w') as Hedit.
  { intros f Er Es Ef. eexists. split; [reflexivity|].
    split; [by apply q_extends_same|]. by apply q_pending_edit. }
  destruct ev; cbn [handle]; try done;
    try (by apply Hedit).
  - destruct (String.eqb _ _); [by apply Hedit|done].
  - destruct (String.eqb _ _); [|done].
    unfold bind, setFilterValue, setIsAuthorYearFilter, set_state.
    cbn [heap network requests console comp].
    eexists. split; [reflexivity|].
    split; [by apply q_extends_same|]. by apply q_pending_edit.
  - unfold handlePreviousPage. repeat case_match; done.
  - unfold handleNextPage. repeat case_match; done.
Qed.

(** After an event the component comes to rest, unless an effect throws. *)
Lemma q_react_at_rest ev w w' :
  q_at_rest w → react enough ev w = Some w' → q_at_rest w'.
Proof.
  intros Hrest. unfold react. cbn zeta.
  destruct (q_handle_pending ev w Hrest) as (w1 & -> & _ & Hp).
  destruct (q_settles_in_2 _ _ Hp) as (r & Hr & Hwf).
  change enough with (2 + 2)%nat. rewrite (Hr 2%nat).
  intros H. by destruct (Hwf _ H).
Qed.


Lemma q_mount_at_rest net w :
  mount enough (initialWorld net) = Some w → q_at_rest w.
Proof.
  unfold mount. cbn zeta.
  assert (∃ w1, (effectSort initialState ;; effectFilter initialState)
                  (initialWorld net) = (Returned tt, w1)
                ∧ q_pending initialState w1) as (w1 & E & Hp).
  { eexists. split; [reflexivity|].
    unfold q_pending, q_well_formed, q_sorted_ok, q_filtered_ok, deps_sort,
      deps_filter. cbn. repeat split; try lia; done. }
  change (comp (initialWorld net)) with initialState. rewrite E.
  destruct (q_settles_in_2 _ _ Hp) as (r & Hr & Hwf).
  change enough with (2 + 2)%nat. rewrite (Hr 2%nat).
  intros H. by destruct (Hwf _ H).
Qed.

Lemma q_serial_at_rest w : q_serial w → q_at_rest w.
Proof.
  induction 1 as [net w Hm|w ev w' _ IH Hr|w net _ IH].
  - by eapply q_mount_at_rest.
  - by eapply q_react_at_rest.
  - done.
Qed.


End QueryJsxController.
(** ** The claims on the controller *)

Section ControllerClaims.
Context {rt : Runtime}.


End ControllerClaims.

Section Pagination.
Ltac run_handlers :=
  repeat (progress
    (cbv beta delta [bind ret throw try_catch exec eval console_error
                     new_array read_array write_array fetch json get_state
                     set_state Part001.is_empty
                     Part001.setResults Part001.setFilteredResults
                     Part001.setSortedResults Part001.setNextPageUrl
                     Part001.setPrevPageUrl Part001.setCurrentPage
                     Part001.setIsLoading Part001.setMessage
                     QueryJsx.setResults QueryJsx.setFilteredResults
                     QueryJsx.setSortedResults QueryJsx.setNextPageUrl
                     QueryJsx.setPrevPageUrl QueryJsx.setCurrentPage];
     cbn [fst snd heap network requests console comp
          Page.results Page.next Page.previous Page.count])).

Lemma part001_listing_request s page (w : World Part001.State) :
  requests (exec (Part001.handleShowAllBooks s page) w)
  = requests w ++ [QueryJsx.listUrl (Part001.sortOrder s) page]
  ∧ Part001.currentPage (comp (exec (Part001.handleShowAllBooks s page) w)) = page.
Proof.
  unfold Part001.handleShowAllBooks, Part001.getBookList, QueryJsx.getBookList,
    QueryJsx.fetchPage.
  run_handlers. by destruct (network w _) as [|[|d]]; run_handlers.
Qed.

Lemma part001_search_request s page (w : World Part001.State) :
  Part001.selectedSearchType s ∈ QueryJsx.validSearchTypes →
  requests (exec (Part001.handleSearch s page) w)
  = requests w
    ++ [QueryJsx.searchUrl (Part001.searchTerm s) (Part001.selectedSearchType s)
          (Part001.sortOrder s) page]
  ∧ Part001.currentPage (comp (exec (Part001.handleSearch s page) w)) = page.
Proof.
  intros H. apply includes_true in H.
  unfold Part001.handleSearch, Part001.searchBooks, QueryJsx.searchBooks,
    QueryJsx.fetchPage.
  rewrite H. cbn [negb]. run_handlers.
  destruct (network w _) as [|[|d]]; run_handlers;
    by match goal with |- context [if ?b then _ else _] => destruct b end.
Qed.

Lemma queryjsx_listing_request s page (w : World QueryJsx.State) :
  requests (exec (QueryJsx.handleShowAllBooks s page) w)
  = requests w ++ [QueryJsx.listUrl (QueryJsx.sortOrder s) page]
  ∧ QueryJsx.currentPage (comp (exec (QueryJsx.handleShowAllBooks s page) w)) = page.
Proof.
  unfold QueryJsx.handleShowAllBooks, QueryJsx.getBookList, QueryJsx.fetchPage.
  run_handlers. by destruct (network w _) as [|[|d]]; run_handlers.
Qed.

Lemma queryjsx_search_request s page (w : World QueryJsx.State) :
  QueryJsx.selectedSearchType s ∈ QueryJsx.validSearchTypes →
  requests (exec (QueryJsx.handleSearch s page) w)
  = requests w
    ++ [QueryJsx.searchUrl (QueryJsx.searchTerm s) (QueryJsx.selectedSearchType s)
          (QueryJsx.sortOrder s) page]
  ∧ QueryJsx.currentPage (comp (exec (QueryJsx.handleSearch s page) w)) = page.
Proof.
  intros H. apply includes_true in H.
  unfold QueryJsx.handleSearch, QueryJsx.searchBooks, QueryJsx.fetchPage.
  rewrite H. cbn [negb]. run_handlers.
  by destruct (network w _) as [|[|d]]; run_handlers.
Qed.

(** C9: in part_001 and in Query.jsx, without a cursor the page handlers do
    nothing at all; with one (a non-empty URL) they run the search, when a
    search term is set, or the listing, for the page after or before the
    current one: that page is requested and becomes the current page. *)
Theorem pagination_guarded_by_cursor
    (s : Part001.State) (w : World Part001.State)
    (s' : QueryJsx.State) (w' : World QueryJsx.State) :
  pages_by_cursor Part001.nextPageUrl Part001.searchTerm
    Part001.selectedSearchType Part001.sortOrder Part001.currentPage 1
    Part001.handleNextPage Part001.handleSearch Part001.handleShowAllBooks s w
  ∧ pages_by_cursor Part001.prevPageUrl Part001.searchTerm
      Part001.selectedSearchType Part001.sortOrder Part001.currentPage (-1)
      Part001.handlePreviousPage Part001.handleSearch Part001.handleShowAllBooks
      s w
  ∧ pages_by_cursor QueryJsx.nextPageUrl QueryJsx.searchTerm
      QueryJsx.selectedSearchType QueryJsx.sortOrder QueryJsx.currentPage 1
      QueryJsx.handleNextPage QueryJsx.handleSearch QueryJsx.handleShowAllBooks
      s' w'
  ∧ pages_by_cursor QueryJsx.prevPageUrl QueryJsx.searchTerm
      QueryJsx.selectedSearchType QueryJsx.sortOrder QueryJsx.currentPage (-1)
      QueryJsx.handlePreviousPage QueryJsx.handleSearch
      QueryJsx.handleShowAllBooks s' w'.
Proof.
  unfold pages_by_cursor, Part001.handleNextPage, Part001.handlePreviousPage,
    QueryJsx.handleNextPage, QueryJsx.handlePreviousPage.
  split; [|split; [|split]];
    (split; [by intros ->|]);
    intros u -> Hu; cbn [truthy]; rewrite (falsy_nonempty u Hu); cbn [negb];
    (split; [intros Ht; apply String.eqb_neq in Ht
            |intros Ht]);
    unfold exec; rewrite Ht; cbn [String.eqb negb]; (split; [done|]);
    first [apply part001_search_request | apply part001_listing_request
          | apply queryjsx_search_request | apply queryjsx_listing_request].
Qed.
End Pagination.

(** ** Counterexamples to the claims as they are stated *)

(** C1 as stated fails.  In part_001 the empty filter value keeps a record
    that has no author.  In Query.jsx only the first author counts: the
    record whose authors span 1800 to 1950 is dropped for 1825, and a record
    without author makes the filter throw. *)
Lemma author_year_filter_counterexample :
  Part001.filterBooks (rt := demo_runtime) 0%nat "author_year" ""
    (shelf [[book_anonymous]])
  = (Returned 0%nat, shelf [[book_anonymous]])
  ∧ authors book_anonymous = Some []
  ∧ in_author_years (ToNumber (Runtime := demo_runtime) "1825") book_two_authors
    = true
  ∧ QueryJsx.filterBooks (rt := demo_runtime) 0%nat "author_year" "1825"
      (shelf [[book_two_authors]])
    = (Returned 1%nat, shelf [[book_two_authors]; []])
  ∧ QueryJsx.filterBooks (rt := demo_runtime) 0%nat "author_year" "1825"
      (shelf [[book_anonymous]])
    = (Thrown (TypeError "Cannot read properties of undefined (reading 'birth_year')"),
       shelf [[book_anonymous]]).
Proof. repeat split; vm_compute; reflexivity. Qed.



(** With the sort type ['chronological'] and a record without a valid date
    the comparator of part_000 is not consistent, and filtering first can
    even publish another sequence than sorting first (which sequence a
    JavaScript engine gives for such a comparator is its own choice; this is
    the one of the insertion sort). *)
Remark part000_chronological_order_differs :
  elements
    (heap (exec (Part000.effectDerive (rt := demo_runtime) (comp demo_part000_dates))
             demo_part000_dates)) 3%nat
  = [released (Some 1) book_two_authors; released (Some 2) book_1800_1850]
  ∧ eval (sorted <- Part000.sortBooks (rt := demo_runtime) 0%nat "chronological" ;;
          filtered <- Part000.filterBooks sorted "language" "en" ;;
          read_array filtered) demo_part000_dates
    = Returned [released (Some 2) book_1800_1850; released (Some 1) book_two_authors].
Proof. split; vm_compute; reflexivity. Qed.

(** C2 fails as well when replies overlap.  In [overlapped] the reply to a
    second click arrives between a render and the effects of that render:
    those effects then sort and filter the page they were rendered with, the
    sort effect of the next render finds no results and leaves
    [sortedResults] as it is, and the component comes to rest with no
    results and two books in [filteredResults]. *)
Remark overlapping_replies_leave_stale_list :
  ∃ sys, overlapped = Some sys
    ∧ asynchronous (rt := demo_runtime) sys
    ∧ Part001.quiescent sys
    ∧ elements (heap (Part001.world sys))
        (Part001.results (comp (Part001.world sys))) = []
    ∧ elements (heap (Part001.world sys))
        (Part001.filteredResults (comp (Part001.world sys)))
      = [book_living; book_french]
    ∧ ¬ publishes_sorted_then_filtered (rt := demo_runtime) (Part001.world sys).
Proof.
  eexists. split; [vm_compute; reflexivity|].
  split; [exists demo_catalog, overlap_steps; vm_compute; reflexivity|].
  split; [repeat split; vm_compute; reflexivity|].
  split; [vm_compute; reflexivity|]. split; [vm_compute; reflexivity|].
  unfold publishes_sorted_then_filtered. vm_compute. discriminate.
Qed.


Lemma demo_q_language_serial : q_serial (rt := demo_runtime) demo_q_language.
Proof.
  apply (q_serial_react demo_q_listed (QueryJsx.ChangeFilterType "language"));
    [|vm_compute; reflexivity].
  apply (q_serial_react demo_q_mounted QueryJsx.ClickShowAllBooks);
    [|vm_compute; reflexivity].
  apply (q_serial_mount demo_catalog_paged). vm_compute. reflexivity.
Qed.

Lemma demo_q_english_serial : q_serial (rt := demo_runtime) demo_q_english.
Proof.
  apply (q_serial_react demo_q_language (QueryJsx.ChangeLanguage "en"));
    [exact demo_q_language_serial|vm_compute; reflexivity].
Qed.

(** In Query.jsx the list on display is not the filtered one while the flag
    [isAuthorYearFilter] is not set: with the language filter on English
    the French book stays on display. *)
Remark queryjsx_displays_sorted_unfiltered :
  q_serial (rt := demo_runtime) demo_q_english
  ∧ QueryJsx.filterType (comp demo_q_english) = "language"
  ∧ QueryJsx.filterValue (comp demo_q_english) = "en"
  ∧ QueryJsx.isAuthorYearFilter (comp demo_q_english) = false
  ∧ elements (heap demo_q_english)
      (QueryJsx.filteredResults (comp demo_q_english)) = [book_living]
  ∧ elements (heap demo_q_english)
      (QueryJsx.displayList (comp demo_q_english)) = [book_living; book_french].
Proof.
  split; [exact demo_q_english_serial|]. repeat split; vm_compute; reflexivity.
Qed.

(** C4 as stated fails on part_000: when the transport fails its
    [getBookList] resolves to an empty array, not to a page object. *)
Lemma part000_fallback_is_bare_array :
  Part000.getBookList "popular" (blank (λ _, Unreachable) tt)
  = (Returned 0%nat,
     mkWorld [[]] (λ _, Unreachable)
       ["https://www.gutendex.com/books?sort=popular"]
       ["Error getting the list of books:"] tt).
Proof. reflexivity. Qed.

(** ** The theorems at concrete inputs *)

Lemma author_year_filter_in_range_witness :
  "1825" ≠ "" ∧ "1900" ≠ ""
  ∧ elements
      (heap (exec (Part001.filterBooks (rt := demo_runtime) 0%nat "author_year" "1825")
               (shelf [[book_1800_1850]]))) 1%nat
    = [book_1800_1850]
  ∧ elements
      (heap (exec (Part001.filterBooks (rt := demo_runtime) 0%nat "author_year" "1900")
               (shelf [[book_1800_1850]]))) 1%nat
    = [].
Proof.
  assert ("1825" ≠ "") as H1 by discriminate.
  assert ("1900" ≠ "") as H2 by discriminate.
  split; [exact H1|]. split; [exact H2|].
  destruct (author_year_filter_in_range (rt := demo_runtime)
              (shelf [[book_1800_1850]]) 0%nat "1825" H1) as [E1 _].
  destruct (author_year_filter_in_range (rt := demo_runtime)
              (shelf [[book_1800_1850]]) 0%nat "1900" H2) as [E2 _].
  unfold exec. rewrite E1, E2. split; reflexivity.
Defined.



Lemma failure_yields_empty_page_witness :
  fails (blank (λ _, Unreachable) tt) (QueryJsx.listUrl "popular" 1)
  ∧ (∃ r, eval (QueryJsx.getBookList "popular" 1) (blank (λ _, Unreachable) tt)
          = Returned (Page.mk 0 None None r)
          ∧ elements (heap (exec (QueryJsx.getBookList "popular" 1)
                              (blank (λ _, Unreachable) tt))) r = [])
  ∧ "topic" ∈ QueryJsx.validSearchTypes
  ∧ fails (blank (λ _, Unreachable) tt)
      (QueryJsx.searchUrl "fairy tales" "topic" "popular" 1)
  ∧ (∃ r, eval (QueryJsx.searchBooks "fairy tales" "topic" "popular" 1)
            (blank (λ _, Unreachable) tt)
          = Returned (Page.mk 0 None None r)
          ∧ elements (heap (exec (QueryJsx.searchBooks "fairy tales" "topic" "popular" 1)
                              (blank (λ _, Unreachable) tt))) r = [])
  ∧ fails (blank (λ _, Unreachable) tt) (Part000.listUrl "popular")
  ∧ (∃ r, eval (Part000.getBookList "popular") (blank (λ _, Unreachable) tt)
          = Returned r
          ∧ elements (heap (exec (Part000.getBookList "popular")
                              (blank (λ _, Unreachable) tt))) r = [])
  ∧ "topic" ∈ Part000.validSearchTypes
  ∧ fails (blank (λ _, Unreachable) tt) (Part000.searchUrl "fairy tales" "popular")
  ∧ (∃ r, eval (Part000.searchBooks "fairy tales" "topic" "popular")
            (blank (λ _, Unreachable) tt)
          = Returned r
          ∧ elements (heap (exec (Part000.searchBooks "fairy tales" "topic" "popular")
                              (blank (λ _, Unreachable) tt))) r = []).
Proof.
  assert (∀ url, fails (blank (λ _, Unreachable) tt) url) as Hf
    by (intros url; left; reflexivity).
  assert ("topic" ∈ QueryJsx.validSearchTypes) as Hq
    by (apply includes_true; reflexivity).
  assert ("topic" ∈ Part000.validSearchTypes) as Hp
    by (apply includes_true; reflexivity).
  destruct (failure_yields_empty_page (blank (λ _, Unreachable) tt)
              "fairy tales" "topic" "popular" 1)
    as (_ & L & S & _ & L0 & S0).
  split; [apply Hf|]. split; [exact (L (Hf _))|].
  split; [exact Hq|]. split; [apply Hf|].
  split; [exact (proj2 (S Hq) (Hf _))|].
  split; [apply Hf|]. split; [exact (L0 (Hf _))|].
  split; [exact Hp|]. split; [apply Hf|].
  exact (proj2 (S0 Hp) (Hf _)).
Defined.

Lemma invalid_search_type_rejected_witness :
  ("bogus" ∉ QueryJsx.validSearchTypes)
  ∧ QueryJsx.searchBooks "fairy tales" "bogus" "popular" 1 (blank demo_catalog tt)
    = (Thrown (Reason "Invalid search type."),
       exec (console_error "Invalid search type.") (blank demo_catalog tt))
  ∧ requests (exec (QueryJsx.searchBooks "fairy tales" "bogus" "popular" 1)
                (blank demo_catalog tt)) = []
  ∧ ("bogus" ∉ Part000.validSearchTypes)
  ∧ Part000.searchBooks "fairy tales" "bogus" "popular" (blank demo_catalog tt)
    = (Thrown (Reason "Invalid search type."),
       exec (console_error "Invalid search type.") (blank demo_catalog tt))
  ∧ requests (exec (Part000.searchBooks "fairy tales" "bogus" "popular")
                (blank demo_catalog tt)) = []
  ∧ "topic" ∈ QueryJsx.validSearchTypes
  ∧ requests (exec (QueryJsx.searchBooks "fairy tales" "topic" "popular" 1)
                (blank demo_catalog tt))
    = ["https://gutendex.com/books?topic=fairy%20tales&sort=popular&page=1"]
  ∧ "topic" ∈ Part000.validSearchTypes
  ∧ requests (exec (Part000.searchBooks "fairy tales" "topic" "popular")
                (blank demo_catalog tt))
    = ["https://www.gutendex.com/books?search=fairy%20tales&sort=popular"].
Proof.
  assert ("bogus" ∉ QueryJsx.validSearchTypes) as Hq
    by (apply includes_false; reflexivity).
  assert ("bogus" ∉ Part000.validSearchTypes) as Hp
    by (apply includes_false; reflexivity).
  assert ("topic" ∈ QueryJsx.validSearchTypes) as Hq'
    by (apply includes_true; reflexivity).
  assert ("topic" ∈ Part000.validSearchTypes) as Hp'
    by (apply includes_true; reflexivity).
  destruct (invalid_search_type_rejected (blank demo_catalog tt)
              "fairy tales" "bogus" "popular" 1)
    as (R & _ & R0 & _).
  destruct (invalid_search_type_rejected (blank demo_catalog tt)
              "fairy tales" "topic" "popular" 1)
    as (_ & A & _ & A0).
  split; [exact Hq|]. split; [exact (proj1 (R Hq))|].
  split; [exact (proj2 (R Hq))|].
  split; [exact Hp|]. split; [exact (proj1 (R0 Hp))|].
  split; [exact (proj2 (R0 Hp))|].
  split; [exact Hq'|]. split; [exact (A Hq')|].
  split; [exact Hp'|]. exact (A0 Hp').
Defined.

Lemma sortBooks_new_array_stable_witness :
  consistent demo_localeCompare
  ∧ is_Some (heap (shelf [[book_two_authors; book_anonymous; book_1800_1850]]) !! 0%nat)
  ∧ "alphabetical" ∈ supportedSortOrders
  ∧ (∃ sorted,
       eval (QueryJsx.sortBooks (rt := demo_runtime) 0%nat "alphabetical")
         (shelf [[book_two_authors; book_anonymous; book_1800_1850]])
       = Returned sorted
       ∧ sorted ≠ 0%nat
       ∧ elements
           (heap (exec (QueryJsx.sortBooks (rt := demo_runtime) 0%nat "alphabetical")
                    (shelf [[book_two_authors; book_anonymous; book_1800_1850]])))
           0%nat
         = [book_two_authors; book_anonymous; book_1800_1850])
  ∧ "alphabetical" ≠ "" ∧ "alphabetical" ≠ "chronological"
  ∧ (∃ sorted,
       eval (Part000.sortBooks (rt := demo_runtime) 0%nat "alphabetical")
         (shelf [[book_two_authors; book_anonymous; book_1800_1850]])
       = Returned sorted
       ∧ sorted ≠ 0%nat
       ∧ elements
           (heap (exec (Part000.sortBooks (rt := demo_runtime) 0%nat "alphabetical")
                    (shelf [[book_two_authors; book_anonymous; book_1800_1850]])))
           0%nat
         = [book_two_authors; book_anonymous; book_1800_1850]).
Proof.
  assert (is_Some (heap (shelf [[book_two_authors; book_anonymous; book_1800_1850]])
                   !! 0%nat)) as Hb by (eexists; reflexivity).
  assert ("alphabetical" ∈ supportedSortOrders) as Hs
    by (apply includes_true; reflexivity).
  assert ("alphabetical" ≠ "") as H1 by discriminate.
  assert ("alphabetical" ≠ "chronological") as H2 by discriminate.
  destruct (sortBooks_new_array_stable (rt := demo_runtime)
              (shelf [[book_two_authors; book_anonymous; book_1800_1850]])
              0%nat "alphabetical" demo_localeCompare_consistent Hb) as [Q P].
  split; [exact demo_localeCompare_consistent|]. split; [exact Hb|].
  split; [exact Hs|]. split.
  { destruct (Q Hs) as (sorted & E & Hne & _ & Hframe & _).
    exists sorted. split; [exact E|]. split; [exact Hne|].
    exact (f_equal (default []) (Hframe 0%nat _ eq_refl)). }
  split; [exact H1|]. split; [exact H2|].
  destruct (P H1 H2) as (sorted & E & Hne & _ & Hframe & _).
  exists sorted. split; [exact E|]. split; [exact Hne|].
  exact (f_equal (default []) (Hframe 0%nat _ eq_refl)).
Defined.

Lemma pagination_guarded_by_cursor_witness :
  Part001.prevPageUrl (comp demo_ready) = None
  ∧ Part001.handlePreviousPage (comp demo_ready) demo_ready = (Returned tt, demo_ready)
  ∧ Part001.nextPageUrl (comp demo_ready) = Some "https://gutendex.com/books?page=2"
  ∧ Part001.searchTerm (comp demo_ready) ≠ ""
  ∧ Part001.selectedSearchType (comp demo_ready) ∈ QueryJsx.validSearchTypes
  ∧ requests (exec (Part001.handleNextPage (comp demo_ready)) demo_ready)
    = requests demo_ready
      ++ ["https://gutendex.com/books?search=poems&sort=descending_popular&page=2"]
  ∧ Part001.currentPage (comp (exec (Part001.handleNextPage (comp demo_ready)) demo_ready))
    = 2
  ∧ QueryJsx.nextPageUrl (comp demo_queryjsx) = None
  ∧ QueryJsx.handleNextPage (comp demo_queryjsx) demo_queryjsx
    = (Returned tt, demo_queryjsx)
  ∧ QueryJsx.prevPageUrl (comp demo_queryjsx) = Some "https://gutendex.com/books?page=1"
  ∧ requests (exec (QueryJsx.handlePreviousPage (comp demo_queryjsx)) demo_queryjsx)
    = ["https://gutendex.com/books?search=poems&sort=descending_popular&page=1"]
  ∧ QueryJsx.currentPage
      (comp (exec (QueryJsx.handlePreviousPage (comp demo_queryjsx)) demo_queryjsx))
    = 1.
Proof.
  assert (Part001.prevPageUrl (comp demo_ready) = None) as Hp
    by (vm_compute; reflexivity).
  assert (Part001.nextPageUrl (comp demo_ready)
          = Some "https://gutendex.com/books?page=2") as Hn
    by (vm_compute; reflexivity).
  assert ("https://gutendex.com/books?page=2" ≠ "") as Hu by discriminate.
  assert (Part001.searchTerm (comp demo_ready) ≠ "") as Ht
    by (vm_compute; discriminate).
  assert (Part001.selectedSearchType (comp demo_ready) ∈ QueryJsx.validSearchTypes)
    as Hv by (apply includes_true; vm_compute; reflexivity).
  assert (QueryJsx.nextPageUrl (comp demo_queryjsx) = None) as Hn' by reflexivity.
  assert (QueryJsx.prevPageUrl (comp demo_queryjsx)
          = Some "https://gutendex.com/books?page=1") as Hp' by reflexivity.
  assert ("https://gutendex.com/books?page=1" ≠ "") as Hu' by discriminate.
  assert (QueryJsx.searchTerm (comp demo_queryjsx) ≠ "") as Ht' by discriminate.
  assert (QueryJsx.selectedSearchType (comp demo_queryjsx)
          ∈ QueryJsx.validSearchTypes) as Hv' by (apply includes_true; reflexivity).
  destruct (pagination_guarded_by_cursor (comp demo_ready) demo_ready
              (comp demo_queryjsx) demo_queryjsx) as (N & P & N' & P').
  destruct (proj1 (proj2 N _ Hn Hu) Ht) as [_ Hreq].
  destruct (proj1 (proj2 P' _ Hp' Hu') Ht') as [_ Hreq'].
  split; [exact Hp|]. split; [exact (proj1 P Hp)|].
  split; [exact Hn|]. split; [exact Ht|]. split; [exact Hv|].
  split; [exact (proj1 (Hreq Hv))|]. split; [exact (proj2 (Hreq Hv))|].
  split; [exact Hn'|]. split; [exact (proj1 N' Hn')|].
  split; [exact Hp'|].
  split; [exact (proj1 (Hreq' Hv'))|]. exact (proj2 (Hreq' Hv')).
Defined.

Lemma author_year_reads_first_author_witness :
  "1825" ≠ ""
  ∧ Exists no_first_author
      (elements (heap (shelf [[book_1800_1850; book_anonymous]])) 0%nat)
  ∧ (∃ msg, QueryJsx.filterBooks (rt := demo_runtime) 0%nat "author_year" "1825"
              (shelf [[book_1800_1850; book_anonymous]])
            = (Thrown (TypeError msg), shelf [[book_1800_1850; book_anonymous]]))
  ∧ Forall (λ b, ¬ no_first_author b)
      (elements (heap (shelf [[book_1800_1850; book_two_authors]])) 0%nat)
  ∧ QueryJsx.filterBooks (rt := demo_runtime) 0%nat "author_year" "1825"
      (shelf [[book_1800_1850; book_two_authors]])
    = (Returned 1%nat,
       shelf [[book_1800_1850; book_two_authors]; [book_1800_1850]]).
Proof.
  assert ("1825" ≠ "") as Hv by discriminate.
  assert (Exists no_first_author
            (elements (heap (shelf [[book_1800_1850; book_anonymous]])) 0%nat)) as He.
  { apply Exists_cons_tl, Exists_cons_hd. by right. }
  assert (Forall (λ b, ¬ no_first_author b)
            (elements (heap (shelf [[book_1800_1850; book_two_authors]])) 0%nat))
    as Hf.
  { repeat constructor; intros [H|H]; discriminate H. }
  destruct (author_year_reads_first_author (rt := demo_runtime)
              (shelf [[book_1800_1850; book_anonymous]]) 0%nat "1825" Hv)
    as (T & _ & _).
  destruct (author_year_reads_first_author (rt := demo_runtime)
              (shelf [[book_1800_1850; book_two_authors]]) 0%nat "1825" Hv)
    as (_ & R & _).
  split; [exact Hv|]. split; [exact He|]. split; [exact (T He)|].
  split; [exact Hf|]. rewrite (R Hf). reflexivity.
Defined.

(** * Further properties of the code *)

(** ** ResultTransformer: what sorting and filtering do to the sequence *)

Section SortingMore.
Context {A : Type} (cmp : A → A → Z).

Lemma sort_by_constant (l : list A) : sort_by (λ _ _, 0) l = l.
Proof.
  apply sort_by_ordered_id.
  induction l as [|x l IH]; constructor; [done|]. by apply Forall_forall.
Qed.

Lemma sort_by_idempotent l :
  consistent cmp → sort_by cmp (sort_by cmp l) = sort_by cmp l.
Proof. intros Hc. by apply sort_by_ordered_id, sort_by_ordered. Qed.

Lemma ordered_rev l : ordered cmp l → ordered (λ a b, cmp b a) (reverse l).
Proof.
  induction 1 as [|x l Hl IH Hx]; [constructor|].
  rewrite reverse_cons. apply StronglySorted_app_2; [|done|repeat constructor].
  intros a b Ha Hb. apply list_elem_of_singleton in Hb as ->.
  rewrite elem_of_reverse in Ha. rewrite Forall_forall in Hx. exact (Hx _ Ha).
Qed.

(** Without ties there is one ordered arrangement. *)
Lemma ordered_perm_unique l1 l2 :
  consistent cmp →
  (∀ x y, x ∈ l1 → y ∈ l1 → cmp x y = 0 → x = y) →
  ordered cmp l1 → ordered cmp l2 → l1 ≡ₚ l2 → l1 = l2.
Proof.
  intros Hc. revert l2.
  induction l1 as [|x l1 IH]; intros l2 Hties H1 H2 Hp.
  { by apply Permutation_nil_l in Hp. }
  destruct l2 as [|y l2]; [by apply Permutation_nil_r in Hp|].
  apply StronglySorted_inv in H1 as [H1 Hx].
  apply StronglySorted_inv in H2 as [H2 Hy].
  rewrite Forall_forall in Hx, Hy.
  assert (x = y) as <-.
  { assert (x ∈ y :: l2) as Hxin by (rewrite <- Hp; left).
    assert (y ∈ x :: l1) as Hyin by (rewrite Hp; left).
    apply elem_of_cons in Hxin as [E|Hxin]; [done|].
    apply elem_of_cons in Hyin as [E|Hyin]; [done|].
    apply Hties; [left|by right|].
    pose proof (Hx _ Hyin). pose proof (Hy _ Hxin).
    pose proof (cmp_flip _ Hc x y). lia. }
  f_equal. apply IH; [|done|done|by apply Permutation_cons_inv in Hp].
  intros a b Ha Hb. apply Hties; by right.
Qed.

End SortingMore.

(** Without ties the opposite comparator gives the reversed sequence. *)
Lemma sort_by_opposite {A} (cmp : A → A → Z) l :
  consistent cmp →
  (∀ x y, x ∈ l → y ∈ l → cmp x y = 0 → x = y) →
  sort_by (λ a b, cmp b a) l = reverse (sort_by cmp l).
Proof.
  intros Hc Hties.
  apply (ordered_perm_unique _ _ _ (consistent_swap _ Hc)).
  - intros x y Hx Hy E. rewrite sort_by_perm in Hx, Hy.
    apply Hties; [done|done|]. by apply (cmp_tie_sym _ Hc).
  - apply (sort_by_ordered _ (consistent_swap _ Hc)).
  - by apply ordered_rev, sort_by_ordered.
  - by rewrite reverse_Permutation, !sort_by_perm.
Qed.

Section TransformerMore.
Context {rt : Runtime} {Σ : Type}.
Implicit Types w : World Σ.

Lemma part000_sortBooks_run w books sortType :
  ∃ r' w', Part000.sortBooks books sortType w = (Returned r', w')
    ∧ elements (heap w') r'
      = sort_by (if falsy sortType then λ _ _, 0 else Part000.compareBooks sortType)
          (elements (heap w) books)
    ∧ (∃ k, heap w' = heap w ++ k).
Proof.
  unfold Part000.sortBooks. destruct (falsy sortType).
  - exists books, w. split; [done|]. rewrite sort_by_constant.
    split; [done|]. exists []. by rewrite app_nil_r.
  - rewrite sorted_copy. eexists _, _. split; [done|]. cbn [heap].
    rewrite elements_alloc. split; [done|]. by eexists.
Qed.

Lemma part000_filterBooks_run filterType filterValue :
  ∃ p : Book → bool, ∀ w books, ∃ r' w',
    Part000.filterBooks books filterType filterValue w = (Returned r', w')
    ∧ elements (heap w') r' = filter p (elements (heap w) books)
    ∧ (∃ k, heap w' = heap w ++ k).
Proof.
  unfold Part000.filterBooks.
  destruct (falsy filterType || falsy filterValue).
  { exists (λ _, true). intros w r. exists r, w. rewrite filter_all.
    split; [done|]. split; [done|]. exists []. by rewrite app_nil_r. }
  destruct (String.eqb filterType "language").
  { exists (λ b, includes (languages b) filterValue). intros w r.
    rewrite array_filter_pure. eexists _, _. split; [done|]. cbn [heap].
    rewrite elements_alloc. split; [done|]. by eexists. }
  destruct (String.eqb filterType "topic").
  { exists (λ b, includes (subjects b) filterValue). intros w r.
    rewrite array_filter_pure. eexists _, _. split; [done|]. cbn [heap].
    rewrite elements_alloc. split; [done|]. by eexists. }
  exists (λ _, true). intros w r. run. eexists _, _. split; [done|].
  cbn [heap]. rewrite filter_all. split; [done|].
  exists []. by rewrite app_nil_r.
Qed.

(** The sequence [sortBooks] yields is that of a stable sort with a
    consistent comparator; an order that is not supported keeps it. *)
Lemma sorted_list_sort sortOrder :
  consistent localeCompare →
  ∃ cmp : Book → Book → Z, consistent cmp
    ∧ ∀ l, sorted_list sortOrder l = sort_by cmp l.
Proof.
  intros Hc. unfold sorted_list.
  destruct (String.eqb sortOrder "ascending_popular").
  { eexists. split; [|done].
    apply (consistent_key _ download_count), consistent_difference. }
  destruct (String.eqb sortOrder "descending_popular").
  { eexists. split; [|done]. apply consistent_popularity. }
  destruct (String.eqb sortOrder "alphabetical").
  { eexists. split; [|done]. by apply (consistent_key _ title). }
  destruct (String.eqb sortOrder "reverse_alphabetical").
  { eexists. split; [|done]. by apply consistent_swap, (consistent_key _ title). }
  exists (λ _ _, 0). split; [apply consistent_constant|].
  intros l. by rewrite sort_by_constant.
Qed.

Lemma filtered_list_filter filterType filterValue :
  ∃ p : Book → bool, ∀ l,
    filtered_list filterType filterValue l = filter p l.
Proof.
  unfold filtered_list.
  destruct (falsy filterType || falsy filterValue).
  { exists (λ _, true). intros l. by rewrite filter_all. }
  destruct (String.eqb filterType "language"); [by eexists|].
  destruct (String.eqb filterType "author_year"); [by eexists|].
  exists (λ _, true). intros l. by rewrite filter_all.
Qed.

Lemma filter_idempotent (p : Book → bool) (l : list Book) :
  filter p (filter p l) = filter p l.
Proof. apply list_filter_filter_l. tauto. Qed.

(** X1: Sorting twice gives what sorting once gives, in Query.jsx and part_001
    for every sort order, in part_000 for every sort type but
    ['chronological']. *)
Theorem sortBooks_idempotent w books sortOrder :
  consistent localeCompare →
  (∃ sorted,
     eval (once <- QueryJsx.sortBooks books sortOrder ;; read_array once) w
     = Returned sorted
     ∧ eval (once <- QueryJsx.sortBooks books sortOrder ;;
             twice <- QueryJsx.sortBooks once sortOrder ;;
             read_array twice) w
       = Returned sorted)
  ∧ (sortOrder ≠ "chronological" →
     ∃ sorted,
       eval (once <- Part000.sortBooks books sortOrder ;; read_array once) w
       = Returned sorted
       ∧ eval (once <- Part000.sortBooks books sortOrder ;;
               twice <- Part000.sortBooks once sortOrder ;;
               read_array twice) w
         = Returned sorted).
Proof.
  intros Hc. split.
  - destruct (sortBooks_run w books sortOrder) as (r1 & w1 & E1 & L1 & _).
    destruct (sortBooks_run w1 r1 sortOrder) as (r2 & w2 & E2 & L2 & _).
    destruct (sorted_list_sort sortOrder Hc) as (cmp & Hcmp & Hs).
    exists (elements (heap w1) r1). unfold eval, bind.
    rewrite E1, E2. unfold read_array. cbn [fst]. split; [done|].
    f_equal. rewrite L2, L1, !Hs. by apply sort_by_idempotent.
  - intros Hs.
    destruct (part000_sortBooks_run w books sortOrder) as (r1 & w1 & E1 & L1 & _).
    destruct (part000_sortBooks_run w1 r1 sortOrder) as (r2 & w2 & E2 & L2 & _).
    exists (elements (heap w1) r1). unfold eval, bind.
    rewrite E1, E2. unfold read_array. cbn [fst]. split; [done|].
    f_equal. rewrite L2, L1. apply sort_by_idempotent.
    by apply part000_comparator_consistent.
Qed.

(** X2: When no two records of the array tie, sorting by the opposite order
    gives the reversed sequence: descending is ascending read backwards,
    and Z-A is A-Z read backwards. *)
Theorem opposite_orders_reverse w books :
  consistent localeCompare →
  ((∀ a b, a ∈ elements (heap w) books → b ∈ elements (heap w) books →
           download_count a = download_count b → a = b) →
   ∃ ascending,
     eval (s <- QueryJsx.sortBooks books "ascending_popular" ;; read_array s) w
     = Returned ascending
     ∧ eval (s <- QueryJsx.sortBooks books "descending_popular" ;; read_array s) w
       = Returned (reverse ascending))
  ∧ ((∀ a b, a ∈ elements (heap w) books → b ∈ elements (heap w) books →
             localeCompare (title a) (title b) = 0 → a = b) →
     ∃ ascending,
       eval (s <- QueryJsx.sortBooks books "alphabetical" ;; read_array s) w
       = Returned ascending
       ∧ eval (s <- QueryJsx.sortBooks books "reverse_alphabetical" ;;
               read_array s) w
         = Returned (reverse ascending)).
Proof.
  intros Hc. split; intros Hties.
  - destruct (sortBooks_run w books "ascending_popular") as (r1 & w1 & E1 & L1 & _).
    destruct (sortBooks_run w books "descending_popular") as (r2 & w2 & E2 & L2 & _).
    exists (elements (heap w1) r1). unfold eval, bind.
    rewrite E1, E2. unfold read_array. cbn [fst]. split; [done|].
    f_equal. rewrite L2, L1. unfold sorted_list. cbn [String.eqb Ascii.eqb Bool.eqb].
    apply (sort_by_opposite (λ a b, download_count a - download_count b)).
    + apply (consistent_key _ download_count), consistent_difference.
    + intros a b Ha Hb E. apply Hties; [done|done|lia].
  - destruct (sortBooks_run w books "alphabetical") as (r1 & w1 & E1 & L1 & _).
    destruct (sortBooks_run w books "reverse_alphabetical") as (r2 & w2 & E2 & L2 & _).
    exists (elements (heap w1) r1). unfold eval, bind.
    rewrite E1, E2. unfold read_array. cbn [fst]. split; [done|].
    f_equal. rewrite L2, L1. unfold sorted_list. cbn [String.eqb Ascii.eqb Bool.eqb].
    apply (sort_by_opposite (λ a b, localeCompare (title a) (title b))).
    + by apply (consistent_key _ title).
    + intros a b Ha Hb E. by apply Hties.
Qed.
End TransformerMore.

Section FilterMore.
Context {rt : Runtime} {Σ : Type}.
Implicit Types w : World Σ.

(** X3: Sorting and filtering can be done in either order: part_001 sorts and
    then filters, part_000 filtered first; the sequence is the same. *)
Theorem sort_and_filter_commute w books sortOrder filterType filterValue :
  consistent localeCompare →
  ∃ shown,
    eval (sorted <- Part001.sortBooks books sortOrder ;;
          filtered <- Part001.filterBooks sorted filterType filterValue ;;
          read_array filtered) w
    = Returned shown
    ∧ eval (filtered <- Part001.filterBooks books filterType filterValue ;;
            sorted <- Part001.sortBooks filtered sortOrder ;;
            read_array sorted) w
      = Returned shown.
Proof.
  intros Hc. unfold Part001.sortBooks.
  destruct (sortBooks_run w books sortOrder) as (r1 & w1 & E1 & L1 & _).
  destruct (part001_filterBooks_run w1 r1 filterType filterValue)
    as (r2 & w2 & E2 & L2 & _).
  destruct (part001_filterBooks_run w books filterType filterValue)
    as (r3 & w3 & E3 & L3 & _).
  destruct (sortBooks_run w3 r3 sortOrder) as (r4 & w4 & E4 & L4 & _).
  destruct (sorted_list_sort sortOrder Hc) as (cmp & Hcmp & Hs).
  destruct (filtered_list_filter filterType filterValue) as (p & Hp).
  exists (elements (heap w2) r2). unfold eval, bind.
  rewrite E1, E2, E3, E4. unfold read_array. cbn [fst]. split; [done|].
  f_equal. rewrite L2, L1, L4, L3, !Hs, !Hp. symmetry. by apply filter_sort_by.
Qed.

(** X4: Filtering only drops records: what is kept stands in the order of the
    input, every array that existed is as it was, and filtering again with
    the same arguments drops nothing more.  This holds for every filter
    type and value, in part_001 and in part_000. *)
Theorem filterBooks_only_drops w books filterType filterValue :
  (∃ kept,
     eval (f <- Part001.filterBooks books filterType filterValue ;;
           read_array f) w = Returned kept
     ∧ kept `sublist_of` elements (heap w) books
     ∧ (∀ r l, heap w !! r = Some l →
          heap (exec (Part001.filterBooks books filterType filterValue) w) !! r
          = Some l)
     ∧ eval (f <- Part001.filterBooks books filterType filterValue ;;
             g <- Part001.filterBooks f filterType filterValue ;;
             read_array g) w = Returned kept)
  ∧ (∃ kept,
       eval (f <- Part000.filterBooks books filterType filterValue ;;
             read_array f) w = Returned kept
       ∧ kept `sublist_of` elements (heap w) books
       ∧ (∀ r l, heap w !! r = Some l →
            heap (exec (Part000.filterBooks books filterType filterValue) w) !! r
            = Some l)
       ∧ eval (f <- Part000.filterBooks books filterType filterValue ;;
               g <- Part000.filterBooks f filterType filterValue ;;
               read_array g) w = Returned kept).
Proof.
  split.
  - destruct (part001_filterBooks_run w books filterType filterValue)
      as (r1 & w1 & E1 & L1 & [k Hk] & _).
    destruct (part001_filterBooks_run w1 r1 filterType filterValue)
      as (r2 & w2 & E2 & L2 & _).
    destruct (filtered_list_filter filterType filterValue) as (p & Hp).
    exists (elements (heap w1) r1). unfold eval, exec, bind.
    rewrite E1, E2. unfold read_array. cbn [fst snd].
    split; [done|]. split; [rewrite L1, Hp; apply sublist_filter|].
    split.
    + intros r l Hr. rewrite Hk. by apply lookup_app_l_Some.
    + f_equal. rewrite L2, L1, !Hp. apply filter_idempotent.
  - destruct (part000_filterBooks_run (Σ := Σ) filterType filterValue) as (p & Hp).
    destruct (Hp w books) as (r1 & w1 & E1 & L1 & [k Hk]).
    destruct (Hp w1 r1) as (r2 & w2 & E2 & L2 & _).
    exists (elements (heap w1) r1). unfold eval, exec, bind.
    rewrite E1, E2. unfold read_array. cbn [fst snd].
    split; [done|]. split; [rewrite L1; apply sublist_filter|].
    split.
    + intros r l Hr. rewrite Hk. by apply lookup_app_l_Some.
    + f_equal. rewrite L2, L1. apply filter_idempotent.
Qed.

Lemma filter_includes (f : Book → list string) v (l : list Book) :
  filter (λ b, includes (f b) v) l = filter (λ b, v ∈ f b) l.
Proof.
  apply list_filter_iff. intros b. unfold includes.
  by rewrite bool_decide_spec.
Qed.

(** X5: The language filter: a new array with exactly the records whose
    languages include the value, in the order of the input; nothing else
    changes.  The three files agree on it; part_000 has the same filter on
    the subjects, under the name ['topic']. *)
Theorem language_filter_exact w books filterValue :
  filterValue ≠ "" →
  let kept_by (field : Book → list string) :=
    (Returned (length (heap w)),
     mkWorld (heap w ++ [filter (λ b, filterValue ∈ field b)
                           (elements (heap w) books)])
             (network w) (requests w) (console w) (comp w)) in
  Part001.filterBooks books "language" filterValue w = kept_by languages
  ∧ QueryJsx.filterBooks books "language" filterValue w = kept_by languages
  ∧ Part000.filterBooks books "language" filterValue w = kept_by languages
  ∧ Part000.filterBooks books "topic" filterValue w = kept_by subjects.
Proof.
  intros Hv kept_by. subst kept_by.
  unfold Part001.filterBooks, QueryJsx.filterBooks, Part000.filterBooks.
  rewrite !falsy_nonempty by done.
  change (String.eqb "language" "language") with true.
  change (String.eqb "topic" "language") with false.
  change (String.eqb "topic" "topic") with true.
  cbn [orb]. rewrite !array_filter_pure, !filter_includes. done.
Qed.

(** X6: A filter type that a file does not know, with a value, is an error that
    is logged and filters nothing: the argument itself is returned.
    ['topic'] is such a type in Query.jsx and part_001, ['author_year'] in
    part_000. *)
Theorem unknown_filter_type_returns_argument w books filterType filterValue :
  filterType ≠ "" → filterValue ≠ "" →
  (filterType ∉ ["language"; "author_year"] →
   Part001.filterBooks books filterType filterValue w
   = (Returned books, exec (console_error "Invalid filter type.") w)
   ∧ QueryJsx.filterBooks books filterType filterValue w
     = (Returned books, exec (console_error "Invalid filter type.") w))
  ∧ (filterType ∉ ["language"; "topic"] →
     Part000.filterBooks books filterType filterValue w
     = (Returned books, exec (console_error "Invalid filter type.") w)).
Proof.
  intros Ht Hv.
  unfold Part001.filterBooks, QueryJsx.filterBooks, Part000.filterBooks.
  rewrite !falsy_nonempty by done. cbn [orb].
  split; intros Hn; rewrite !not_elem_of_cons in Hn;
    destruct Hn as (H1 & H2 & _);
    apply String.eqb_neq in H1, H2; rewrite H1, H2; by run.
Qed.
End FilterMore.

Lemma least_le l y : y ∈ l → ∃ m, least l = Some m ∧ m <= y.
Proof.
  destruct l as [|x l]; [by intros ?%elem_of_nil|].
  intros Hy. exists (foldr Z.min x l). split; [done|].
  induction l as [|z l IH]; cbn [foldr].
  - apply list_elem_of_singleton in Hy as ->. lia.
  - apply elem_of_cons in Hy as [->|Hy].
    + assert (foldr Z.min x l <= x); [|lia].
      clear. induction l; cbn [foldr]; lia.
    + apply elem_of_cons in Hy as [->|Hy]; [lia|].
      assert (foldr Z.min x l <= y); [|lia].
      apply IH. by right.
Qed.

Lemma greatest_ge l y : y ∈ l → ∃ m, greatest l = Some m ∧ y <= m.
Proof.
  destruct l as [|x l]; [by intros ?%elem_of_nil|].
  intros Hy. exists (foldr Z.max x l). split; [done|].
  induction l as [|z l IH]; cbn [foldr].
  - apply list_elem_of_singleton in Hy as ->. lia.
  - apply elem_of_cons in Hy as [->|Hy].
    + assert (x <= foldr Z.max x l); [|lia].
      clear. induction l; cbn [foldr]; lia.
    + apply elem_of_cons in Hy as [->|Hy]; [lia|].
      assert (y <= foldr Z.max x l); [|lia].
      apply IH. by right.
Qed.

Lemma omap_all_none {A B} (f : A → option B) (l : list A) :
  Forall (λ a, f a = None) l → omap f l = [].
Proof. induction 1 as [|a l Ha _ IH]; [done|]. cbn. by rewrite Ha. Qed.

Lemma in_author_years_NaN (l : list Book) : filter (in_author_years NaN) l = [].
Proof.
  induction l as [|b l IH]; [done|].
  rewrite filter_cons_False; [exact IH|].
  unfold in_author_years.
  destruct (min_birth_year b), (max_death_year b); cbn; tauto.
Qed.

Section AuthorYearMore.
Context {rt : Runtime} {Σ : Type}.
Implicit Types w : World Σ.

Lemma part001_author_year_run w books filterValue :
  filterValue ≠ "" →
  ∃ kept w', Part001.filterBooks books "author_year" filterValue w
             = (Returned kept, w')
    ∧ elements (heap w') kept
      = filter (in_author_years (ToNumber filterValue)) (elements (heap w) books).
Proof.
  intros Hv.
  destruct (part001_filterBooks_run w books "author_year" filterValue)
    as (r & w' & E & L & _).
  exists r, w'. split; [done|]. rewrite L. unfold filtered_list.
  rewrite !falsy_nonempty by done.
  change (String.eqb "author_year" "language") with false.
  change (String.eqb "author_year" "author_year") with true. cbn [orb].
  apply list_filter_iff. intros b. by rewrite authorYearCallback_spec.
Qed.

(** X7: The [author_year] filter of part_001 keeps every record with an author
    who was alive in the year asked for: born in or before it, dead in or
    after it. *)
Theorem author_alive_is_kept w books filterValue year b a lo hi :
  filterValue ≠ "" →
  ToNumber filterValue = Number_of_Z year →
  b ∈ elements (heap w) books →
  a ∈ default [] (authors b) →
  birth_year a = Some lo → death_year a = Some hi →
  lo <= year <= hi →
  ∃ kept,
    eval (Part001.filterBooks books "author_year" filterValue) w = Returned kept
    ∧ b ∈ elements
            (heap (exec (Part001.filterBooks books "author_year" filterValue) w))
            kept.
Proof.
  intros Hv Hn Hb Ha Hlo Hhi Hy.
  destruct (part001_author_year_run w books filterValue Hv)
    as (kept & w' & E & L).
  exists kept. unfold eval, exec. rewrite E. cbn [fst snd]. split; [done|].
  rewrite L. apply list_elem_of_filter. split; [|done].
  rewrite Hn. unfold in_author_years, min_birth_year, max_death_year.
  destruct (least_le (omap birth_year (default [] (authors b))) lo)
    as (m & -> & Hm).
  { apply list_elem_of_omap. by exists a. }
  destruct (greatest_ge (omap death_year (default [] (authors b))) hi)
    as (M & -> & HM).
  { apply list_elem_of_omap. by exists a. }
  unfold within, Number_of_Z. rewrite !Qle_bool_inject_Z.
  apply Is_true_true, andb_true_iff. split; apply Z.leb_le; lia.
Qed.

(** X8: What the [author_year] filter of part_001 never keeps: any record at
    all when the value is not a number, and, whatever the value, a record
    none of whose authors has a year of death, or none a year of birth. *)
Theorem author_year_never_keeps w books filterValue :
  filterValue ≠ "" →
  ∃ kept,
    eval (Part001.filterBooks books "author_year" filterValue) w = Returned kept
    ∧ (ToNumber filterValue = NaN →
       elements
         (heap (exec (Part001.filterBooks books "author_year" filterValue) w))
         kept = [])
    ∧ ∀ b,
        Forall (λ a, death_year a = None) (default [] (authors b))
        ∨ Forall (λ a, birth_year a = None) (default [] (authors b)) →
        b ∉ elements
              (heap (exec (Part001.filterBooks books "author_year" filterValue) w))
              kept.
Proof.
  intros Hv.
  destruct (part001_author_year_run w books filterValue Hv)
    as (kept & w' & E & L).
  exists kept. unfold eval, exec. rewrite E. cbn [fst snd]. split; [done|].
  rewrite L. split.
  - intros ->. apply in_author_years_NaN.
  - intros b Hb Hin. apply list_elem_of_filter in Hin as [Hin _].
    unfold in_author_years, min_birth_year, max_death_year in Hin.
    destruct Hb as [Hb|Hb]; rewrite (omap_all_none _ _ Hb) in Hin;
      cbn [least greatest] in Hin;
      [destruct (least _)|]; exact Hin.
Qed.

(** X9: A sort order that is not supported sorts nothing.  Query.jsx and
    part_001 (whose initial sort order is the empty one) log the error and
    return the argument itself; part_000 returns the argument itself for
    the empty sort type and, for any other unknown one, a new array with
    the records in the order of the input. *)
Theorem unsupported_sort_order_keeps_order w books sortOrder :
  (sortOrder ∉ supportedSortOrders →
   QueryJsx.sortBooks books sortOrder w
   = (Returned books, exec (console_error "Invalid sort order.") w))
  ∧ Part000.sortBooks books "" w = (Returned books, w)
  ∧ (sortOrder ≠ "" →
     sortOrder ∉ ["alphabetical"; "reverse_alphabetical"; "chronological";
                  "popularity"] →
     eval (Part000.sortBooks books sortOrder) w = Returned (length (heap w))
     ∧ heap (exec (Part000.sortBooks books sortOrder) w)
       = heap w ++ [elements (heap w) books]).
Proof.
  split; [|split].
  - intros Hn. unfold supportedSortOrders in Hn.
    rewrite !not_elem_of_cons in Hn. destruct Hn as (H1 & H2 & H3 & H4 & _).
    apply String.eqb_neq in H1, H2, H3, H4.
    unfold QueryJsx.sortBooks. rewrite H1, H2, H3, H4. by run.
  - done.
  - intros He Hn. rewrite !not_elem_of_cons in Hn.
    destruct Hn as (H1 & H2 & H3 & H4 & _).
    apply String.eqb_neq in H1, H2, H3, H4.
    unfold Part000.sortBooks. rewrite falsy_nonempty by done.
    unfold eval, exec. rewrite sorted_copy. cbn [fst snd heap].
    split; [done|]. do 2 f_equal.
    replace (Part000.compareBooks sortOrder) with (λ _ _ : Book, 0).
    + apply sort_by_constant.
    + unfold Part000.compareBooks. by rewrite H1, H2, H3, H4.
Qed.
End AuthorYearMore.

(** ** CatalogClient: the request and the page *)

Lemma append_cons c a b : String c a +:+ b = String c (a +:+ b).
Proof. reflexivity. Qed.

Lemma append_length a b :
  String.length (a +:+ b) = (String.length a + String.length b)%nat.
Proof.
  induction a as [|c a IH]; [done|].
  rewrite append_cons. cbn [String.length]. by rewrite IH.
Qed.

Lemma append_cancel_l a b c : a +:+ b = a +:+ c → b = c.
Proof.
  induction a as [|x a IH]; [done|].
  rewrite !append_cons. intros H. apply IH. congruence.
Qed.

Lemma append_cancel_r a b c : a +:+ c = b +:+ c → a = b.
Proof.
  revert b. induction a as [|x a IH]; intros [|y b] H.
  - done.
  - apply (f_equal String.length) in H.
    rewrite append_cons in H. cbn [String.length] in H.
    rewrite !append_length in H. cbn [String.length] in H. lia.
  - apply (f_equal String.length) in H.
    rewrite append_cons in H. cbn [String.length] in H.
    rewrite !append_length in H. cbn [String.length] in H. lia.
  - rewrite !append_cons in H. injection H as -> H. f_equal. by apply IH.
Qed.

Lemma encodeURIComponent_inj a b :
  encodeURIComponent a = encodeURIComponent b → a = b.
Proof.
  intros H. apply (f_equal percent_decode) in H.
  by rewrite !encodeURIComponent_decode in H.
Qed.

Section CatalogMore.
Context {rt : Runtime} {Σ : Type}.
Implicit Types w : World Σ.

Lemma fetchPage_answered w url d :
  network w url = Responded (Json d) →
  QueryJsx.fetchPage url w
  = (Returned (Page.mk (d_count d) (d_next d) (d_previous d) (length (heap w))),
     mkWorld (heap w ++ [d_results d]) (network w) (requests w ++ [url])
             (console w) (comp w)).
Proof. intros H. unfold QueryJsx.fetchPage. run. rewrite H. by run. Qed.

(** X10: When the catalog service answers with a page, the listing and the
    search pass it on as it is: the count, the two cursors and a new array
    with the results in the order received.  One request is made and
    nothing is logged.  In part_000 the result is that array alone. *)
Theorem answered_page_is_passed_on w query searchType sortOrder page d :
  let passed url :=
    (Returned (Page.mk (d_count d) (d_next d) (d_previous d) (length (heap w))),
     mkWorld (heap w ++ [d_results d]) (network w) (requests w ++ [url])
             (console w) (comp w)) in
  let passed_bare url :=
    (Returned (length (heap w)),
     mkWorld (heap w ++ [d_results d]) (network w) (requests w ++ [url])
             (console w) (comp w)) in
  (network w (QueryJsx.listUrl sortOrder page) = Responded (Json d) →
   QueryJsx.getBookList sortOrder page w = passed (QueryJsx.listUrl sortOrder page))
  ∧ (searchType ∈ QueryJsx.validSearchTypes →
     network w (QueryJsx.searchUrl query searchType sortOrder page)
     = Responded (Json d) →
     QueryJsx.searchBooks query searchType sortOrder page w
     = passed (QueryJsx.searchUrl query searchType sortOrder page))
  ∧ (network w (Part000.listUrl sortOrder) = Responded (Json d) →
     Part000.getBookList sortOrder w = passed_bare (Part000.listUrl sortOrder))
  ∧ (searchType ∈ Part000.validSearchTypes →
     network w (Part000.searchUrl query sortOrder) = Responded (Json d) →
     Part000.searchBooks query searchType sortOrder w
     = passed_bare (Part000.searchUrl query sortOrder)).
Proof.
  intros passed passed_bare. subst passed passed_bare. cbn beta.
  split; [|split; [|split]].
  - intros H. by apply fetchPage_answered.
  - intros Ht H. rewrite (searchBooks_valid _ _ _ _ _ Ht).
    by apply fetchPage_answered.
  - intros H. unfold Part000.getBookList. run. rewrite H. by run.
  - intros Ht H. apply includes_true in Ht.
    unfold Part000.searchBooks. rewrite Ht. cbn [negb]. run. rewrite H. by run.
Qed.

(** X11: The request of a search determines the query and the search type:
    two searches for the same sort order and page request the same URL only
    if they have the same query and, in Query.jsx and part_001, the same
    search type (in part_000 the search type is not part of the URL). *)
Theorem search_request_determines_query
    w query query' searchType searchType' sortOrder page :
  searchType ∈ QueryJsx.validSearchTypes →
  searchType' ∈ QueryJsx.validSearchTypes →
  (requests (exec (QueryJsx.searchBooks query searchType sortOrder page) w)
   = requests (exec (QueryJsx.searchBooks query' searchType' sortOrder page) w) →
   query = query' ∧ searchType = searchType')
  ∧ (∀ searchType0 searchType0',
       searchType0 ∈ Part000.validSearchTypes →
       searchType0' ∈ Part000.validSearchTypes →
       requests (exec (Part000.searchBooks query searchType0 sortOrder) w)
       = requests (exec (Part000.searchBooks query' searchType0' sortOrder) w) →
       query = query').
Proof.
  intros Ht Ht'. split.
  - unfold exec. rewrite !searchBooks_valid by done.
    change (requests (exec (QueryJsx.fetchPage ?u) w)) with
      (requests (exec (QueryJsx.fetchPage u) w)).
    fold (exec (QueryJsx.fetchPage
                  (QueryJsx.searchUrl query searchType sortOrder page)) w).
    fold (exec (QueryJsx.fetchPage
                  (QueryJsx.searchUrl query' searchType' sortOrder page)) w).
    rewrite !fetchPage_requests. intros H.
    apply app_inv_head in H. injection H as H.
    unfold QueryJsx.validSearchTypes in Ht, Ht'.
    repeat (apply elem_of_cons in Ht as [->|Ht]);
      [| |by apply elem_of_nil in Ht];
      (repeat (apply elem_of_cons in Ht' as [->|Ht']);
       [| |by apply elem_of_nil in Ht']);
      unfold QueryJsx.searchUrl, QueryJsx.API_BASE_URL in H;
      cbn [String.eqb Ascii.eqb Bool.eqb] in H;
      rewrite !append_cons in H; try discriminate H.
    + split; [|done]. apply encodeURIComponent_inj.
      apply (append_cancel_r _ _ ("&sort=" +:+ sortOrder +:+ "&page=" +:+ pretty page)).
      by apply (append_cancel_l "https://gutendex.com/books?topic=").
    + split; [|done]. apply encodeURIComponent_inj.
      apply (append_cancel_r _ _ ("&sort=" +:+ sortOrder +:+ "&page=" +:+ pretty page)).
      by apply (append_cancel_l "https://gutendex.com/books?search=").
  - intros t0 t0' H0 H0'. apply includes_true in H0, H0'.
    unfold Part000.searchBooks. rewrite H0, H0'. cbn [negb].
    unfold exec, fetch, try_catch, bind. cbn [requests snd].
    intros H.
    assert (requests w ++ [Part000.searchUrl query sortOrder]
            = requests w ++ [Part000.searchUrl query' sortOrder]) as H'.
    { revert H. destruct (network w _) as [|[|d]], (network w _) as [|[|d']];
        run; done. }
    apply app_inv_head in H'. injection H' as H'.
    unfold Part000.searchUrl in H'. apply append_cancel_l in H'.
    apply append_cancel_r in H'. by apply encodeURIComponent_inj.
Qed.
End CatalogMore.

(** ** QueryController of part_001: requests, pages and clicks *)

Section ControllerMore.
Context {rt : Runtime}.
Import Part001.
Implicit Types (w : World State) (c s : State).

Ltac run_state :=
  repeat (progress
    (cbv beta delta [bind ret throw try_catch exec eval console_error
                     new_array read_array write_array fetch json get_state
                     set_state is_empty when
                     setSearchTerm setResults setFilteredResults
                     setSortedResults setSortOrder setFilterType
                     setFilterValue setSelectedSearchType setNextPageUrl
                     setPrevPageUrl setCurrentPage setIsLoading setMessage
                     setSearchTrigger];
     cbn [fst snd heap network requests console comp
          Page.results Page.next Page.previous Page.count])).

Ltac fields :=
  cbn [loaded with_searchTerm with_results with_filteredResults
       with_sortedResults with_sortOrder with_filterType with_filterValue
       with_selectedSearchType with_nextPageUrl with_prevPageUrl
       with_currentPage with_isLoading with_message with_searchTrigger
       searchTerm results filteredResults sortedResults sortOrder filterType
       filterValue selectedSearchType isAuthorYearFilter nextPageUrl
       prevPageUrl currentPage isLoading message searchTrigger] in *.

Lemma derived_only_refl w : derived_only w w.
Proof.
  unfold derived_only. repeat split; try done.
  exists []. by rewrite app_nil_r.
Qed.

Lemma derived_only_trans w1 w2 w3 :
  derived_only w1 w2 → derived_only w2 w3 → derived_only w1 w3.
Proof.
  intros (R1 & N1 & [k1 H1] & I1 & P1 & A1 & T1)
         (R2 & N2 & [k2 H2] & I2 & P2 & A2 & T2).
  unfold derived_only. repeat split; try congruence.
  exists (k1 ++ k2). by rewrite H2, H1, app_assoc.
Qed.

Lemma derived_only_heap w w' r l :
  derived_only w w' → heap w !! r = Some l → heap w' !! r = Some l.
Proof.
  intros (_ & _ & [k ->] & _) H. by apply lookup_app_l_Some.
Qed.

Lemma derived_only_elements w w' r :
  derived_only w w' → (r < length (heap w))%nat →
  elements (heap w') r = elements (heap w) r.
Proof.
  intros (_ & _ & [k ->] & _) H. unfold elements. by rewrite lookup_app_l.
Qed.

(** The sort effect and the filter effect write derived hooks only. *)
Lemma effectSort_frame c w :
  ∃ w', effectSort c w = (Returned tt, w') ∧ derived_only w w'.
Proof.
  unfold effectSort.
  unfold try_catch, bind at 1. unfold setIsLoading at 1, set_state at 1.
  unfold bind at 1, read_array at 1. cbn [heap].
  case_bool_decide as Hlen.
  - destruct (sortBooks_run
                (mkWorld (heap w) (network w) (requests w) (console w)
                         (with_isLoading true (comp w)))
                (results c) (sortOrder c))
      as (r' & w' & Heq & _ & Hk & Hn & Hr & Hc).
    unfold bind at 1 2. unfold sortBooks. rewrite Heq. run_state.
    eexists. split; [reflexivity|]. cbn [heap network requests comp] in *.
    unfold derived_only. cbn [heap network requests comp]. rewrite Hc.
    by destruct (comp w).
  - run_state. eexists. split; [reflexivity|].
    unfold derived_only. cbn [heap network requests comp].
    repeat split; try by destruct (comp w).
    exists []. by rewrite app_nil_r.
Qed.

Lemma effectFilter_frame c w :
  ∃ w', effectFilter c w = (Returned tt, w') ∧ derived_only w w'.
Proof.
  unfold effectFilter.
  destruct (part001_filterBooks_run w (sortedResults c) (filterType c)
              (filterValue c))
    as (f & w' & Heq & _ & Hk & Hn & Hr & Hc).
  unfold bind at 1. rewrite Heq. run_state.
  match goal with |- context [if ?b then _ else _] => destruct b end;
    (eexists; split; [reflexivity|]);
    unfold derived_only; cbn [heap network requests comp]; rewrite Hc;
    by destruct (comp w).
Qed.

(** A round of effects in which the trigger effect finds no search
    pending. *)
Lemma commit_frame prev c w :
  searchTrigger c = false →
  ∃ w', commit prev c w = (Returned tt, w') ∧ derived_only w w'.
Proof.
  intros Ht. unfold commit, when.
  assert (∃ wa, (if bool_decide (deps_sort prev ≠ deps_sort c)
                 then effectSort c else ret tt) w = (Returned tt, wa)
                ∧ derived_only w wa) as (wa & Ea & Fa).
  { destruct (bool_decide (deps_sort prev ≠ deps_sort c));
      [apply effectSort_frame|].
    eexists. split; [reflexivity|]. apply derived_only_refl. }
  assert (∃ wb, (if bool_decide (deps_filter prev ≠ deps_filter c)
                 then effectFilter c else ret tt) wa = (Returned tt, wb)
                ∧ derived_only wa wb) as (wb & Eb & Fb).
  { destruct (bool_decide (deps_filter prev ≠ deps_filter c));
      [apply effectFilter_frame|].
    eexists. split; [reflexivity|]. apply derived_only_refl. }
  exists wb. unfold bind. rewrite Ea, Eb. unfold effectTrigger. rewrite Ht.
  split; [by destruct (bool_decide (deps_trigger prev ≠ deps_trigger c))|].
  by eapply derived_only_trans.
Qed.

(** Rendering until nothing changes, when no search is pending. *)
Lemma settle_frame fuel prev w :
  searchTrigger (comp w) = false → derived_only w (settle fuel prev w).
Proof.
  revert prev w. induction fuel as [|fuel IH]; intros prev w Ht; cbn [settle].
  - case_bool_decide; apply derived_only_refl.
  - case_bool_decide; [apply derived_only_refl|].
    destruct (commit_frame prev (comp w) w Ht) as (w' & E & F).
    unfold exec. rewrite E. cbn [snd].
    eapply derived_only_trans; [exact F|]. apply IH.
    destruct F as (_ & _ & _ & _ & _ & _ & ->). done.
Qed.


(** *** The two handlers that fetch *)

Lemma handleShowAllBooks_run s page w :
  ∃ nx pv l log,
    handleShowAllBooks s page w
    = (Returned tt,
       fetched (QueryJsx.listUrl (sortOrder s) page) page w nx pv l log
         (message (comp w)))
    ∧ page_of w (QueryJsx.listUrl (sortOrder s) page) nx pv l.
Proof.
  unfold handleShowAllBooks, getBookList, QueryJsx.getBookList,
    QueryJsx.fetchPage, fetched, page_of.
  run_state. destruct (network w _) as [|[|d]]; run_state.
  - exists None, None, [], ["Error fetching page:"]. split; [|done].
    by destruct (comp w).
  - exists None, None, [], ["Error fetching page:"]. split; [|done].
    by destruct (comp w).
  - exists (d_next d), (d_previous d), (d_results d), []. split; [|done].
    rewrite app_nil_r. by destruct (comp w).
Qed.

Lemma handleSearch_run s page w :
  selectedSearchType s ∈ QueryJsx.validSearchTypes →
  ∃ nx pv l log m,
    handleSearch s page w
    = (Returned tt,
       fetched (QueryJsx.searchUrl (searchTerm s) (selectedSearchType s)
                  (sortOrder s) page) page w nx pv l log m)
    ∧ page_of w (QueryJsx.searchUrl (searchTerm s) (selectedSearchType s)
                   (sortOrder s) page) nx pv l.
Proof.
  intros H. apply includes_true in H.
  unfold handleSearch, searchBooks, QueryJsx.searchBooks, QueryJsx.fetchPage,
    fetched, page_of.
  rewrite H. cbn [negb]. run_state.
  destruct (network w _) as [|[|d]]; run_state.
  - exists None, None, [], ["Error fetching page:"].
    match goal with |- context [if ?b then _ else _] => destruct b end;
      eexists; (split; [|done]); by destruct (comp w).
  - exists None, None, [], ["Error fetching page:"].
    match goal with |- context [if ?b then _ else _] => destruct b end;
      eexists; (split; [|done]); by destruct (comp w).
  - exists (d_next d), (d_previous d), (d_results d), [].
    match goal with |- context [if ?b then _ else _] => destruct b end;
      eexists; (split; [|done]); rewrite app_nil_r; by destruct (comp w).
Qed.

(** The request of the page handlers, for the search or for the listing. *)
Lemma page_request_run s page w :
  can_page s →
  ∃ nx pv l log m,
    (if negb (String.eqb (searchTerm s) "") then handleSearch s page
     else handleShowAllBooks s page) w
    = (Returned tt, fetched (page_url s page) page w nx pv l log m)
    ∧ page_of w (page_url s page) nx pv l.
Proof.
  intros Hcan. unfold page_url.
  destruct (String.eqb_spec (searchTerm s) "") as [E|E]; cbn [negb].
  - destruct (handleShowAllBooks_run s page w) as (nx & pv & l & log & H).
    by exists nx, pv, l, log, (message (comp w)).
  - destruct Hcan as [Hcan|Hcan]; [done|]. by apply handleSearch_run.
Qed.

(** *** No search stays pending *)

Lemma handleSearch_returns s page w :
  ∃ w', handleSearch s page w = (Returned tt, w').
Proof. destruct (handleSearch_spec s page w) as (w' & H & _). by exists w'. Qed.

(** A round of effects in which a search is pending: the search runs
    after the two other effects, and the trigger is cleared. *)
Lemma commit_trigger prev c w :
  searchTrigger prev = false → searchTrigger c = true →
  ∃ wb w1,
    derived_only w wb
    ∧ handleSearch c 1 wb = (Returned tt, w1)
    ∧ commit prev c w = (Returned tt, exec (setSearchTrigger false) w1).
Proof.
  intros Hp Ht. unfold commit, when.
  assert (∃ wa, (if bool_decide (deps_sort prev ≠ deps_sort c)
                 then effectSort c else ret tt) w = (Returned tt, wa)
                ∧ derived_only w wa) as (wa & Ea & Fa).
  { destruct (bool_decide (deps_sort prev ≠ deps_sort c));
      [apply effectSort_frame|].
    eexists. split; [reflexivity|]. apply derived_only_refl. }
  assert (∃ wb, (if bool_decide (deps_filter prev ≠ deps_filter c)
                 then effectFilter c else ret tt) wa = (Returned tt, wb)
                ∧ derived_only wa wb) as (wb & Eb & Fb).
  { destruct (bool_decide (deps_filter prev ≠ deps_filter c));
      [apply effectFilter_frame|].
    eexists. split; [reflexivity|]. apply derived_only_refl. }
  destruct (handleSearch_returns c 1 wb) as (w1 & E1).
  exists wb, w1. split; [by eapply derived_only_trans|]. split; [done|].
  unfold bind. rewrite Ea, Eb.
  rewrite bool_decide_eq_true_2
    by (unfold deps_trigger; rewrite Hp, Ht; congruence).
  unfold effectTrigger. rewrite Ht. unfold bind. rewrite E1. done.
Qed.

Lemma handleSearch_keeps_trigger s page w w' :
  handleSearch s page w = (Returned tt, w') →
  searchTrigger (comp w') = searchTrigger (comp w).
Proof.
  intros E.
  destruct (handleSearch_spec s page w)
    as (w2 & E2 & _ & [(nx & pv & m & Hc & _)|(_ & Hc)]);
    rewrite E in E2; injection E2 as <-; by rewrite Hc.
Qed.

Lemma settle_clears_trigger fuel prev w :
  searchTrigger prev = false →
  searchTrigger (comp (settle (S fuel) prev w)) = false.
Proof.
  intros Hp. destruct (searchTrigger (comp w)) eqn:Ht.
  - cbn [settle]. rewrite bool_decide_eq_false_2 by congruence.
    destruct (commit_trigger prev (comp w) w Hp Ht) as (wb & w1 & _ & _ & E).
    unfold exec at 1. rewrite E. cbn [snd].
    destruct (settle_frame fuel (comp w) (exec (setSearchTrigger false) w1))
      as (_ & _ & _ & _ & _ & _ & ->); done.
  - destruct (settle_frame (S fuel) prev w Ht)
      as (_ & _ & _ & _ & _ & _ & ->). done.
Qed.

(** Between two events no search is pending. *)
Lemma serial_no_search_pending w :
  serial w → searchTrigger (comp w) = false.
Proof.
  induction 1 as [net|w ev _ IH|w net _ IH]; [| |done].
  - by apply (settle_clears_trigger 3).
  - by apply (settle_clears_trigger 3).
Qed.

(** *** Events that edit the form *)

Lemma edit_handled ev w :
  edits ev = true →
  requests (exec (handle ev (comp w)) w) = requests w
  ∧ heap (exec (handle ev (comp w)) w) = heap w
  ∧ paging (comp (exec (handle ev (comp w)) w)) = paging (comp w)
  ∧ searchTrigger (comp (exec (handle ev (comp w)) w)) = searchTrigger (comp w).
Proof.
  destruct ev; try discriminate; intros _; cbn [handle]; run_state;
    by destruct (comp w).
Qed.

(** X12: In part_001, at rest in a run in which nothing overlaps, editing
    the search term, the search type, the language, the author
    year or the sort order issues no request: the results, the cursors and
    the page number stay as they are, and no array that existed is
    modified. *)
Theorem edits_issue_no_request w ev :
  serial w → edits ev = true →
  requests (react enough ev w) = requests w
  ∧ paging (comp (react enough ev w)) = paging (comp w)
  ∧ ∀ r l, heap w !! r = Some l → heap (react enough ev w) !! r = Some l.
Proof.
  intros Hr He. apply serial_no_search_pending in Hr.
  destruct (edit_handled ev w He) as (R0 & H0 & P0 & T0).
  unfold react.
  destruct (settle_frame enough (comp w) (exec (handle ev (comp w)) w))
    as (R & _ & [k Hk] & _ & P & _); [congruence|].
  split; [congruence|]. split; [congruence|].
  intros r l Hl. rewrite Hk, H0. by apply lookup_app_l_Some.
Qed.

(** *** Clicks on an author and on a bookshelf *)

Lemma settle_round fuel prev w :
  settle (S fuel) prev w
  = if bool_decide (comp w = prev) then w
    else settle fuel (comp w) (exec (commit prev (comp w)) w).
Proof. reflexivity. Qed.

Lemma click_searches w0 prev url :
  searchTrigger prev = false → searchTrigger (comp w0) = true →
  selectedSearchType (comp w0) ∈ QueryJsx.validSearchTypes →
  url = QueryJsx.searchUrl (searchTerm (comp w0)) (selectedSearchType (comp w0))
          (sortOrder (comp w0)) 1 →
  requests (settle enough prev w0) = requests w0 ++ [url]
  ∧ searchTerm (comp (settle enough prev w0)) = searchTerm (comp w0)
  ∧ selectedSearchType (comp (settle enough prev w0))
    = selectedSearchType (comp w0)
  ∧ currentPage (comp (settle enough prev w0)) = 1
  ∧ searchTrigger (comp (settle enough prev w0)) = false.
Proof.
  intros Hp Ht Hv ->.
  destruct (commit_trigger prev (comp w0) w0 Hp Ht)
    as (wb & w1 & (Rb & _ & _ & Ib & _) & E1 & E).
  destruct (handleSearch_run (comp w0) 1 wb Hv)
    as (nx & pv & l & log & m & E1' & _).
  rewrite E1 in E1'. injection E1' as ->.
  assert (settle enough prev w0
          = settle 3 (comp w0)
              (exec (setSearchTrigger false)
                 (fetched (QueryJsx.searchUrl (searchTerm (comp w0))
                             (selectedSearchType (comp w0))
                             (sortOrder (comp w0)) 1) 1 wb nx pv l log m)))
    as ->.
  { change enough with (S 3). rewrite settle_round.
    rewrite bool_decide_eq_false_2 by congruence.
    f_equal. unfold exec at 1. by rewrite E. }
  pose proof (settle_frame 3 (comp w0)
                (exec (setSearchTrigger false)
                   (fetched (QueryJsx.searchUrl (searchTerm (comp w0))
                               (selectedSearchType (comp w0))
                               (sortOrder (comp w0)) 1) 1 wb nx pv l log m))
                eq_refl) as F.
  revert F. generalize (settle 3 (comp w0)
              (exec (setSearchTrigger false)
                 (fetched (QueryJsx.searchUrl (searchTerm (comp w0))
                             (selectedSearchType (comp w0))
                             (sortOrder (comp w0)) 1) 1 wb nx pv l log m))).
  intros wf (R & _ & _ & I & P & _ & T).
  rewrite R, T. unfold paging in P. injection P as _ _ _ ->.
  unfold inputs in I. injection I as -> -> _ _ _.
  unfold inputs in Ib. injection Ib as Ib1 Ib2 _ _ _.
  unfold fetched. run_state. fields. rewrite Rb, Ib1, Ib2.
  repeat split; reflexivity.
Qed.

(** X13: In part_001, at rest in a run in which nothing overlaps, a click
    on an author's name runs exactly one search, for that name,
    with the search type that is selected, on page 1; a click on a
    bookshelf runs exactly one search by topic for it.  No search stays
    pending. *)
Theorem click_searches_once w n :
  serial w →
  (selectedSearchType (comp w) ∈ QueryJsx.validSearchTypes →
   requests (react enough (ClickAuthor n) w)
   = requests w
     ++ [QueryJsx.searchUrl n (selectedSearchType (comp w)) (sortOrder (comp w)) 1]
   ∧ searchTerm (comp (react enough (ClickAuthor n) w)) = n
   ∧ currentPage (comp (react enough (ClickAuthor n) w)) = 1
   ∧ searchTrigger (comp (react enough (ClickAuthor n) w)) = false)
  ∧ requests (react enough (ClickBookshelf n) w)
    = requests w ++ [QueryJsx.searchUrl n "topic" (sortOrder (comp w)) 1]
  ∧ searchTerm (comp (react enough (ClickBookshelf n) w)) = n
  ∧ selectedSearchType (comp (react enough (ClickBookshelf n) w)) = "topic"
  ∧ currentPage (comp (react enough (ClickBookshelf n) w)) = 1
  ∧ searchTrigger (comp (react enough (ClickBookshelf n) w)) = false.
Proof.
  intros Hr. apply serial_no_search_pending in Hr.
  split.
  - intros Hv. unfold react. cbn [handle].
    destruct (click_searches (exec (handleAuthorClick n) w) (comp w)
                (QueryJsx.searchUrl n (selectedSearchType (comp w))
                   (sortOrder (comp w)) 1))
      as (R & I1 & _ & P & T); [exact Hr|reflexivity|exact Hv|reflexivity|].
    rewrite R, P, T, I1. repeat split; reflexivity.
  - unfold react. cbn [handle].
    destruct (click_searches (exec (handleBookshelfClick n) w) (comp w)
                (QueryJsx.searchUrl n "topic" (sortOrder (comp w)) 1))
      as (R & I1 & I2 & P & T); [exact Hr|reflexivity| |reflexivity|].
    { apply includes_true. reflexivity. }
    rewrite R, P, T, I1, I2. repeat split; reflexivity.
Qed.

(** *** Pages *)

Lemma page_of_fails w url nx pv l :
  fails w url → page_of w url nx pv l → nx = None ∧ pv = None ∧ l = [].
Proof. unfold page_of. by intros [->| ->]. Qed.

Lemma page_of_answered w url d nx pv l :
  network w url = Responded (Json d) → page_of w url nx pv l →
  nx = d_next d ∧ pv = d_previous d ∧ l = d_results d.
Proof. unfold page_of. by intros ->. Qed.

Lemma page_url_inputs c c' page :
  inputs c = inputs c' → page_url c page = page_url c' page.
Proof.
  unfold inputs, page_url. intros E. injection E as -> -> -> _ _. done.
Qed.

Lemma can_page_inputs c c' : inputs c = inputs c' → can_page c → can_page c'.
Proof.
  unfold inputs, can_page. intros E. injection E as -> -> _ _ _. done.
Qed.

Lemma next_page_run s w :
  truthy (nextPageUrl s) = true → can_page s →
  ∃ nx pv l log m,
    handleNextPage s w
    = (Returned tt,
       fetched (page_url s (currentPage s + 1)) (currentPage s + 1) w
         nx pv l log m)
    ∧ page_of w (page_url s (currentPage s + 1)) nx pv l.
Proof.
  intros Ht Hc. unfold handleNextPage. rewrite Ht.
  by apply page_request_run.
Qed.

Lemma previous_page_run s w :
  truthy (prevPageUrl s) = true → can_page s →
  ∃ nx pv l log m,
    handlePreviousPage s w
    = (Returned tt,
       fetched (page_url s (currentPage s - 1)) (currentPage s - 1) w
         nx pv l log m)
    ∧ page_of w (page_url s (currentPage s - 1)) nx pv l.
Proof.
  intros Ht Hc. unfold handlePreviousPage. rewrite Ht.
  by apply page_request_run.
Qed.

(** After a page was fetched the effects leave the request, the page and
    the inputs as they are. *)
Lemma fetched_settles prev url page w nx pv l log m :
  searchTrigger (comp w) = false →
  ∃ wf, settle enough prev (fetched url page w nx pv l log m) = wf
    ∧ requests wf = requests w ++ [url]
    ∧ network wf = network w
    ∧ paging (comp wf) = (length (heap w), nx, pv, page)
    ∧ inputs (comp wf) = inputs (comp w)
    ∧ searchTrigger (comp wf) = false
    ∧ elements (heap wf) (length (heap w)) = l.
Proof.
  intros Ht. eexists. split; [reflexivity|].
  pose proof (settle_frame enough prev (fetched url page w nx pv l log m)) as F.
  revert F. generalize (settle enough prev (fetched url page w nx pv l log m)).
  intros wf F. destruct F as (R & N & [k Hk] & I & P & _ & T).
  { unfold fetched. cbn [comp]. by fields. }
  rewrite R, N, I, P, T, Hk. unfold fetched, paging, inputs.
  cbn [heap requests network comp]. fields.
  repeat split; try done.
  rewrite <- app_assoc. unfold elements.
  by rewrite lookup_app_r, Nat.sub_diag.
Qed.

Lemma filtered_list_nil filterType filterValue :
  filtered_list filterType filterValue [] = [].
Proof. unfold filtered_list. by repeat case_match. Qed.

(** At rest the rendered list is derived from the results. *)
Lemma serial_display w :
  serial w →
  elements (heap w) (displayList (comp w))
  = filtered_list (filterType (comp w)) (filterValue (comp w))
      (sorted_list (sortOrder (comp w))
         (elements (heap w) (results (comp w)))).
Proof.
  intros Hr. destruct (serial_at_rest w Hr) as ((_ & _ & Hs & Hf) & Hay).
  unfold displayList. rewrite Hay.
  unfold filtered_ok in Hf. unfold sorted_ok in Hs. by rewrite Hf, Hs.
Qed.

(** X14: In part_001, at rest in a run in which nothing overlaps: when the
    request of the next page fails, the page number moves on all
    the same, the list is empty and both cursors are gone: neither [Next]
    nor [Previous] does anything from there. *)
Theorem failed_page_strands_pagination w :
  serial w → can_page (comp w) →
  truthy (nextPageUrl (comp w)) = true →
  fails w (page_url (comp w) (currentPage (comp w) + 1)) →
  requests (react enough ClickNext w)
  = requests w ++ [page_url (comp w) (currentPage (comp w) + 1)]
  ∧ currentPage (comp (react enough ClickNext w)) = currentPage (comp w) + 1
  ∧ nextPageUrl (comp (react enough ClickNext w)) = None
  ∧ prevPageUrl (comp (react enough ClickNext w)) = None
  ∧ elements (heap (react enough ClickNext w))
      (displayList (comp (react enough ClickNext w))) = []
  ∧ react enough ClickNext (react enough ClickNext w) = react enough ClickNext w
  ∧ react enough ClickPrevious (react enough ClickNext w)
    = react enough ClickNext w.
Proof.
  intros Hr Hc Ht Hf.
  pose proof (serial_display _ (serial_react w ClickNext Hr)) as Hd.
  pose proof (serial_no_search_pending w Hr) as Hq.
  destruct (next_page_run (comp w) w Ht Hc) as (nx & pv & l & log & m & E & Hp).
  destruct (page_of_fails _ _ _ _ _ Hf Hp) as (-> & -> & ->).
  destruct (fetched_settles (comp w)
              (page_url (comp w) (currentPage (comp w) + 1))
              (currentPage (comp w) + 1) w None None [] log m Hq)
    as (wf & Ewf & R & N & P & I & T & L).
  assert (react enough ClickNext w = wf) as Hreact.
  { unfold react. cbn [handle]. unfold exec. rewrite E. exact Ewf. }
  rewrite Hreact in *. clear Hreact Ewf E.
  unfold paging in P. injection P as P1 P2 P3 P4.
  split; [done|]. split; [done|]. split; [done|]. split; [done|].
  split.
  { rewrite Hd, P1, L. by rewrite sorted_list_nil, filtered_list_nil. }
  unfold react. cbn [handle].
  unfold handleNextPage, handlePreviousPage. rewrite P2, P3. cbn [truthy].
  unfold exec, ret. cbn [snd]. by rewrite !settle_same.
Qed.

(** X15: In part_001, at rest in a run in which nothing overlaps: when the
    next page arrives with a cursor back, [Next] shows it and
    [Previous] then returns to the page number it started from: the
    request of [Previous] is the one for that page. *)
Theorem next_then_previous_returns w d u :
  serial w → can_page (comp w) →
  truthy (nextPageUrl (comp w)) = true →
  network w (page_url (comp w) (currentPage (comp w) + 1)) = Responded (Json d) →
  d_previous d = Some u → u ≠ "" →
  currentPage (comp (react enough ClickNext w)) = currentPage (comp w) + 1
  ∧ elements (heap (react enough ClickNext w))
      (results (comp (react enough ClickNext w))) = d_results d
  ∧ requests (react enough ClickPrevious (react enough ClickNext w))
    = requests w ++ [page_url (comp w) (currentPage (comp w) + 1);
                     page_url (comp w) (currentPage (comp w))]
  ∧ currentPage (comp (react enough ClickPrevious (react enough ClickNext w)))
    = currentPage (comp w).
Proof.
  intros Hr Hc Ht Hn Hu Hne.
  pose proof (serial_no_search_pending w Hr) as Hq.
  destruct (next_page_run (comp w) w Ht Hc) as (nx & pv & l & log & m & E & Hp).
  destruct (page_of_answered _ _ _ _ _ _ Hn Hp) as (-> & -> & ->).
  destruct (fetched_settles (comp w)
              (page_url (comp w) (currentPage (comp w) + 1))
              (currentPage (comp w) + 1) w (d_next d) (d_previous d)
              (d_results d) log m Hq)
    as (w1 & Ew1 & R & N & P & I & T & L).
  assert (react enough ClickNext w = w1) as ->.
  { unfold react. cbn [handle]. unfold exec. rewrite E. exact Ew1. }
  clear Ew1 E. unfold paging in P. injection P as P1 P2 P3 P4.
  split; [done|]. split; [by rewrite P1|].
  assert (truthy (prevPageUrl (comp w1)) = true) as Ht1.
  { rewrite P3, Hu. cbn [truthy]. by rewrite falsy_nonempty. }
  assert (can_page (comp w1)) as Hc1 by (by eapply can_page_inputs).
  destruct (previous_page_run (comp w1) w1 Ht1 Hc1)
    as (nx & pv & l & log' & m' & E & _).
  destruct (fetched_settles (comp w1)
              (page_url (comp w1) (currentPage (comp w1) - 1))
              (currentPage (comp w1) - 1) w1 nx pv l log' m' T)
    as (w2 & Ew2 & R2 & _ & P' & _).
  assert (react enough ClickPrevious w1 = w2) as ->.
  { unfold react. cbn [handle]. unfold exec. rewrite E. exact Ew2. }
  unfold paging in P'. injection P' as _ _ _ P4'.
  rewrite R2, R, P4', P4, (page_url_inputs _ _ _ I).
  replace (currentPage (comp w) + 1 - 1) with (currentPage (comp w)) by lia.
  by rewrite <- app_assoc.
Qed.

(** *** Mounting *)

Lemma sorted_list_unsorted l : sorted_list "" l = l.
Proof. reflexivity. Qed.

Lemma filtered_list_unfiltered filterValue l : filtered_list "" filterValue l = l.
Proof. reflexivity. Qed.

(** X16: On mounting, with nothing else happening before the reply, part_001
    requests the first page of the listing, once
    and with an empty sort order, and shows it: the list on display holds
    the records of the page in the order the service sent them, and the
    cursors are those of the page.  When the request fails the list is
    empty and there is no cursor. *)
Theorem mount_shows_first_page net :
  requests (mount enough (initialWorld net)) = [QueryJsx.listUrl "" 1]
  ∧ currentPage (comp (mount enough (initialWorld net))) = 1
  ∧ (∀ d, net (QueryJsx.listUrl "" 1) = Responded (Json d) →
       elements (heap (mount enough (initialWorld net)))
         (displayList (comp (mount enough (initialWorld net))))
       = d_results d
       ∧ nextPageUrl (comp (mount enough (initialWorld net))) = d_next d
       ∧ prevPageUrl (comp (mount enough (initialWorld net))) = d_previous d)
  ∧ (fails (initialWorld net) (QueryJsx.listUrl "" 1) →
     elements (heap (mount enough (initialWorld net)))
       (displayList (comp (mount enough (initialWorld net)))) = []
     ∧ nextPageUrl (comp (mount enough (initialWorld net))) = None
     ∧ prevPageUrl (comp (mount enough (initialWorld net))) = None).
Proof.
  pose proof (serial_display _ (serial_mount net)) as Hd.
  set (wm := exec (ks <- mount_begin initialState ;;
                   complete_now ks.1 ;; complete_now ks.2) (initialWorld net)).
  assert (requests wm = [QueryJsx.listUrl "" 1]
          ∧ currentPage (comp wm) = 1
          ∧ searchTrigger (comp wm) = false
          ∧ sortOrder (comp wm) = ""
          ∧ filterType (comp wm) = ""
          ∧ heap wm !! results (comp wm)
            = Some (elements (heap wm) (results (comp wm)))
          ∧ page_of (initialWorld net) (QueryJsx.listUrl "" 1)
              (nextPageUrl (comp wm)) (prevPageUrl (comp wm))
              (elements (heap wm) (results (comp wm)))) as Hwm.
  { subst wm. unfold page_of. vm_compute.
    match goal with |- context [net ?u] => destruct (net u) as [|[|d]] end;
      vm_compute; repeat split; reflexivity. }
  pose proof (settle_frame enough initialState wm) as F.
  change (mount enough (initialWorld net))
    with (settle enough initialState wm) in *.
  revert Hd F. generalize (settle enough initialState wm). intros wf Hd F.
  destruct Hwm as (Rm & Cm & Tm & Om & Fm & Lm & Pm).
  destruct F as (R & N & [k Hk] & I & P & _ & T); [done|].
  unfold paging, inputs in I, P.
  injection P as P1 P2 P3 P4. injection I as I1 I2 I3 I4 I5.
  assert (elements (heap wf) (displayList (comp wf))
          = elements (heap wm) (results (comp wm))) as Hl.
  { rewrite Hd, I3, I4, P1, Om, Fm, Hk.
    rewrite sorted_list_unsorted, filtered_list_unfiltered.
    unfold elements at 1. by rewrite (lookup_app_l_Some _ _ _ _ Lm). }
  split; [by rewrite R|]. split; [by rewrite P4|]. split.
  - intros d Hn. unfold page_of in Pm. cbn [network initialWorld] in Pm.
    rewrite Hn in Pm. destruct Pm as (En & Ep & El).
    by rewrite Hl, P2, P3.
  - intros Hf. destruct (page_of_fails _ _ _ _ _ Hf Pm) as (En & Ep & El).
    by rewrite Hl, P2, P3.
Qed.

(** *** A search that is rejected *)

(** X17: A search with a search type that is not accepted is caught by the
    handler: no request is made, the two errors are logged, and the
    results, the cursors and the page stay as they are.  Query.jsx and
    part_000 change nothing else; part_001 sets its error message. *)
Theorem rejected_search_keeps_results
    s page w (s1 : QueryJsx.State) (w1 : World QueryJsx.State)
    (s0 : Part000.State) (w0 : World Part000.State) :
  (selectedSearchType s ∉ QueryJsx.validSearchTypes →
   handleSearch s page w
   = (Returned tt,
      mkWorld (heap w) (network w) (requests w)
        (console w ++ ["Invalid search type."; "Error in search:"])
        (with_message "Error searching for books"
           (with_isLoading false (comp w)))))
  ∧ (QueryJsx.selectedSearchType s1 ∉ QueryJsx.validSearchTypes →
     QueryJsx.handleSearch s1 page w1
     = (Returned tt,
        mkWorld (heap w1) (network w1) (requests w1)
          (console w1 ++ ["Invalid search type."; "Error in search:"])
          (comp w1)))
  ∧ (Part000.selectedSearchType s0 ∉ Part000.validSearchTypes →
     Part000.handleSearch s0 w0
     = (Returned tt,
        mkWorld (heap w0) (network w0) (requests w0)
          (console w0 ++ ["Invalid search type."; "Error in search:"])
          (comp w0))).
Proof.
  split; [|split]; intros H; apply includes_false in H.
  - unfold handleSearch, searchBooks, QueryJsx.searchBooks. rewrite H.
    cbn [negb]. run_state. rewrite <- app_assoc. by destruct (comp w).
  - unfold QueryJsx.handleSearch, QueryJsx.searchBooks. rewrite H.
    cbn [negb]. run_state. by rewrite <- app_assoc.
  - unfold Part000.handleSearch, Part000.searchBooks. rewrite H.
    cbn [negb]. run_state. by rewrite <- app_assoc.
Qed.
End ControllerMore.

(** ** part_000: a change of the sort order fetches the listing again *)

Section Part000More.
Context {rt : Runtime}.
Import Part000.
Implicit Types (w : World State).

Lemma part000_effectFetch_run s w :
  ∃ l w',
    effectFetch s w = (Returned tt, w')
    ∧ requests w' = requests w ++ [listUrl (sortOrder s)]
    ∧ heap w' = heap w ++ [l]
    ∧ results (comp w') = length (heap w)
    ∧ match network w (listUrl (sortOrder s)) with
      | Responded (Json d) => l = d_results d
      | _ => l = []
      end.
Proof.
  unfold effectFetch, getBookList, setResults. run.
  destruct (network w _) as [|[|d]]; run; by eexists _, _.
Qed.

Lemma part000_effectDerive_frame s w :
  ∃ w', effectDerive s w = (Returned tt, w')
    ∧ requests w' = requests w
    ∧ results (comp w') = results (comp w)
    ∧ ∃ k, heap w' = heap w ++ k.
Proof.
  unfold effectDerive.
  assert (∃ r1 w1, filterBooks (results s) (filterType s) (filterValue s) w
                   = (Returned r1, w1)
                   ∧ requests w1 = requests w ∧ comp w1 = comp w
                   ∧ ∃ k, heap w1 = heap w ++ k) as (r1 & w1 & E1 & R1 & C1 & [k1 H1]).
  { unfold filterBooks.
    repeat case_match; rewrite ?array_filter_pure; run;
      (eexists _, _; split; [reflexivity|]); cbn [requests comp heap];
      (split; [done|]); (split; [done|]);
      first [by eexists | exists []; by rewrite app_nil_r]. }
  assert (∃ r2 w2, sortBooks r1 (sortOrder s) w1 = (Returned r2, w2)
                   ∧ requests w2 = requests w1 ∧ comp w2 = comp w1
                   ∧ ∃ k, heap w2 = heap w1 ++ k) as (r2 & w2 & E2 & R2 & C2 & [k2 H2]).
  { unfold sortBooks.
    repeat case_match; rewrite ?sorted_copy; run;
      (eexists _, _; split; [reflexivity|]); cbn [requests comp heap];
      (split; [done|]); (split; [done|]);
      first [by eexists | exists []; by rewrite app_nil_r]. }
  unfold bind. rewrite E1, E2. unfold setFilteredResults, set_state.
  eexists. split; [reflexivity|]. cbn [requests comp heap results].
  rewrite R2, R1, C2, C1, H2, H1. split; [done|]. split; [done|].
  exists (k1 ++ k2). by rewrite app_assoc.
Qed.

(** X18: In part_000 a change of the sort order makes the effect on
    [[sortOrder]] request the listing of all books with the new order; the
    results are replaced by what arrives (by the empty array when the
    request fails), whatever they were, also those of a search. *)
Theorem part000_sort_change_refetches w v :
  v ≠ sortOrder (comp w) →
  let prev := comp w in
  let w1 := exec (setSortOrder v) w in
  let w2 := exec (commit prev (comp w1)) w1 in
  requests w2 = requests w ++ [listUrl v]
  ∧ results (comp w2) = length (heap w)
  ∧ heap w !! results (comp w2) = None
  ∧ (∀ d, network w (listUrl v) = Responded (Json d) →
       elements (heap w2) (results (comp w2)) = d_results d)
  ∧ (fails w (listUrl v) → elements (heap w2) (results (comp w2)) = []).
Proof.
  intros Hv prev w1 w2.
  assert (sortOrder (comp w1) = v ∧ requests w1 = requests w
          ∧ heap w1 = heap w ∧ network w1 = network w) as (S1 & R1 & H1 & N1)
    by done.
  destruct (part000_effectFetch_run (comp w1) w1)
    as (l & wa & Ea & Ra & Ha & Ca & Hl).
  assert (∃ wb, (if bool_decide (deps_derive prev ≠ deps_derive (comp w1))
                 then effectDerive (comp w1) else ret tt) wa = (Returned tt, wb)
                ∧ requests wb = requests wa
                ∧ results (comp wb) = results (comp wa)
                ∧ ∃ k, heap wb = heap wa ++ k) as (wb & Eb & Rb & Cb & [k Hk]).
  { destruct (bool_decide _); [apply part000_effectDerive_frame|].
    eexists. split; [reflexivity|]. split; [done|]. split; [done|].
    exists []. by rewrite app_nil_r. }
  assert (w2 = wb) as ->.
  { subst w2. unfold exec, commit, bind.
    rewrite bool_decide_eq_true_2
      by (unfold deps_fetch; subst prev; congruence).
    by rewrite Ea, Eb. }
  rewrite S1, N1 in *. rewrite R1 in Ra. rewrite H1 in Ha, Ca.
  assert (elements (heap wb) (results (comp wb)) = l) as Hel.
  { rewrite Cb, Ca, Hk, Ha, <- app_assoc. unfold elements.
    by rewrite lookup_app_r, Nat.sub_diag. }
  split; [congruence|]. split; [congruence|].
  split; [rewrite Cb, Ca; by apply lookup_ge_None|].
  rewrite Hel. split.
  - intros d Hn. by rewrite Hn in Hl.
  - intros [Hn|Hn]; by rewrite Hn in Hl.
Qed.
End Part000More.

(** ** Query.jsx: an effect that throws *)

Section QueryJsxMore.
Context {rt : Runtime}.
Import QueryJsx.
Implicit Types (w : World State).

Lemma forallb_no_first_author l b :
  b ∈ l → no_first_author b → forallb has_first_author l = false.
Proof.
  intros Hb Hn. induction Hb as [b l|b b' l _ IH]; cbn [forallb].
  - unfold has_first_author. by destruct Hn as [->| ->].
  - rewrite IH by done. apply andb_false_r.
Qed.

(** X19: In Query.jsx, typing a year while the filter type is ['author_year']
    takes the page down when a record on it has no first author: the
    filter effect of the next render throws, nothing catches it, and the
    component is unmounted. *)
Theorem year_input_can_unmount w v b n :
  q_at_rest w →
  filterType (comp w) = "author_year" →
  v ≠ "" → v ≠ filterValue (comp w) →
  b ∈ elements (heap w) (sortedResults (comp w)) →
  no_first_author b →
  react (S n) (ChangeAuthorYear v) w = None.
Proof.
  intros ((Hr & Hs & Hf) & _) Ht Hv Hne Hb Hn.
  unfold react. cbn zeta. cbn [handle]. rewrite Ht. cbn [String.eqb Ascii.eqb Bool.eqb].
  unfold bind, setFilterValue, setIsAuthorYearFilter, set_state.
  cbn [heap network requests console comp].
  set (c := with_isAuthorYearFilter _ _).
  set (w1 := mkWorld _ _ _ _ c).
  assert (commit (comp w) c w1 = commit (comp w) (comp w1) w1) as Ec by done.
  assert (∃ e w', commit (comp w) c w1 = (Thrown e, w')) as (e & w' & E).
  { unfold commit.
    rewrite bool_decide_eq_false_2.
    2: { intros H. apply H. subst c. unfold deps_sort. by destruct (comp w). }
    rewrite bool_decide_eq_true_2.
    2: { subst c. unfold deps_filter. destruct (comp w). cbn in *. congruence. }
    pose proof (q_effectFilter_spec c w1) as H.
    assert (q_filtered_list (filterType c) (filterValue c)
              (elements (heap w1) (sortedResults c)) = None) as Hnone.
    { subst c w1. destruct (comp w) eqn:Hc. cbn in *. subst.
      unfold q_filtered_list. rewrite (falsy_nonempty v) by done.
      cbn [falsy orb String.eqb Ascii.eqb Bool.eqb].
      by rewrite (forallb_no_first_author _ b). }
    rewrite Hnone in H. destruct H as [e H].
    { subst c w1. by destruct (comp w). }
    exists e, w1. unfold bind. cbn [ret]. by rewrite H. }
  cbn [settle]. rewrite bool_decide_eq_false_2.
  2: { intros Eq. apply Hne. change v with (filterValue (comp w1)).
       by rewrite Eq. }
  change (comp w1) with c. by rewrite E.
Qed.
End QueryJsxMore.

(** ** The options of the language select *)

Lemma distinct_spec seen l x :
  x ∈ distinct seen l ↔ x ∈ l ∧ x ∉ seen.
Proof.
  revert seen. induction l as [|y l IH]; intros seen; cbn [distinct].
  - split; [by intros ?%elem_of_nil|by intros [?%elem_of_nil _]].
  - case_bool_decide as Hy.
    + rewrite IH, elem_of_cons. split; [tauto|].
      intros [[->|H] Hs]; [done|tauto].
    + rewrite !elem_of_cons, IH, elem_of_cons. split.
      * intros [->|[H Hs]]; [tauto|]. tauto.
      * intros [[->|H] Hs]; [tauto|].
        destruct (decide (x = y)) as [->|Hne]; [tauto|]. tauto.
Qed.

Lemma distinct_NoDup seen l : NoDup (distinct seen l).
Proof.
  revert seen. induction l as [|y l IH]; intros seen; cbn [distinct].
  - constructor.
  - case_bool_decide; [apply IH|]. constructor; [|apply IH].
    rewrite distinct_spec, elem_of_cons. tauto.
Qed.

Section LanguageOptions.
Context {rt : Runtime} {Σ : Type}.
Implicit Types w : World Σ.

(** X20: The language select offers each language of the results once, and no
    other: an option that is chosen keeps at least one record of those
    results, and a language that is not offered would keep none. *)
Theorem language_options_keep_something w books v :
  NoDup (Part001.languageOptions (elements (heap w) books))
  ∧ (v ∈ Part001.languageOptions (elements (heap w) books)
     ↔ ∃ b, b ∈ elements (heap w) books ∧ v ∈ languages b)
  ∧ (v ≠ "" →
     ∃ kept,
       eval (f <- Part001.filterBooks books "language" v ;; read_array f) w
       = Returned kept
       ∧ (v ∈ Part001.languageOptions (elements (heap w) books) ↔ kept ≠ [])).
Proof.
  assert (v ∈ Part001.languageOptions (elements (heap w) books)
          ↔ ∃ b, b ∈ elements (heap w) books ∧ v ∈ languages b) as Hopt.
  { unfold Part001.languageOptions. rewrite distinct_spec.
    rewrite list_elem_of_bind. split.
    - intros [(b & Hv & Hb) _]. by exists b.
    - intros (b & Hb & Hv). split; [by exists b|by intros ?%elem_of_nil]. }
  split; [apply distinct_NoDup|]. split; [exact Hopt|].
  intros Hv.
  destruct (part001_filterBooks_run w books "language" v)
    as (r & w' & E & L & _).
  exists (elements (heap w') r). unfold eval, bind. rewrite E.
  split; [done|]. rewrite L, Hopt. unfold filtered_list.
  rewrite !falsy_nonempty by done.
  change (String.eqb "language" "language") with true. cbn [orb].
  split.
  - intros (b & Hb & Hl) Hnil.
    assert (b ∈ filter (λ book, includes (languages book) v)
                  (elements (heap w) books)) as Hin.
    { apply list_elem_of_filter. split; [|done].
      apply Is_true_true. by apply includes_true. }
    rewrite Hnil in Hin. by apply elem_of_nil in Hin.
  - intros Hne.
    destruct (filter _ (elements (heap w) books)) as [|b l] eqn:Hf; [done|].
    assert (b ∈ filter (λ book, includes (languages book) v)
                  (elements (heap w) books)) as Hin by (rewrite Hf; left).
    apply list_elem_of_filter in Hin as [Hl Hb].
    exists b. split; [done|]. by apply includes_true, Is_true_true.
Qed.
End LanguageOptions.

(** ** The further properties on the examples *)

Lemma sortBooks_idempotent_witness :
  consistent demo_localeCompare
  ∧ "alphabetical" ≠ "chronological"
  ∧ (∃ sorted,
       eval (once <- QueryJsx.sortBooks (rt := demo_runtime) 0%nat "alphabetical" ;;
             read_array once)
         (shelf [[book_two_authors; book_anonymous; book_1800_1850]])
       = Returned sorted
       ∧ eval (once <- QueryJsx.sortBooks (rt := demo_runtime) 0%nat "alphabetical" ;;
               twice <- QueryJsx.sortBooks (rt := demo_runtime) once "alphabetical" ;;
               read_array twice)
           (shelf [[book_two_authors; book_anonymous; book_1800_1850]])
         = Returned sorted)
  ∧ (∃ sorted,
       eval (once <- Part000.sortBooks (rt := demo_runtime) 0%nat "alphabetical" ;;
             read_array once)
         (shelf [[book_two_authors; book_anonymous; book_1800_1850]])
       = Returned sorted
       ∧ eval (once <- Part000.sortBooks (rt := demo_runtime) 0%nat "alphabetical" ;;
               twice <- Part000.sortBooks (rt := demo_runtime) once "alphabetical" ;;
               read_array twice)
           (shelf [[book_two_authors; book_anonymous; book_1800_1850]])
         = Returned sorted).
Proof.
  assert ("alphabetical" ≠ "chronological") as H by discriminate.
  destruct (sortBooks_idempotent (rt := demo_runtime)
              (shelf [[book_two_authors; book_anonymous; book_1800_1850]])
              0%nat "alphabetical" demo_localeCompare_consistent) as [Q P].
  split; [exact demo_localeCompare_consistent|]. split; [exact H|].
  split; [exact Q|exact (P H)].
Defined.

Lemma opposite_orders_reverse_witness :
  consistent demo_localeCompare
  ∧ (∀ a b, a ∈ [book_two_authors; book_anonymous; book_1800_1850] →
            b ∈ [book_two_authors; book_anonymous; book_1800_1850] →
            download_count a = download_count b → a = b)
  ∧ (∀ a b, a ∈ [book_two_authors; book_anonymous; book_1800_1850] →
            b ∈ [book_two_authors; book_anonymous; book_1800_1850] →
            demo_localeCompare (title a) (title b) = 0 → a = b)
  ∧ (∃ ascending,
       eval (s <- QueryJsx.sortBooks (rt := demo_runtime) 0%nat "ascending_popular" ;;
             read_array s)
         (shelf [[book_two_authors; book_anonymous; book_1800_1850]])
       = Returned ascending
       ∧ eval (s <- QueryJsx.sortBooks (rt := demo_runtime) 0%nat
                      "descending_popular" ;;
               read_array s)
           (shelf [[book_two_authors; book_anonymous; book_1800_1850]])
         = Returned (reverse ascending))
  ∧ (∃ ascending,
       eval (s <- QueryJsx.sortBooks (rt := demo_runtime) 0%nat "alphabetical" ;;
             read_array s)
         (shelf [[book_two_authors; book_anonymous; book_1800_1850]])
       = Returned ascending
       ∧ eval (s <- QueryJsx.sortBooks (rt := demo_runtime) 0%nat
                      "reverse_alphabetical" ;;
               read_array s)
           (shelf [[book_two_authors; book_anonymous; book_1800_1850]])
         = Returned (reverse ascending)).
Proof.
  assert (∀ a b, a ∈ [book_two_authors; book_anonymous; book_1800_1850] →
                 b ∈ [book_two_authors; book_anonymous; book_1800_1850] →
                 download_count a = download_count b → a = b) as H1.
  { intros a b Ha Hb E.
    repeat (apply elem_of_cons in Ha as [->|Ha]);
      try (by apply elem_of_nil in Ha);
      repeat (apply elem_of_cons in Hb as [->|Hb]);
      try (by apply elem_of_nil in Hb);
      first [reflexivity | vm_compute in E; discriminate E]. }
  assert (∀ a b, a ∈ [book_two_authors; book_anonymous; book_1800_1850] →
                 b ∈ [book_two_authors; book_anonymous; book_1800_1850] →
                 demo_localeCompare (title a) (title b) = 0 → a = b) as H2.
  { intros a b Ha Hb E.
    repeat (apply elem_of_cons in Ha as [->|Ha]);
      try (by apply elem_of_nil in Ha);
      repeat (apply elem_of_cons in Hb as [->|Hb]);
      try (by apply elem_of_nil in Hb);
      first [reflexivity | vm_compute in E; discriminate E]. }
  destruct (opposite_orders_reverse (rt := demo_runtime)
              (shelf [[book_two_authors; book_anonymous; book_1800_1850]])
              0%nat demo_localeCompare_consistent) as [Q P].
  split; [exact demo_localeCompare_consistent|]. split; [exact H1|].
  split; [exact H2|]. split; [exact (Q H1)|exact (P H2)].
Defined.

Lemma sort_and_filter_commute_witness :
  consistent demo_localeCompare
  ∧ ∃ shown,
      eval (sorted <- Part001.sortBooks (rt := demo_runtime) 0%nat "alphabetical" ;;
            filtered <- Part001.filterBooks (rt := demo_runtime) sorted
                          "language" "fr" ;;
            read_array filtered)
        (shelf [[book_two_authors; book_french; book_1800_1850]])
      = Returned shown
      ∧ eval (filtered <- Part001.filterBooks (rt := demo_runtime) 0%nat
                            "language" "fr" ;;
              sorted <- Part001.sortBooks (rt := demo_runtime) filtered
                          "alphabetical" ;;
              read_array sorted)
          (shelf [[book_two_authors; book_french; book_1800_1850]])
        = Returned shown.
Proof.
  split; [exact demo_localeCompare_consistent|].
  exact (sort_and_filter_commute (rt := demo_runtime)
           (shelf [[book_two_authors; book_french; book_1800_1850]])
           0%nat "alphabetical" "language" "fr" demo_localeCompare_consistent).
Defined.

Lemma language_filter_exact_witness :
  "fr" ≠ ""
  ∧ Part001.filterBooks (rt := demo_runtime) 0%nat "language" "fr"
      (shelf [[book_two_authors; book_french; book_1800_1850]])
    = (Returned 1%nat,
       mkWorld [[book_two_authors; book_french; book_1800_1850];
                [book_two_authors; book_french]]
               (λ _, Unreachable) [] [] tt).
Proof.
  assert ("fr" ≠ "") as H by discriminate.
  split; [exact H|].
  exact (proj1 (language_filter_exact (rt := demo_runtime)
                  (shelf [[book_two_authors; book_french; book_1800_1850]])
                  0%nat "fr" H)).
Defined.

Lemma unknown_filter_type_returns_argument_witness :
  "topic" ≠ "" ∧ "author_year" ≠ "" ∧ "poetry" ≠ ""
  ∧ ("topic" ∉ ["language"; "author_year"])
  ∧ ("author_year" ∉ ["language"; "topic"])
  ∧ Part001.filterBooks (rt := demo_runtime) 0%nat "topic" "poetry"
      (shelf [[book_two_authors]])
    = (Returned 0%nat,
       exec (console_error "Invalid filter type.") (shelf [[book_two_authors]]))
  ∧ Part000.filterBooks 0%nat "author_year" "poetry" (shelf [[book_two_authors]])
    = (Returned 0%nat,
       exec (console_error "Invalid filter type.") (shelf [[book_two_authors]])).
Proof.
  assert ("topic" ≠ "") as H1 by discriminate.
  assert ("author_year" ≠ "") as H2 by discriminate.
  assert ("poetry" ≠ "") as H3 by discriminate.
  assert ("topic" ∉ ["language"; "author_year"]) as H4
    by (apply includes_false; reflexivity).
  assert ("author_year" ∉ ["language"; "topic"]) as H5
    by (apply includes_false; reflexivity).
  split; [exact H1|]. split; [exact H2|]. split; [exact H3|].
  split; [exact H4|]. split; [exact H5|]. split.
  - exact (proj1 (proj1 (unknown_filter_type_returns_argument (rt := demo_runtime)
                           (shelf [[book_two_authors]]) 0%nat "topic" "poetry"
                           H1 H3) H4)).
  - exact (proj2 (unknown_filter_type_returns_argument (rt := demo_runtime)
                    (shelf [[book_two_authors]]) 0%nat "author_year" "poetry"
                    H2 H3) H5).
Defined.

Lemma author_alive_is_kept_witness :
  "1825" ≠ ""
  ∧ demo_ToNumber "1825" = Number_of_Z 1825
  ∧ book_two_authors ∈ [book_anonymous; book_two_authors]
  ∧ author "A" (Some 1800) (Some 1850) ∈ default [] (authors book_two_authors)
  ∧ 1800 <= 1825 <= 1850
  ∧ ∃ kept,
      eval (Part001.filterBooks (rt := demo_runtime) 0%nat "author_year" "1825")
        (shelf [[book_anonymous; book_two_authors]]) = Returned kept
      ∧ book_two_authors
        ∈ elements
            (heap (exec (Part001.filterBooks (rt := demo_runtime) 0%nat
                           "author_year" "1825")
                     (shelf [[book_anonymous; book_two_authors]])))
            kept.
Proof.
  assert ("1825" ≠ "") as H1 by discriminate.
  assert (demo_ToNumber "1825" = Number_of_Z 1825) as H2 by reflexivity.
  assert (book_two_authors ∈ [book_anonymous; book_two_authors]) as H3
    by apply list_elem_of_further, list_elem_of_here.
  assert (author "A" (Some 1800) (Some 1850)
          ∈ default [] (authors book_two_authors)) as H4
    by apply list_elem_of_further, list_elem_of_here.
  assert (1800 <= 1825 <= 1850) as H5 by lia.
  split; [exact H1|]. split; [exact H2|]. split; [exact H3|].
  split; [exact H4|]. split; [exact H5|].
  exact (author_alive_is_kept (rt := demo_runtime)
           (shelf [[book_anonymous; book_two_authors]]) 0%nat "1825" 1825
           book_two_authors (author "A" (Some 1800) (Some 1850)) 1800 1850
           H1 H2 H3 H4 eq_refl eq_refl H5).
Defined.

Lemma author_year_never_keeps_witness :
  "soon" ≠ ""
  ∧ demo_ToNumber "soon" = NaN
  ∧ Forall (λ a, death_year a = None) (default [] (authors book_living))
  ∧ ∃ kept,
      eval (Part001.filterBooks (rt := demo_runtime) 0%nat "author_year" "soon")
        (shelf [[book_1800_1850; book_living]]) = Returned kept
      ∧ elements
          (heap (exec (Part001.filterBooks (rt := demo_runtime) 0%nat
                         "author_year" "soon")
                   (shelf [[book_1800_1850; book_living]])))
          kept = []
      ∧ book_living
        ∉ elements
            (heap (exec (Part001.filterBooks (rt := demo_runtime) 0%nat
                           "author_year" "soon")
                     (shelf [[book_1800_1850; book_living]])))
            kept.
Proof.
  assert ("soon" ≠ "") as H1 by discriminate.
  assert (demo_ToNumber "soon" = NaN) as H2 by reflexivity.
  assert (Forall (λ a, death_year a = None) (default [] (authors book_living)))
    as H3 by (repeat constructor).
  destruct (author_year_never_keeps (rt := demo_runtime)
              (shelf [[book_1800_1850; book_living]]) 0%nat "soon" H1)
    as (kept & E & Hnan & Hno).
  split; [exact H1|]. split; [exact H2|]. split; [exact H3|].
  exists kept. split; [exact E|]. split; [exact (Hnan H2)|].
  exact (Hno book_living (or_introl H3)).
Defined.

Lemma unsupported_sort_order_keeps_order_witness :
  ("" ∉ supportedSortOrders)
  ∧ "newest" ≠ ""
  ∧ ("newest" ∉ ["alphabetical"; "reverse_alphabetical"; "chronological";
                  "popularity"])
  ∧ QueryJsx.sortBooks (rt := demo_runtime) 0%nat ""
      (shelf [[book_two_authors; book_1800_1850]])
    = (Returned 0%nat,
       exec (console_error "Invalid sort order.")
         (shelf [[book_two_authors; book_1800_1850]]))
  ∧ eval (Part000.sortBooks (rt := demo_runtime) 0%nat "newest")
      (shelf [[book_two_authors; book_1800_1850]]) = Returned 1%nat
  ∧ heap (exec (Part000.sortBooks (rt := demo_runtime) 0%nat "newest")
            (shelf [[book_two_authors; book_1800_1850]]))
    = [[book_two_authors; book_1800_1850]; [book_two_authors; book_1800_1850]].
Proof.
  assert ("" ∉ supportedSortOrders) as H1 by (apply includes_false; reflexivity).
  assert ("newest" ≠ "") as H2 by discriminate.
  assert ("newest" ∉ ["alphabetical"; "reverse_alphabetical"; "chronological";
                      "popularity"]) as H3 by (apply includes_false; reflexivity).
  split; [exact H1|]. split; [exact H2|]. split; [exact H3|]. split.
  - exact (proj1 (unsupported_sort_order_keeps_order (rt := demo_runtime)
                    (shelf [[book_two_authors; book_1800_1850]]) 0%nat "") H1).
  - exact (proj2 (proj2 (unsupported_sort_order_keeps_order (rt := demo_runtime)
                           (shelf [[book_two_authors; book_1800_1850]]) 0%nat
                           "newest")) H2 H3).
Defined.

Lemma answered_page_is_passed_on_witness :
  network (blank demo_catalog tt) (QueryJsx.listUrl "popular" 1)
  = demo_catalog "any"
  ∧ "default" ∈ QueryJsx.validSearchTypes
  ∧ "title" ∈ Part000.validSearchTypes
  ∧ QueryJsx.getBookList "popular" 1 (blank demo_catalog tt)
    = (Returned (Page.mk 3 (Some "https://gutendex.com/books?page=2") None 0%nat),
       mkWorld [[book_1800_1850; book_anonymous; book_two_authors]] demo_catalog
         [QueryJsx.listUrl "popular" 1] [] tt)
  ∧ QueryJsx.searchBooks "poems" "default" "popular" 1 (blank demo_catalog tt)
    = (Returned (Page.mk 3 (Some "https://gutendex.com/books?page=2") None 0%nat),
       mkWorld [[book_1800_1850; book_anonymous; book_two_authors]] demo_catalog
         [QueryJsx.searchUrl "poems" "default" "popular" 1] [] tt)
  ∧ Part000.getBookList "popular" (blank demo_catalog tt)
    = (Returned 0%nat,
       mkWorld [[book_1800_1850; book_anonymous; book_two_authors]] demo_catalog
         [Part000.listUrl "popular"] [] tt)
  ∧ Part000.searchBooks "poems" "title" "popular" (blank demo_catalog tt)
    = (Returned 0%nat,
       mkWorld [[book_1800_1850; book_anonymous; book_two_authors]] demo_catalog
         [Part000.searchUrl "poems" "popular"] [] tt).
Proof.
  assert ("default" ∈ QueryJsx.validSearchTypes) as H1
    by (apply includes_true; reflexivity).
  assert ("title" ∈ Part000.validSearchTypes) as H2
    by (apply includes_true; reflexivity).
  destruct (answered_page_is_passed_on (blank demo_catalog tt) "poems" "default"
              "popular" 1
              {| d_count := 3;
                 d_next := Some "https://gutendex.com/books?page=2";
                 d_previous := None;
                 d_results := [book_1800_1850; book_anonymous; book_two_authors] |})
    as (A & B & _).
  destruct (answered_page_is_passed_on (blank demo_catalog tt) "poems" "title"
              "popular" 1
              {| d_count := 3;
                 d_next := Some "https://gutendex.com/books?page=2";
                 d_previous := None;
                 d_results := [book_1800_1850; book_anonymous; book_two_authors] |})
    as (_ & _ & C & D).
  split; [reflexivity|]. split; [exact H1|]. split; [exact H2|].
  split; [exact (A eq_refl)|]. split; [exact (B H1 eq_refl)|].
  split; [exact (C eq_refl)|exact (D H2 eq_refl)].
Defined.

Lemma search_request_determines_query_witness :
  "topic" ∈ QueryJsx.validSearchTypes
  ∧ "author" ∈ Part000.validSearchTypes
  ∧ requests (exec (QueryJsx.searchBooks "fairy tales" "topic" "popular" 1)
                (blank demo_catalog tt))
    = requests (exec (QueryJsx.searchBooks "fairy tales" "topic" "popular" 1)
                  (blank demo_catalog tt))
  ∧ "fairy tales" = "fairy tales" ∧ "topic" = "topic".
Proof.
  assert ("topic" ∈ QueryJsx.validSearchTypes) as H1
    by (apply includes_true; reflexivity).
  assert ("author" ∈ Part000.validSearchTypes) as H2
    by (apply includes_true; reflexivity).
  split; [exact H1|]. split; [exact H2|]. split; [reflexivity|].
  exact (proj1 (search_request_determines_query (blank demo_catalog tt)
                  "fairy tales" "fairy tales" "topic" "topic" "popular" 1 H1 H1)
           eq_refl).
Defined.

Lemma edits_issue_no_request_witness :
  serial (rt := demo_runtime) demo_ready
  ∧ edits (Part001.ChangeSortOrder "alphabetical") = true
  ∧ requests (Part001.react (rt := demo_runtime) enough
                (Part001.ChangeSortOrder "alphabetical") demo_ready)
    = requests demo_ready
  ∧ paging (comp (Part001.react (rt := demo_runtime) enough
                    (Part001.ChangeSortOrder "alphabetical") demo_ready))
    = paging (comp demo_ready).
Proof.
  assert (serial (rt := demo_runtime) demo_ready) as H
    by exact (serial_react _ _ (serial_react _ _ (serial_mount _))).
  destruct (edits_issue_no_request (rt := demo_runtime) demo_ready
              (Part001.ChangeSortOrder "alphabetical") H eq_refl) as (R & P & _).
  split; [exact H|]. split; [reflexivity|]. split; [exact R|exact P].
Defined.

Lemma click_searches_once_witness :
  serial (rt := demo_runtime) demo_ready
  ∧ Part001.selectedSearchType (comp demo_ready) ∈ QueryJsx.validSearchTypes
  ∧ requests (Part001.react (rt := demo_runtime) enough
                (Part001.ClickAuthor "Poe, Edgar Allan") demo_ready)
    = requests demo_ready
      ++ [QueryJsx.searchUrl "Poe, Edgar Allan"
            (Part001.selectedSearchType (comp demo_ready))
            (Part001.sortOrder (comp demo_ready)) 1]
  ∧ requests (Part001.react (rt := demo_runtime) enough
                (Part001.ClickBookshelf "Gothic Fiction") demo_ready)
    = requests demo_ready
      ++ [QueryJsx.searchUrl "Gothic Fiction" "topic"
            (Part001.sortOrder (comp demo_ready)) 1].
Proof.
  assert (serial (rt := demo_runtime) demo_ready) as H
    by exact (serial_react _ _ (serial_react _ _ (serial_mount _))).
  assert (Part001.selectedSearchType (comp demo_ready) ∈ QueryJsx.validSearchTypes)
    as Hv by (apply includes_true; vm_compute; reflexivity).
  split; [exact H|]. split; [exact Hv|]. split.
  - exact (proj1 (proj1 (click_searches_once (rt := demo_runtime) demo_ready
                           "Poe, Edgar Allan" H) Hv)).
  - exact (proj1 (proj2 (click_searches_once (rt := demo_runtime) demo_ready
                           "Gothic Fiction" H))).
Defined.

Lemma failed_page_strands_pagination_witness :
  serial (rt := demo_runtime) demo_offline
  ∧ can_page (comp demo_offline)
  ∧ truthy (Part001.nextPageUrl (comp demo_offline)) = true
  ∧ fails demo_offline
      (page_url (comp demo_offline) (Part001.currentPage (comp demo_offline) + 1))
  ∧ Part001.currentPage
      (comp (Part001.react (rt := demo_runtime) enough Part001.ClickNext demo_offline))
    = Part001.currentPage (comp demo_offline) + 1
  ∧ Part001.nextPageUrl
      (comp (Part001.react (rt := demo_runtime) enough Part001.ClickNext demo_offline))
    = None
  ∧ Part001.react (rt := demo_runtime) enough Part001.ClickPrevious
      (Part001.react (rt := demo_runtime) enough Part001.ClickNext demo_offline)
    = Part001.react (rt := demo_runtime) enough Part001.ClickNext demo_offline.
Proof.
  assert (serial (rt := demo_runtime) demo_offline) as H
    by exact (serial_network _ _
                (serial_react _ _ (serial_react _ _ (serial_mount _)))).
  assert (can_page (comp demo_offline)) as Hc
    by (right; apply includes_true; vm_compute; reflexivity).
  assert (truthy (Part001.nextPageUrl (comp demo_offline)) = true) as Ht
    by (vm_compute; reflexivity).
  assert (fails demo_offline
            (page_url (comp demo_offline)
               (Part001.currentPage (comp demo_offline) + 1))) as Hf
    by (left; reflexivity).
  destruct (failed_page_strands_pagination (rt := demo_runtime) demo_offline
              H Hc Ht Hf) as (_ & P & N & _ & _ & _ & B).
  split; [exact H|]. split; [exact Hc|]. split; [exact Ht|]. split; [exact Hf|].
  split; [exact P|]. split; [exact N|exact B].
Defined.

Lemma next_then_previous_returns_witness :
  serial (rt := demo_runtime) demo_paged
  ∧ can_page (comp demo_paged)
  ∧ truthy (Part001.nextPageUrl (comp demo_paged)) = true
  ∧ "https://gutendex.com/books?page=1" ≠ ""
  ∧ Part001.currentPage
      (comp (Part001.react (rt := demo_runtime) enough Part001.ClickNext demo_paged))
    = Part001.currentPage (comp demo_paged) + 1
  ∧ Part001.currentPage
      (comp (Part001.react (rt := demo_runtime) enough Part001.ClickPrevious
               (Part001.react (rt := demo_runtime) enough Part001.ClickNext
                  demo_paged)))
    = Part001.currentPage (comp demo_paged).
Proof.
  assert (serial (rt := demo_runtime) demo_paged) as H
    by exact (serial_network _ _
                (serial_react _ _ (serial_react _ _ (serial_mount _)))).
  assert (can_page (comp demo_paged)) as Hc
    by (right; apply includes_true; vm_compute; reflexivity).
  assert (truthy (Part001.nextPageUrl (comp demo_paged)) = true) as Ht
    by (vm_compute; reflexivity).
  assert ("https://gutendex.com/books?page=1" ≠ "") as Hu by discriminate.
  destruct (next_then_previous_returns (rt := demo_runtime) demo_paged
              {| d_count := 3;
                 d_next := Some "https://gutendex.com/books?page=3";
                 d_previous := Some "https://gutendex.com/books?page=1";
                 d_results := [book_french; book_living] |}
              "https://gutendex.com/books?page=1" H Hc Ht eq_refl eq_refl Hu)
    as (P & _ & _ & B).
  split; [exact H|]. split; [exact Hc|]. split; [exact Ht|]. split; [exact Hu|].
  split; [exact P|exact B].
Defined.

Lemma mount_shows_first_page_witness :
  fails (Part001.initialWorld (λ _, Unreachable)) (QueryJsx.listUrl "" 1)
  ∧ elements (heap (Part001.mount (rt := demo_runtime) enough
                      (Part001.initialWorld demo_catalog)))
      (Part001.displayList
         (comp (Part001.mount (rt := demo_runtime) enough
                  (Part001.initialWorld demo_catalog))))
    = [book_1800_1850; book_anonymous; book_two_authors]
  ∧ elements (heap (Part001.mount (rt := demo_runtime) enough
                      (Part001.initialWorld (λ _, Unreachable))))
      (Part001.displayList
         (comp (Part001.mount (rt := demo_runtime) enough
                  (Part001.initialWorld (λ _, Unreachable)))))
    = [].
Proof.
  assert (fails (Part001.initialWorld (λ _, Unreachable)) (QueryJsx.listUrl "" 1))
    as Hf by (left; reflexivity).
  destruct (mount_shows_first_page (rt := demo_runtime) demo_catalog)
    as (_ & _ & A & _).
  destruct (mount_shows_first_page (rt := demo_runtime) (λ _, Unreachable))
    as (_ & _ & _ & B).
  split; [exact Hf|]. split.
  - exact (proj1 (A {| d_count := 3;
                       d_next := Some "https://gutendex.com/books?page=2";
                       d_previous := None;
                       d_results := [book_1800_1850; book_anonymous;
                                     book_two_authors] |} eq_refl)).
  - exact (proj1 (B Hf)).
Defined.

Lemma rejected_search_keeps_results_witness :
  ("bogus" ∉ QueryJsx.validSearchTypes)
  ∧ ("bogus" ∉ Part000.validSearchTypes)
  ∧ Part001.handleSearch
      (Part001.with_selectedSearchType "bogus" Part001.initialState) 1
      (Part001.initialWorld demo_catalog)
    = (Returned tt,
       mkWorld [[]; []; []] demo_catalog []
         ["Invalid search type."; "Error in search:"]
         (Part001.with_message "Error searching for books"
            (Part001.with_isLoading false Part001.initialState)))
  ∧ QueryJsx.handleSearch
      (QueryJsx.mkState "poems" 0%nat 1%nat 2%nat "" "" "" "bogus" false None None 1)
      1 demo_queryjsx
    = (Returned tt,
       mkWorld (heap demo_queryjsx) demo_catalog []
         ["Invalid search type."; "Error in search:"] (comp demo_queryjsx))
  ∧ Part000.handleSearch
      (Part000.mkState "poems" 0%nat 1%nat "popularity" "" "" "bogus") demo_part000
    = (Returned tt,
       mkWorld (heap demo_part000) (λ _, Unreachable) []
         ["Invalid search type."; "Error in search:"] (comp demo_part000)).
Proof.
  assert ("bogus" ∉ QueryJsx.validSearchTypes) as H1
    by (apply includes_false; reflexivity).
  assert ("bogus" ∉ Part000.validSearchTypes) as H2
    by (apply includes_false; reflexivity).
  destruct (rejected_search_keeps_results
              (Part001.with_selectedSearchType "bogus" Part001.initialState) 1
              (Part001.initialWorld demo_catalog)
              (QueryJsx.mkState "poems" 0%nat 1%nat 2%nat "" "" "" "bogus" false
                 None None 1)
              demo_queryjsx
              (Part000.mkState "poems" 0%nat 1%nat "popularity" "" "" "bogus")
              demo_part000) as (A & B & C).
  split; [exact H1|]. split; [exact H2|].
  split; [exact (A H1)|]. split; [exact (B H1)|exact (C H2)].
Defined.

Lemma part000_sort_change_refetches_witness :
  "alphabetical" ≠ Part000.sortOrder (comp demo_part000)
  ∧ fails demo_part000 (Part000.listUrl "alphabetical")
  ∧ requests
      (exec (Part000.commit (rt := demo_runtime) (comp demo_part000)
               (comp (exec (Part000.setSortOrder "alphabetical") demo_part000)))
         (exec (Part000.setSortOrder "alphabetical") demo_part000))
    = requests demo_part000 ++ [Part000.listUrl "alphabetical"]
  ∧ elements
      (heap (exec (Part000.commit (rt := demo_runtime) (comp demo_part000)
                     (comp (exec (Part000.setSortOrder "alphabetical")
                              demo_part000)))
               (exec (Part000.setSortOrder "alphabetical") demo_part000)))
      (Part000.results
         (comp (exec (Part000.commit (rt := demo_runtime) (comp demo_part000)
                        (comp (exec (Part000.setSortOrder "alphabetical")
                                 demo_part000)))
                  (exec (Part000.setSortOrder "alphabetical") demo_part000))))
    = [].
Proof.
  assert ("alphabetical" ≠ Part000.sortOrder (comp demo_part000)) as H
    by discriminate.
  assert (fails demo_part000 (Part000.listUrl "alphabetical")) as Hf
    by (left; reflexivity).
  destruct (part000_sort_change_refetches (rt := demo_runtime) demo_part000
              "alphabetical" H) as (R & _ & _ & _ & F).
  split; [exact H|]. split; [exact Hf|]. split; [exact R|exact (F Hf)].
Defined.

Lemma language_options_keep_something_witness :
  "fr" ≠ ""
  ∧ Part001.languageOptions [book_1800_1850; book_two_authors; book_french]
    = ["en"; "fr"]
  ∧ ∃ kept,
      eval (f <- Part001.filterBooks (rt := demo_runtime) 0%nat "language" "fr" ;;
            read_array f)
        (shelf [[book_1800_1850; book_two_authors; book_french]])
      = Returned kept
      ∧ ("fr" ∈ Part001.languageOptions
                  (elements
                     (heap (shelf [[book_1800_1850; book_two_authors; book_french]]))
                     0%nat)
         ↔ kept ≠ []).
Proof.
  assert ("fr" ≠ "") as H by discriminate.
  split; [exact H|]. split; [reflexivity|].
  exact (proj2 (proj2 (language_options_keep_something (rt := demo_runtime)
                         (shelf [[book_1800_1850; book_two_authors; book_french]])
                         0%nat "fr")) H).
Defined.

Lemma year_input_can_unmount_witness :
  q_at_rest (rt := demo_runtime) demo_q_years
  ∧ QueryJsx.filterType (comp demo_q_years) = "author_year"
  ∧ "1825" ≠ ""
  ∧ "1825" ≠ QueryJsx.filterValue (comp demo_q_years)
  ∧ book_anonymous
    ∈ elements (heap demo_q_years) (QueryJsx.sortedResults (comp demo_q_years))
  ∧ no_first_author book_anonymous
  ∧ QueryJsx.react (rt := demo_runtime) enough (QueryJsx.ChangeAuthorYear "1825")
      demo_q_years = None.
Proof.
  assert (q_at_rest (rt := demo_runtime) demo_q_years) as H.
  { apply q_serial_at_rest.
    apply (q_serial_react demo_q_shelf_listed
             (QueryJsx.ChangeFilterType "author_year"));
      [|vm_compute; reflexivity].
    apply (q_serial_react demo_q_shelf QueryJsx.ClickShowAllBooks);
      [|vm_compute; reflexivity].
    apply (q_serial_mount demo_catalog). vm_compute. reflexivity. }
  assert (QueryJsx.filterType (comp demo_q_years) = "author_year") as Ht
    by (vm_compute; reflexivity).
  assert ("1825" ≠ "") as Hv by discriminate.
  assert ("1825" ≠ QueryJsx.filterValue (comp demo_q_years)) as Hne
    by (vm_compute; discriminate).
  assert (book_anonymous
          ∈ elements (heap demo_q_years)
              (QueryJsx.sortedResults (comp demo_q_years))) as Hb.
  { vm_compute. apply list_elem_of_further, list_elem_of_here. }
  assert (no_first_author book_anonymous) as Hn by (right; reflexivity).
  split; [exact H|]. split; [exact Ht|]. split; [exact Hv|].
  split; [exact Hne|]. split; [exact Hb|]. split; [exact Hn|].
  exact (year_input_can_unmount (rt := demo_runtime) demo_q_years "1825"
           book_anonymous 3 H Ht Hv Hne Hb Hn).
Defined.
